(** * HCS VRAM interceptor: quota accounting of [libhcs_interceptor.c]

    A shallow embedding of [pkg/interceptor/libhcs_interceptor.c] and the
    properties of its admission, free and memory-info paths.

    Conventions of the embedding.
    - [size_t] and [uint64_t] are 64-bit (LP64); a value is a [Z] in
      [0, 2^64) and every C addition that can wrap is written with [wrap64].
    - A device pointer is a [Z]; [0] is [NULL].
    - A C string is a [string] (the characters before the terminating NUL);
      a possibly-NULL [const char *] is an [option string].
    - A [double] is an IEEE-754 binary64 value, [spec_float] with
      [prec = 53] and [emax = 1024].
    - The mutex is not modelled: the embedding is the single-threaded
      semantics, where lock and unlock have no effect.
    - [HCS_LOG] and [format_size] only write to [stderr]; they are left out. *)

From Stdlib Require Import ZArith List String Ascii Bool Lia.
From Stdlib Require Import Floats.SpecFloat.
From Stdlib Require DecimalString DecimalPos DecimalN.
Import ListNotations.

Local Open Scope Z_scope.

(* ------------------------------------------------------------------------ *)
(** ** Machine integers *)

Definition SIZE_MAX : Z := 18446744073709551615.

(** Reduction of an unsigned 64-bit result ([size_t], [uint64_t]). *)
Definition wrap64 (z : Z) : Z := z mod 18446744073709551616.

(* ------------------------------------------------------------------------ *)
(** ** The C library functions the parser calls (ISO C, "C" locale) *)

Module LibC.

Definition code (c : ascii) : Z := Z.of_N (N_of_ascii c).

(** [isspace]: space, and the controls from [\t] (9) to [\r] (13). *)
Definition isspace (c : ascii) : bool :=
  (code c =? 32) || ((9 <=? code c) && (code c <=? 13)).

Definition isdigit (c : ascii) : bool := (48 <=? code c) && (code c <=? 57).

Definition isupper (c : ascii) : bool := (65 <=? code c) && (code c <=? 90).

Definition islower (c : ascii) : bool := (97 <=? code c) && (code c <=? 122).

Definition tolower (c : ascii) : Z := if isupper c then code c + 32 else code c.

(** Value of a decimal digit. *)
Definition digit_value (c : ascii) : option Z :=
  if isdigit c then Some (code c - 48) else None.

(** Value of a hexadecimal digit. *)
Definition xdigit_value (c : ascii) : option Z :=
  if isdigit c then Some (code c - 48)
  else if (97 <=? tolower c) && (tolower c <=? 102) then Some (tolower c - 87)
  else None.

(** [strncasecmp s1 s2 n]: compares at most [n] characters, ignoring case;
    the result is zero exactly when the compared parts agree. *)
Fixpoint strncasecmp (s1 s2 : string) (n : nat) : Z :=
  match n with
  | O => 0
  | S n' =>
      match s1, s2 with
      | EmptyString, EmptyString => 0
      | EmptyString, String c2 _ => 0 - tolower c2
      | String c1 _, EmptyString => tolower c1
      | String c1 r1, String c2 r2 =>
          if tolower c1 =? tolower c2 then strncasecmp r1 r2 n'
          else tolower c1 - tolower c2
      end
  end.

(** [strcasecmp s1 s2]: as [strncasecmp] without the length bound. *)
Fixpoint strcasecmp (s1 s2 : string) : Z :=
  match s1, s2 with
  | EmptyString, EmptyString => 0
  | EmptyString, String c2 _ => 0 - tolower c2
  | String c1 _, EmptyString => tolower c1
  | String c1 r1, String c2 r2 =>
      if tolower c1 =? tolower c2 then strcasecmp r1 r2
      else tolower c1 - tolower c2
  end.

(** *** binary64 *)

Definition prec : Z := 53.
Definition emax : Z := 1024.

(** The [double] nearest to the integer [z] (ties to even). *)
Definition double_of_Z (z : Z) : spec_float := binary_normalize prec emax z 0 false.

Definition double_mul (x y : spec_float) : spec_float := SFmul prec emax x y.

(** The [double] nearest to [m * 2^e], [m >= 0], with sign [neg]. *)
Definition double_of_binary (neg : bool) (m e : Z) : spec_float :=
  match m with
  | Zpos p => binary_round prec emax neg p e
  | _ => S754_zero neg
  end.

(** The [double] nearest to [m * 10^e], [m >= 0], with sign [neg]: for
    [e >= 0] the integer [m * 10^e] is rounded; for [e < 0] the quotient of
    the integers [m] and [10^(-e)] is rounded once. *)
Definition double_of_decimal (neg : bool) (m e : Z) : spec_float :=
  match m with
  | Zpos p =>
      if 0 <=? e then
        match m * 10 ^ e with
        | Zpos q => binary_round prec emax neg q 0
        | _ => S754_zero neg
        end
      else
        let '(q, e', l) := SFdiv_core_binary prec emax m 0 (10 ^ (- e)) 0 in
        binary_round_aux prec emax neg q e' l
  | _ => S754_zero neg
  end.

(** Conversion of a [double] to [size_t] (ISO C 6.3.1.4): the fractional part
    is discarded; the behaviour is undefined ([None]) when the integral part
    is not a [size_t] value, and for infinities and NaN.  A given build does
    return some value there (GCC on x86-64: 0 for 2^64, [SIZE_MAX] for -1.0);
    the embedding fixes none, and what is proved of [parse_size_string] and
    [hcs_init] with a result [Some _] is silent on such strings. *)
Definition size_t_of_double (v : spec_float) : option Z :=
  match v with
  | S754_zero _ => Some 0
  | S754_finite neg m e =>
      let t := Z.shiftl (Zpos m) e in
      if t =? 0 then Some 0
      else if neg then None
      else if t <=? SIZE_MAX then Some t
      else None
  | S754_infinity _ => None
  | S754_nan => None
  end.

(** *** [strtod] *)

(** Reads the longest run of digits of [s] (decimal, or hexadecimal with
    [hex]), accumulating onto [acc] in the given base; returns the value, the
    number of digits read and the rest of the string. *)
Fixpoint read_digits (hex : bool) (s : string) (acc : Z) (n : Z) : Z * Z * string :=
  match s with
  | EmptyString => (acc, n, s)
  | String c r =>
      match (if hex then xdigit_value c else digit_value c) with
      | Some d => read_digits hex r ((if hex then 16 else 10) * acc + d) (n + 1)
      | None => (acc, n, s)
      end
  end.

(** An optional sign: whether it is a minus, and the rest. *)
Definition read_sign (s : string) : bool * string :=
  match s with
  | String "+"%char r => (false, r)
  | String "-"%char r => (true, r)
  | _ => (false, s)
  end.

(** The optional exponent part: the marker ([e] or [p], either case), an
    optional sign and at least one decimal digit.  Without a digit nothing is
    consumed. *)
Definition read_exponent (marker : Z) (s : string) : Z * string :=
  match s with
  | String c r =>
      if tolower c =? marker then
        let '(neg, r1) := read_sign r in
        let '(x, n, r2) := read_digits false r1 0 0 in
        if n =? 0 then (0, s) else ((if neg then - x else x), r2)
      else (0, s)
  | EmptyString => (0, s)
  end.

(** Digits with an optional radix point, at least one digit in all: the
    value of the digits read as one integer, the number of digits after the
    point, and the rest. *)
Definition read_mantissa (hex : bool) (s : string) : option (Z * Z * string) :=
  let '(m1, n1, r1) := read_digits hex s 0 0 in
  let '(m2, n2, r2) :=
    match r1 with
    | String "."%char r => read_digits hex r m1 0
    | _ => (m1, 0, r1)
    end in
  if n1 + n2 =? 0 then None else Some (m2, n2, r2).

(** Decimal floating constant after the sign. *)
Definition read_decimal (neg : bool) (s : string) : option (spec_float * string) :=
  match read_mantissa false s with
  | Some (m, nfrac, r) =>
      let '(x, r') := read_exponent 101 r in
      Some (double_of_decimal neg m (x - nfrac), r')
  | None => None
  end.

(** Hexadecimal floating constant after the sign: [0x] or [0X], then the
    digits and the optional binary exponent. *)
Definition read_hexadecimal (neg : bool) (s : string) : option (spec_float * string) :=
  match s with
  | String "0"%char (String c r) =>
      if tolower c =? 120 then
        match read_mantissa true r with
        | Some (m, nfrac, r1) =>
            let '(x, r') := read_exponent 112 r1 in
            Some (double_of_binary neg m (x - 4 * nfrac), r')
        | None => None
        end
      else None
  | _ => None
  end.

(** [s] starts with [w] (given in lower case), ignoring case: the rest. *)
Fixpoint skip_word (w s : string) : option string :=
  match w with
  | EmptyString => Some s
  | String cw rw =>
      match s with
      | String c r => if tolower c =? code cw then skip_word rw r else None
      | EmptyString => None
      end
  end.

(** [INF] or [INFINITY]. *)
Definition read_infinity (neg : bool) (s : string) : option (spec_float * string) :=
  match skip_word "infinity"%string s with
  | Some r => Some (S754_infinity neg, r)
  | None =>
      match skip_word "inf"%string s with
      | Some r => Some (S754_infinity neg, r)
      | None => None
      end
  end.

(** The characters allowed between the parentheses of [NAN(...)]. *)
Definition is_nchar (c : ascii) : bool :=
  isdigit c || isupper c || islower c || (code c =? 95).

Fixpoint skip_nchars (s : string) : string :=
  match s with
  | String c r => if is_nchar c then skip_nchars r else s
  | EmptyString => s
  end.

(** [NAN] or [NAN(n-char-sequence)]. *)
Definition read_nan (s : string) : option (spec_float * string) :=
  match skip_word "nan"%string s with
  | Some r =>
      match r with
      | String "("%char r1 =>
          match skip_nchars r1 with
          | String ")"%char r2 => Some (S754_nan, r2)
          | _ => Some (S754_nan, r)
          end
      | _ => Some (S754_nan, r)
      end
  | None => None
  end.

Fixpoint skip_spaces (s : string) : string :=
  match s with
  | String c r => if isspace c then skip_spaces r else s
  | EmptyString => s
  end.

(** [strtod str &endptr] (ISO C 7.22.1.3): white space is skipped, then the
    longest subject sequence of the expected form is converted, correctly
    rounded.  [Some (value, rest)] gives the value and the string at
    [endptr]; [None] is the case without conversion, where the C function
    returns zero and stores [str] itself in [endptr]. *)
Definition strtod (str : string) : option (spec_float * string) :=
  let '(neg, s) := read_sign (skip_spaces str) in
  match read_hexadecimal neg s with
  | Some r => Some r
  | None =>
      match read_decimal neg s with
      | Some r => Some r
      | None =>
          match read_infinity neg s with
          | Some r => Some r
          | None => read_nan s
          end
      end
  end.

End LibC.

(* ------------------------------------------------------------------------ *)
(** ** Constants and configuration *)

Definition MAX_ALLOCATIONS : Z := 65536.
Definition DEFAULT_QUOTA_GB : Z := 4.

Definition cudaSuccess : Z := 0.
Definition cudaErrorMemoryAllocation : Z := 2.
Definition cudaErrorInvalidValue : Z := 1.

Definition ACL_SUCCESS : Z := 0.
Definition ACL_ERROR_RT_MEMORY_ALLOCATION : Z := 107000.
Definition ACL_ERROR_INVALID_PARAM : Z := 107001.

Definition hipSuccess : Z := 0.
Definition hipErrorOutOfMemory : Z := 2.
Definition hipErrorInvalidValue : Z := 1.

Inductive log_level_t := LOG_DEBUG | LOG_INFO | LOG_WARN | LOG_ERROR | LOG_NONE.

(* ------------------------------------------------------------------------ *)
(** ** Utility functions *)

(** The loop that advances [endptr] over space characters (code 32 only). *)
Fixpoint skip_blanks (s : string) : string :=
  match s with
  | String " "%char r => skip_blanks r
  | _ => s
  end.

Definition KILO : spec_float := LibC.double_of_Z 1000.
Definition KIBI : spec_float := LibC.double_of_Z 1024.

(** The unit suffix chain of [parse_size_string]: the factor applied to the
    value, if any. *)
Definition unit_factor (endptr : string) : option spec_float :=
  let suffix (u : string) (n : nat) := LibC.strncasecmp endptr u n =? 0 in
  if suffix "Gi"%string 2%nat || suffix "GiB"%string 3%nat then
    Some (LibC.double_mul (LibC.double_mul KIBI KIBI) KIBI)
  else if suffix "G"%string 1%nat || suffix "GB"%string 2%nat then
    Some (LibC.double_mul (LibC.double_mul KILO KILO) KILO)
  else if suffix "Mi"%string 2%nat || suffix "MiB"%string 3%nat then
    Some (LibC.double_mul KIBI KIBI)
  else if suffix "M"%string 1%nat || suffix "MB"%string 2%nat then
    Some (LibC.double_mul KILO KILO)
  else if suffix "Ki"%string 2%nat || suffix "KiB"%string 3%nat then
    Some KIBI
  else if suffix "K"%string 1%nat || suffix "KB"%string 2%nat then
    Some KILO
  else None.

(** [parse_size_string]: [None] is the undefined conversion of a [double]
    that is not a [size_t] value. *)
Definition parse_size_string (str : option string) : option Z :=
  match str with
  | None => Some 0
  | Some EmptyString => Some 0
  | Some s =>
      match LibC.strtod s with
      | None => Some 0
      | Some (value, endptr) =>
          let endptr := skip_blanks endptr in
          let value :=
            match unit_factor endptr with
            | Some f => LibC.double_mul value f
            | None => value
            end in
          LibC.size_t_of_double value
      end
  end.

(** [parse_log_level]. *)
Definition parse_log_level (str : option string) : log_level_t :=
  match str with
  | None => LOG_WARN
  | Some s =>
      if LibC.strcasecmp s "debug"%string =? 0 then LOG_DEBUG
      else if LibC.strcasecmp s "info"%string =? 0 then LOG_INFO
      else if LibC.strcasecmp s "warn"%string =? 0 then LOG_WARN
      else if LibC.strcasecmp s "error"%string =? 0 then LOG_ERROR
      else if LibC.strcasecmp s "none"%string =? 0 then LOG_NONE
      else LOG_WARN
  end.

(* ------------------------------------------------------------------------ *)
(** ** Data structures *)

Inductive aclrtMemMallocPolicy :=
  ACL_MEM_MALLOC_HUGE_FIRST | ACL_MEM_MALLOC_HUGE_ONLY | ACL_MEM_MALLOC_NORMAL_ONLY.

Inductive aclrtMemAttr :=
  ACL_DDR_MEM | ACL_HBM_MEM | ACL_DDR_MEM_HUGE | ACL_DDR_MEM_NORMAL
  | ACL_HBM_MEM_HUGE | ACL_HBM_MEM_NORMAL.

(** Memory allocation tracking entry. *)
Record allocation_entry_t := {
  ptr : Z;
  size : Z;
  in_use : bool
}.

(** Global quota context.  [allocations] holds the slots
    [0 .. allocation_count - 1] of the C array, the only ones the code reads;
    [allocation_count] is its length. *)
Record quota_context_t := {
  quota_limit : Z;
  quota_used : Z;
  allocations : list allocation_entry_t;
  peak_usage : Z;
  total_allocs : Z;
  total_frees : Z;
  failed_allocs : Z;
  log_level : log_level_t;
  initialized : bool
}.

Definition allocation_count (c : quota_context_t) : Z :=
  Z.of_nat (List.length (allocations c)).

(** The vendor functions the library looks up with [dlsym(RTLD_NEXT, _)]. *)
Inductive symbol :=
  | sym_cudaMalloc | sym_cudaFree | sym_cudaMemGetInfo
  | sym_cudaMallocManaged | sym_cudaMallocHost | sym_cudaFreeHost
  | sym_aclrtMalloc | sym_aclrtFree | sym_aclrtGetMemInfo
  | sym_hipMalloc | sym_hipFree | sym_hipMemGetInfo.

Definition symbol_eqb (a b : symbol) : bool :=
  match a, b with
  | sym_cudaMalloc, sym_cudaMalloc | sym_cudaFree, sym_cudaFree
  | sym_cudaMemGetInfo, sym_cudaMemGetInfo
  | sym_cudaMallocManaged, sym_cudaMallocManaged
  | sym_cudaMallocHost, sym_cudaMallocHost | sym_cudaFreeHost, sym_cudaFreeHost
  | sym_aclrtMalloc, sym_aclrtMalloc | sym_aclrtFree, sym_aclrtFree
  | sym_aclrtGetMemInfo, sym_aclrtGetMemInfo
  | sym_hipMalloc, sym_hipMalloc | sym_hipFree, sym_hipFree
  | sym_hipMemGetInfo, sym_hipMemGetInfo => true
  | _, _ => false
  end.

(** The global state of the library: [g_ctx], and for each vendor function
    whether its [real_...] pointer is non-NULL. *)
Record program := {
  g_ctx : quota_context_t;
  real : symbol -> bool
}.

(** The static initialisers. *)
Definition g_ctx_initial : quota_context_t := {|
  quota_limit := 0;
  quota_used := 0;
  allocations := [];
  peak_usage := 0;
  total_allocs := 0;
  total_frees := 0;
  failed_allocs := 0;
  log_level := LOG_WARN;
  initialized := false
|}.

Definition program_initial : program := {|
  g_ctx := g_ctx_initial;
  real := fun _ => false
|}.

(** What the process offers to one call: its environment variables, and
    whether [dlsym(RTLD_NEXT, name)] finds a definition. *)
Record environment := {
  getenv : string -> option string;
  dlsym : symbol -> bool
}.

(** Field updates. *)
Definition set_allocations (c : quota_context_t) (l : list allocation_entry_t) : quota_context_t :=
  {| quota_limit := quota_limit c; quota_used := quota_used c; allocations := l;
     peak_usage := peak_usage c; total_allocs := total_allocs c;
     total_frees := total_frees c; failed_allocs := failed_allocs c;
     log_level := log_level c; initialized := initialized c |}.

Definition set_quota_used (c : quota_context_t) (u : Z) : quota_context_t :=
  {| quota_limit := quota_limit c; quota_used := u; allocations := allocations c;
     peak_usage := peak_usage c; total_allocs := total_allocs c;
     total_frees := total_frees c; failed_allocs := failed_allocs c;
     log_level := log_level c; initialized := initialized c |}.

Definition set_peak_usage (c : quota_context_t) (p : Z) : quota_context_t :=
  {| quota_limit := quota_limit c; quota_used := quota_used c; allocations := allocations c;
     peak_usage := p; total_allocs := total_allocs c;
     total_frees := total_frees c; failed_allocs := failed_allocs c;
     log_level := log_level c; initialized := initialized c |}.

Definition set_total_allocs (c : quota_context_t) (n : Z) : quota_context_t :=
  {| quota_limit := quota_limit c; quota_used := quota_used c; allocations := allocations c;
     peak_usage := peak_usage c; total_allocs := n;
     total_frees := total_frees c; failed_allocs := failed_allocs c;
     log_level := log_level c; initialized := initialized c |}.

Definition set_total_frees (c : quota_context_t) (n : Z) : quota_context_t :=
  {| quota_limit := quota_limit c; quota_used := quota_used c; allocations := allocations c;
     peak_usage := peak_usage c; total_allocs := total_allocs c;
     total_frees := n; failed_allocs := failed_allocs c;
     log_level := log_level c; initialized := initialized c |}.

Definition set_failed_allocs (c : quota_context_t) (n : Z) : quota_context_t :=
  {| quota_limit := quota_limit c; quota_used := quota_used c; allocations := allocations c;
     peak_usage := peak_usage c; total_allocs := total_allocs c;
     total_frees := total_frees c; failed_allocs := n;
     log_level := log_level c; initialized := initialized c |}.

Definition set_g_ctx (st : program) (c : quota_context_t) : program :=
  {| g_ctx := c; real := real st |}.

Definition set_real (st : program) (s : symbol) (found : bool) : program :=
  {| g_ctx := g_ctx st;
     real := fun s' => if symbol_eqb s' s then found else real st s' |}.

(* ------------------------------------------------------------------------ *)
(** ** Allocation tracking *)

(** The scan of [find_allocation] from slot [i]: the index of the first slot
    in use that holds [p], or [-1]. *)
Fixpoint find_from (i : Z) (l : list allocation_entry_t) (p : Z) : Z :=
  match l with
  | [] => -1
  | e :: l' => if in_use e && (ptr e =? p) then i else find_from (i + 1) l' p
  end.

Definition find_allocation (c : quota_context_t) (p : Z) : Z :=
  find_from 0 (allocations c) p.

(** The first loop of [add_allocation] from slot [i]: the index of the first
    slot that is not in use, or [-1]. *)
Fixpoint unused_from (i : Z) (l : list allocation_entry_t) : Z :=
  match l with
  | [] => -1
  | e :: l' => if negb (in_use e) then i else unused_from (i + 1) l'
  end.

(** Assignment to slot [i]. *)
Fixpoint update_slot (l : list allocation_entry_t) (i : nat)
    (f : allocation_entry_t -> allocation_entry_t) : list allocation_entry_t :=
  match l, i with
  | [], _ => []
  | e :: l', O => f e :: l'
  | e :: l', S i' => e :: update_slot l' i' f
  end.

Definition empty_entry : allocation_entry_t := {| ptr := 0; size := 0; in_use := false |}.

(** [add_allocation]: whether the entry was stored, and the context. *)
Definition add_allocation (c : quota_context_t) (p sz : Z) : bool * quota_context_t :=
  let entry := {| ptr := p; size := sz; in_use := true |} in
  let i := unused_from 0 (allocations c) in
  if 0 <=? i then
    (true, set_allocations c (update_slot (allocations c) (Z.to_nat i) (fun _ => entry)))
  else if allocation_count c <? MAX_ALLOCATIONS then
    (true, set_allocations c (allocations c ++ [entry]))
  else (false, c).

(** [remove_allocation]: the size of the removed entry (zero when [p] is not
    tracked), and the context. *)
Definition remove_allocation (c : quota_context_t) (p : Z) : Z * quota_context_t :=
  let idx := find_allocation c p in
  if 0 <=? idx then
    let sz := size (nth (Z.to_nat idx) (allocations c) empty_entry) in
    (sz, set_allocations c
           (update_slot (allocations c) (Z.to_nat idx)
              (fun e => {| ptr := ptr e; size := size e; in_use := false |})))
  else (0, c).

(* ------------------------------------------------------------------------ *)
(** ** Initialization *)

(** [load_real_functions]: every pointer is assigned what [dlsym] returns. *)
Definition load_real_functions (env : environment) (st : program) : program :=
  {| g_ctx := g_ctx st; real := dlsym env |}.

(** [hcs_init]; [None] when the quota string makes [parse_size_string]
    undefined. *)
Definition hcs_init (env : environment) (st : program) : option program :=
  if initialized (g_ctx st) then Some st
  else
    let lvl := parse_log_level (getenv env "HCS_LOG_LEVEL"%string) in
    let quota_str := getenv env "HCS_VRAM_QUOTA"%string in
    let limit :=
      match quota_str with
      | Some (String _ _) => parse_size_string quota_str
      | _ => Some (wrap64 (DEFAULT_QUOTA_GB * 1024 * 1024 * 1024))
      end in
    match limit with
    | None => None
    | Some lim =>
        let c := g_ctx st in
        let st := load_real_functions env st in
        Some (set_g_ctx st
                {| quota_limit := lim; quota_used := quota_used c;
                   allocations := allocations c; peak_usage := peak_usage c;
                   total_allocs := total_allocs c; total_frees := total_frees c;
                   failed_allocs := failed_allocs c; log_level := lvl;
                   initialized := true |})
    end.

(** The first statement of every hook: [if (!g_ctx.initialized) hcs_init();] *)
Definition ensure_init (env : environment) (st : program) : option program :=
  if negb (initialized (g_ctx st)) then hcs_init env st else Some st.

(** The lazy load of a hook: a NULL pointer is assigned what [dlsym]
    returns. *)
Definition lazy_load (env : environment) (st : program) (s : symbol) : program :=
  if negb (real st s) then set_real st s (dlsym env s) else st.

(* ------------------------------------------------------------------------ *)
(** ** API interception

    The three vendors' hooks are the same code up to the vendor's return
    codes and the name of the real function; each protocol is written once
    over a [vendor_abi] and instantiated under the source's names. *)

Record vendor_abi := {
  v_success : Z;
  v_out_of_memory : Z;
  v_invalid : Z
}.

Definition cuda_abi : vendor_abi :=
  {| v_success := cudaSuccess;
     v_out_of_memory := cudaErrorMemoryAllocation;
     v_invalid := cudaErrorInvalidValue |}.

Definition acl_abi : vendor_abi :=
  {| v_success := ACL_SUCCESS;
     v_out_of_memory := ACL_ERROR_RT_MEMORY_ALLOCATION;
     v_invalid := ACL_ERROR_INVALID_PARAM |}.

Definition hip_abi : vendor_abi :=
  {| v_success := hipSuccess;
     v_out_of_memory := hipErrorOutOfMemory;
     v_invalid := hipErrorInvalidValue |}.

(** What a call of the real allocator does, were it made: the code it
    returns and the handle it stores through [devPtr], if it stores one. *)
Record alloc_reply := {
  alloc_result : Z;
  alloc_stored : option Z
}.

(** What a call of the real memory-info query does, were it made: the code
    it returns, and the contents of [*free] and [*total] when it returns. *)
Record query_reply := {
  query_result : Z;
  query_free : Z;
  query_total : Z
}.

(** What a hook does: the code it returns, the memory it leaves behind its
    output pointers, the global state, and the real vendor functions it
    called, in order. *)
Record outcome (A : Type) := {
  ret : Z;
  outputs : A;
  post : program;
  real_calls : list symbol
}.

Arguments ret {A} _.
Arguments outputs {A} _.
Arguments post {A} _.
Arguments real_calls {A} _.

(** The admission check [g_ctx.quota_used + size > g_ctx.quota_limit], in
    [size_t] arithmetic. *)
Definition over_quota (c : quota_context_t) (sz : Z) : bool :=
  quota_limit c <? wrap64 (quota_used c + sz).

(** The commit of an allocation of [sz] bytes at handle [h]. *)
Definition commit_allocation (c : quota_context_t) (h sz : Z) : quota_context_t :=
  let c := set_quota_used c (wrap64 (quota_used c + sz)) in
  let c := set_total_allocs c (wrap64 (total_allocs c + 1)) in
  let c := if peak_usage c <? quota_used c then set_peak_usage c (quota_used c) else c in
  snd (add_allocation c h sz).

(** The handle behind [devPtr] when the real allocator has returned: none
    for a NULL [devPtr], else what the allocator stored, or what was there. *)
Definition handle_after (devPtr : option Z) (reply : alloc_reply) : option Z :=
  match devPtr, alloc_stored reply with
  | Some _, Some h => Some h
  | _, _ => devPtr
  end.

(** The allocate hooks.  [devPtr] is [None] for a NULL pointer and [Some v]
    for a pointer to a handle that holds [v]; the output is the handle behind
    [devPtr] when the hook returns. *)
Definition intercept_alloc (abi : vendor_abi) (sym : symbol)
    (env : environment) (st : program)
    (devPtr : option Z) (sz : Z) (reply : alloc_reply) : option (outcome (option Z)) :=
  match ensure_init env st with
  | None => None
  | Some st =>
      let st := lazy_load env st sym in
      if negb (real st sym) then
        Some {| ret := v_invalid abi; outputs := devPtr; post := st; real_calls := [] |}
      else if over_quota (g_ctx st) sz then
        let c := g_ctx st in
        Some {| ret := v_out_of_memory abi; outputs := devPtr;
                post := set_g_ctx st (set_failed_allocs c (wrap64 (failed_allocs c + 1)));
                real_calls := [] |}
      else
        let result := alloc_result reply in
        let handle := handle_after devPtr reply in
        let st :=
          match handle with
          | Some h =>
              if (result =? v_success abi) && negb (h =? 0) then
                set_g_ctx st (commit_allocation (g_ctx st) h sz)
              else st
          | None => st
          end in
        Some {| ret := result; outputs := handle; post := st; real_calls := [sym] |}
  end.

(** The bookkeeping of a free of the non-NULL handle [p]. *)
Definition release_allocation (c : quota_context_t) (p : Z) : quota_context_t :=
  let '(sz, c) := remove_allocation c p in
  if 0 <? sz then
    let c := if sz <=? quota_used c then set_quota_used c (quota_used c - sz)
             else set_quota_used c 0 in
    set_total_frees c (wrap64 (total_frees c + 1))
  else c.

(** The free hooks; [reply] is the code the real free returns. *)
Definition intercept_free (abi : vendor_abi) (sym : symbol)
    (env : environment) (st : program)
    (devPtr : Z) (reply : Z) : option (outcome unit) :=
  match ensure_init env st with
  | None => None
  | Some st =>
      let st := lazy_load env st sym in
      if negb (real st sym) then
        Some {| ret := v_invalid abi; outputs := tt; post := st; real_calls := [] |}
      else if devPtr =? 0 then
        Some {| ret := reply; outputs := tt; post := st; real_calls := [sym] |}
      else
        Some {| ret := reply; outputs := tt;
                post := set_g_ctx st (release_allocation (g_ctx st) devPtr);
                real_calls := [sym] |}
  end.

(** The memory-info hooks.  [free] and [total] are the contents of the two
    output objects at the call (the pointers are dereferenced without a
    check, so they are taken to be valid); the output is their contents when
    the hook returns. *)
Definition intercept_query (abi : vendor_abi) (sym : symbol)
    (env : environment) (st : program)
    (free total : Z) (reply : query_reply) : option (outcome (Z * Z)) :=
  match ensure_init env st with
  | None => None
  | Some st =>
      let st := lazy_load env st sym in
      if negb (real st sym) then
        Some {| ret := v_invalid abi; outputs := (free, total); post := st; real_calls := [] |}
      else
        let result := query_result reply in
        if negb (result =? v_success abi) then
          Some {| ret := result; outputs := (query_free reply, query_total reply);
                  post := st; real_calls := [sym] |}
        else
          let c := g_ctx st in
          let total' := quota_limit c in
          let free' := if quota_used c <? quota_limit c
                       then quota_limit c - quota_used c else 0 in
          Some {| ret := v_success abi; outputs := (free', total');
                  post := st; real_calls := [sym] |}
  end.

(** *** CUDA *)

Definition cudaMalloc := intercept_alloc cuda_abi sym_cudaMalloc.
Definition cudaFree := intercept_free cuda_abi sym_cudaFree.
Definition cudaMemGetInfo := intercept_query cuda_abi sym_cudaMemGetInfo.

(** [flags] is only handed to the real function. *)
Definition cudaMallocManaged (env : environment) (st : program)
    (devPtr : option Z) (sz : Z) (flags : Z) (reply : alloc_reply) :=
  intercept_alloc cuda_abi sym_cudaMallocManaged env st devPtr sz reply.

(** *** ACL *)

(** [policy] is only handed to the real function. *)
Definition aclrtMalloc (env : environment) (st : program)
    (devPtr : option Z) (sz : Z) (policy : aclrtMemMallocPolicy) (reply : alloc_reply) :=
  intercept_alloc acl_abi sym_aclrtMalloc env st devPtr sz reply.

Definition aclrtFree := intercept_free acl_abi sym_aclrtFree.

(** [attr] is only handed to the real function. *)
Definition aclrtGetMemInfo (env : environment) (st : program)
    (attr : aclrtMemAttr) (free total : Z) (reply : query_reply) :=
  intercept_query acl_abi sym_aclrtGetMemInfo env st free total reply.

(** *** HIP *)

Definition hipMalloc := intercept_alloc hip_abi sym_hipMalloc.
Definition hipFree := intercept_free hip_abi sym_hipFree.
Definition hipMemGetInfo := intercept_query hip_abi sym_hipMemGetInfo.

(** *** Query functions *)

Definition hcs_get_quota_used (st : program) : Z := quota_used (g_ctx st).
Definition hcs_get_quota_limit (st : program) : Z := quota_limit (g_ctx st).
Definition hcs_get_peak_usage (st : program) : Z := peak_usage (g_ctx st).

(* ------------------------------------------------------------------------ *)
(** ** Calls and call sequences *)

Inductive alloc_fn :=
  | fn_cudaMalloc
  | fn_cudaMallocManaged (flags : Z)
  | fn_aclrtMalloc (policy : aclrtMemMallocPolicy)
  | fn_hipMalloc.

Inductive free_fn := fn_cudaFree | fn_aclrtFree | fn_hipFree.

Inductive query_fn :=
  | fn_cudaMemGetInfo
  | fn_aclrtGetMemInfo (attr : aclrtMemAttr)
  | fn_hipMemGetInfo.

Definition call_alloc (f : alloc_fn) (env : environment) (st : program)
    (devPtr : option Z) (sz : Z) (reply : alloc_reply) : option (outcome (option Z)) :=
  match f with
  | fn_cudaMalloc => cudaMalloc env st devPtr sz reply
  | fn_cudaMallocManaged flags => cudaMallocManaged env st devPtr sz flags reply
  | fn_aclrtMalloc policy => aclrtMalloc env st devPtr sz policy reply
  | fn_hipMalloc => hipMalloc env st devPtr sz reply
  end.

Definition call_free (f : free_fn) (env : environment) (st : program)
    (devPtr : Z) (reply : Z) : option (outcome unit) :=
  match f with
  | fn_cudaFree => cudaFree env st devPtr reply
  | fn_aclrtFree => aclrtFree env st devPtr reply
  | fn_hipFree => hipFree env st devPtr reply
  end.

Definition call_query (f : query_fn) (env : environment) (st : program)
    (free total : Z) (reply : query_reply) : option (outcome (Z * Z)) :=
  match f with
  | fn_cudaMemGetInfo => cudaMemGetInfo env st free total reply
  | fn_aclrtGetMemInfo attr => aclrtGetMemInfo env st attr free total reply
  | fn_hipMemGetInfo => hipMemGetInfo env st free total reply
  end.

(** The vendor codes and the real function of each hook. *)
Definition alloc_abi (f : alloc_fn) : vendor_abi :=
  match f with
  | fn_cudaMalloc | fn_cudaMallocManaged _ => cuda_abi
  | fn_aclrtMalloc _ => acl_abi
  | fn_hipMalloc => hip_abi
  end.

Definition alloc_symbol (f : alloc_fn) : symbol :=
  match f with
  | fn_cudaMalloc => sym_cudaMalloc
  | fn_cudaMallocManaged _ => sym_cudaMallocManaged
  | fn_aclrtMalloc _ => sym_aclrtMalloc
  | fn_hipMalloc => sym_hipMalloc
  end.

Definition free_abi (f : free_fn) : vendor_abi :=
  match f with
  | fn_cudaFree => cuda_abi
  | fn_aclrtFree => acl_abi
  | fn_hipFree => hip_abi
  end.

Definition free_symbol (f : free_fn) : symbol :=
  match f with
  | fn_cudaFree => sym_cudaFree
  | fn_aclrtFree => sym_aclrtFree
  | fn_hipFree => sym_hipFree
  end.

Definition query_abi (f : query_fn) : vendor_abi :=
  match f with
  | fn_cudaMemGetInfo => cuda_abi
  | fn_aclrtGetMemInfo _ => acl_abi
  | fn_hipMemGetInfo => hip_abi
  end.

Definition query_symbol (f : query_fn) : symbol :=
  match f with
  | fn_cudaMemGetInfo => sym_cudaMemGetInfo
  | fn_aclrtGetMemInfo _ => sym_aclrtGetMemInfo
  | fn_hipMemGetInfo => sym_hipMemGetInfo
  end.

(** One call of the application into the library, with what the real vendor
    function answers if the hook reaches it. *)
Inductive api_call :=
  | Alloc (f : alloc_fn) (devPtr : option Z) (sz : Z) (reply : alloc_reply)
  | Free (f : free_fn) (devPtr : Z) (reply : Z)
  | Query (f : query_fn) (free total : Z) (reply : query_reply).

(** The code returned, the state left and the real functions called. *)
Definition step (env : environment) (st : program) (c : api_call)
    : option (Z * program * list symbol) :=
  match c with
  | Alloc f devPtr sz reply =>
      option_map (fun o => (ret o, post o, real_calls o)) (call_alloc f env st devPtr sz reply)
  | Free f devPtr reply =>
      option_map (fun o => (ret o, post o, real_calls o)) (call_free f env st devPtr reply)
  | Query f free total reply =>
      option_map (fun o => (ret o, post o, real_calls o)) (call_query f env st free total reply)
  end.

(** The state after a sequence of calls made by one thread. *)
Fixpoint run (env : environment) (st : program) (cs : list api_call) : option program :=
  match cs with
  | [] => Some st
  | c :: cs' =>
      match step env st c with
      | Some (_, st', _) => run env st' cs'
      | None => None
      end
  end.

(** The sum of the sizes of the entries in use. *)
Fixpoint live_bytes (l : list allocation_entry_t) : Z :=
  match l with
  | [] => 0
  | e :: l' => (if in_use e then size e else 0) + live_bytes l'
  end.

(** [p] is the handle of an entry in use. *)
Definition tracked (l : list allocation_entry_t) (p : Z) : Prop :=
  exists e, In e l /\ in_use e = true /\ ptr e = p.

(** No entry has a negative size. *)
Definition sizes_nonneg (l : list allocation_entry_t) : Prop :=
  Forall (fun e => 0 <= size e) l.

(** Conservation: the bytes in use are the sizes of the entries in use. *)
Definition conserved (c : quota_context_t) : Prop :=
  quota_used c = live_bytes (allocations c) /\ sizes_nonneg (allocations c).

(** [add_allocation] would store an entry: a slot is unused, or the table
    can grow. *)
Definition has_room (c : quota_context_t) : bool :=
  (0 <=? unused_from 0 (allocations c)) || (allocation_count c <? MAX_ALLOCATIONS).

(** The allocate hook reaches its commit step; [st] is the state at the
    admission check. *)
Definition alloc_commits (abi : vendor_abi) (st : program) (sym : symbol)
    (devPtr : option Z) (sz : Z) (reply : alloc_reply) : bool :=
  real st sym && negb (over_quota (g_ctx st) sz)
  && (alloc_result reply =? v_success abi)
  && match handle_after devPtr reply with
     | Some h => negb (h =? 0)
     | None => false
     end.

(** A committing allocation of the call [c] fits: its size is not negative,
    the new total is a [size_t] value, and the table can store the entry. *)

Definition call_fits (env : environment) (st : program) (c : api_call) : bool :=
  match c with
  | Alloc f devPtr sz reply =>
      match ensure_init env st with
      | Some st1 =>
          let st1 := lazy_load env st1 (alloc_symbol f) in
          implb (alloc_commits (alloc_abi f) st1 (alloc_symbol f) devPtr sz reply)
                ((0 <=? sz) && (quota_used (g_ctx st1) + sz <=? SIZE_MAX)
                 && has_room (g_ctx st1))
      | None => true
      end
  | _ => true
  end.

(** Every committing allocation of the sequence fits. *)
Fixpoint tracking_holds (env : environment) (st : program) (cs : list api_call) : bool :=
  match cs with
  | [] => true
  | c :: cs' =>
      call_fits env st c
      && match step env st c with
         | Some (_, st', _) => tracking_holds env st' cs'
         | None => true
         end
  end.

(** The codes the calls of a sequence return. *)
Fixpoint codes (env : environment) (st : program) (cs : list api_call) : list Z :=
  match cs with
  | [] => []
  | c :: cs' =>
      match step env st c with
      | Some (r, st', _) => r :: codes env st' cs'
      | None => []
      end
  end.

(** The accounting part of the context: what the claims call the quota
    state next to the limit. *)
Definition accounting (c : quota_context_t) :=
  (quota_used c, peak_usage c, total_allocs c, total_frees c, failed_allocs c,
   allocations c).

(** The binding of [s] is resolved at the call: the pointer is already set,
    or the lazy load finds the function. *)
Definition resolves (env : environment) (st : program) (s : symbol) : bool :=
  real st s || dlsym env s.

(** The symbol and the vendor codes of a call. *)
Definition call_symbol (c : api_call) : symbol :=
  match c with
  | Alloc f _ _ _ => alloc_symbol f
  | Free f _ _ => free_symbol f
  | Query f _ _ _ => query_symbol f
  end.

Definition call_abi (c : api_call) : vendor_abi :=
  match c with
  | Alloc f _ _ _ => alloc_abi f
  | Free f _ _ => free_abi f
  | Query f _ _ _ => query_abi f
  end.

(** A process where every vendor function is found and no variable is set,
    and one where [HCS_VRAM_QUOTA] is [q]. *)
Definition env_default : environment :=
  {| getenv := fun _ => None; dlsym := fun _ => true |}.

Definition env_quota (q : string) : environment :=
  {| getenv := fun n => if String.eqb n "HCS_VRAM_QUOTA" then Some q else None;
     dlsym := fun _ => true |}.

(** A process where no vendor runtime is loaded. *)
Definition env_no_vendor : environment :=
  {| getenv := fun _ => None; dlsym := fun _ => false |}.

(** An initialized state with a quota of 1000 bytes, 300 of them held by the
    one tracked allocation, and every binding resolved. *)
Definition program_tracking : program :=
  {| g_ctx :=
       {| quota_limit := 1000; quota_used := 300;
          allocations := [ {| ptr := 4096; size := 300; in_use := true |} ];
          peak_usage := 300; total_allocs := 1; total_frees := 0;
          failed_allocs := 0; log_level := LOG_WARN; initialized := true |};
     real := fun _ => true |}.

(** [n] one-byte allocations through [cudaMalloc], the real allocator
    handing out the handles [first + 1], [first + 2], ... *)
Fixpoint one_byte_allocs (n : nat) (first : Z) : list api_call :=
  match n with
  | O => []
  | S n' =>
      Alloc fn_cudaMalloc (Some 0) 1
            {| alloc_result := cudaSuccess; alloc_stored := Some (first + 1) |}
      :: one_byte_allocs n' (first + 1)
  end.

(** The state after [n] such allocations under the default quota: [n]
    bytes used by [n] entries, all in use, with handles in [1 .. top]. *)
Definition filled (st : program) (n top : Z) : Prop :=
  initialized (g_ctx st) = true /\
  quota_limit (g_ctx st) = 4294967296 /\
  quota_used (g_ctx st) = n /\
  allocation_count (g_ctx st) = n /\
  Forall (fun e => in_use e = true /\ 0 < ptr e <= top) (allocations (g_ctx st)) /\
  live_bytes (allocations (g_ctx st)) = n.

(** The allocation made when the table is full, and the free of its
    handle. *)
Definition alloc_beyond_table : api_call :=
  Alloc fn_cudaMalloc (Some 0) 1
        {| alloc_result := cudaSuccess; alloc_stored := Some (MAX_ALLOCATIONS + 1) |}.

Definition free_beyond_table : api_call :=
  Free fn_cudaFree (MAX_ALLOCATIONS + 1) cudaSuccess.

(** The two scenarios of the test program, run with [HCS_VRAM_QUOTA=1Gi]:
    500 MiB, then 600 MiB more, then the free of the first and 600 MiB again;
    and ten allocations of 50 MiB followed by one of 600 MiB. *)
Definition MiB : Z := 1024 * 1024.

Definition cuda_alloc (sz h : Z) : api_call :=
  Alloc fn_cudaMalloc (Some 0) sz
        {| alloc_result := cudaSuccess; alloc_stored := Some h |}.

Definition scenario_quota_enforcement : list api_call :=
  [ cuda_alloc (500 * MiB) 4096;
    cuda_alloc (600 * MiB) 8192;
    Free fn_cudaFree 4096 cudaSuccess;
    cuda_alloc (600 * MiB) 8192 ].

Definition scenario_multiple_allocations : list api_call :=
  List.map (fun k => cuda_alloc (50 * MiB) (4096 * k)) [1; 2; 3; 4; 5; 6; 7; 8; 9; 10]
  ++ [ cuda_alloc (600 * MiB) 65536 ].

(** The bytes in use after each call of a sequence. *)
Fixpoint usage (env : environment) (st : program) (cs : list api_call) : list Z :=
  match cs with
  | [] => []
  | c :: cs' =>
      match step env st c with
      | Some (_, st', _) => quota_used (g_ctx st') :: usage env st' cs'
      | None => []
      end
  end.

(** What one call does to the context, [st1] being the state once the hook
    has ensured the initialization: nothing, the count of a denial, the
    commit of an allocation, or the release of a handle. *)
Inductive transition (env : environment) (st1 : program)
    : api_call -> quota_context_t -> Prop :=
  | transition_none (c : api_call) :
      transition env st1 c (g_ctx st1)
  | transition_denied f devPtr sz reply :
      over_quota (g_ctx st1) sz = true ->
      transition env st1 (Alloc f devPtr sz reply)
        (set_failed_allocs (g_ctx st1) (wrap64 (failed_allocs (g_ctx st1) + 1)))
  | transition_commit f devPtr sz reply h :
      alloc_commits (alloc_abi f) (lazy_load env st1 (alloc_symbol f))
        (alloc_symbol f) devPtr sz reply = true ->
      handle_after devPtr reply = Some h ->
      transition env st1 (Alloc f devPtr sz reply)
        (commit_allocation (g_ctx st1) h sz)
  | transition_release f devPtr reply :
      transition env st1 (Free f devPtr reply)
        (release_allocation (g_ctx st1) devPtr).

(** The first character of [s] is a decimal digit. *)
Definition leading_digit (s : string) : bool :=
  match s with
  | String c _ => LibC.isdigit c
  | EmptyString => false
  end.

(** A decimal constant starts [r]: a decimal digit, or the radix point
    followed by a decimal digit. *)
Definition decimal_starts (r : string) : bool :=
  match r with
  | String c r' =>
      LibC.isdigit c
      || ((LibC.code c =? 46)
          && match r' with
             | String c2 _ => LibC.isdigit c2
             | EmptyString => false
             end)
  | EmptyString => false
  end.

(** The word [w] (in lower case) starts [r], in any case. *)
Definition word_starts (w r : string) : bool :=
  match LibC.skip_word w r with
  | Some _ => true
  | None => false
  end.

(** A number starts [r]: a decimal constant (which a hexadecimal one starts
    with, by its [0]), [inf] or [nan]. *)
Definition number_starts (r : string) : bool :=
  decimal_starts r || word_starts "inf" r || word_starts "nan" r.

(** What is left of [s] after the leading white space and an optional
    sign. *)
Definition after_sign (s : string) : string :=
  snd (LibC.read_sign (LibC.skip_spaces s)).

(** The states of a process whose limit is zero: nothing is in use. *)
Definition starved (st : program) : Prop :=
  initialized (g_ctx st) = true /\
  quota_limit (g_ctx st) = 0 /\
  quota_used (g_ctx st) = 0.

(** The multiplier that a unit suffix stands for, read off its first two
    characters without regard to case: [g], [m] or [k], binary when an [i]
    follows and decimal otherwise. *)
Definition suffix_multiplier (endptr : string) : option Z :=
  match endptr with
  | String c r =>
      let binary :=
        match r with
        | String c2 _ => LibC.tolower c2 =? 105
        | EmptyString => false
        end in
      if LibC.tolower c =? 103 then Some (if binary then 1073741824 else 1000000000)
      else if LibC.tolower c =? 109 then Some (if binary then 1048576 else 1000000)
      else if LibC.tolower c =? 107 then Some (if binary then 1024 else 1000)
      else None
  | EmptyString => None
  end.

(** The characters of a string in lower case, and the strings that hold no
    NUL character (every C string). *)
Fixpoint lower (s : string) : list Z :=
  match s with
  | EmptyString => []
  | String c r => LibC.tolower c :: lower r
  end.

Fixpoint no_nul (s : string) : Prop :=
  match s with
  | EmptyString => True
  | String c r => LibC.code c <> 0 /\ no_nul r
  end.

(** The decimal numeral of [n >= 0]: a plain byte count as it is written in
    the environment. *)
Definition numeral (n : Z) : string :=
  DecimalString.NilEmpty.string_of_uint (N.to_uint (Z.to_N n)).

(** The value of the digits [d] read after the value [acc]. *)
Fixpoint uint_value (d : Decimal.uint) (acc : Z) : Z :=
  match d with
  | Decimal.Nil => acc
  | Decimal.D0 d => uint_value d (10 * acc + 0)
  | Decimal.D1 d => uint_value d (10 * acc + 1)
  | Decimal.D2 d => uint_value d (10 * acc + 2)
  | Decimal.D3 d => uint_value d (10 * acc + 3)
  | Decimal.D4 d => uint_value d (10 * acc + 4)
  | Decimal.D5 d => uint_value d (10 * acc + 5)
  | Decimal.D6 d => uint_value d (10 * acc + 6)
  | Decimal.D7 d => uint_value d (10 * acc + 7)
  | Decimal.D8 d => uint_value d (10 * acc + 8)
  | Decimal.D9 d => uint_value d (10 * acc + 9)
  end.

(** A committing allocation of the call [c] does not wrap: its size is not
    negative and the new total is a [size_t] value. *)
Definition call_in_range (env : environment) (st : program) (c : api_call) : bool :=
  match c with
  | Alloc f devPtr sz reply =>
      match ensure_init env st with
      | Some st1 =>
          let st1 := lazy_load env st1 (alloc_symbol f) in
          implb (alloc_commits (alloc_abi f) st1 (alloc_symbol f) devPtr sz reply)
                ((0 <=? sz) && (quota_used (g_ctx st1) + sz <=? SIZE_MAX))
      | None => true
      end
  | _ => true
  end.

(** No committing allocation of the sequence wraps. *)
Fixpoint commits_in_range (env : environment) (st : program) (cs : list api_call) : bool :=
  match cs with
  | [] => true
  | c :: cs' =>
      call_in_range env st c
      && match step env st c with
         | Some (_, st', _) => commits_in_range env st' cs'
         | None => true
         end
  end.

(** The sizes in use are covered by the counter. *)
Definition covered (c : quota_context_t) : Prop :=
  sizes_nonneg (allocations c) /\ live_bytes (allocations c) <= quota_used c.

(** The number of entries in use that hold the handle [p]. *)
Fixpoint live_entries (l : list allocation_entry_t) (p : Z) : Z :=
  match l with
  | [] => 0
  | e :: l' => (if in_use e && (ptr e =? p) then 1 else 0) + live_entries l' p
  end.

(* ======================================================================== *)
(** * Properties *)

(** ** The scenarios of the test program *)

Example quota_enforcement_codes :
  codes (env_quota "1Gi") program_initial scenario_quota_enforcement
  = [cudaSuccess; cudaErrorMemoryAllocation; cudaSuccess; cudaSuccess].
Proof. vm_compute. reflexivity. Qed.

Example quota_enforcement_usage :
  usage (env_quota "1Gi") program_initial scenario_quota_enforcement
  = [500 * MiB; 500 * MiB; 0; 600 * MiB].
Proof. vm_compute. reflexivity. Qed.

Example multiple_allocations_codes :
  codes (env_quota "1Gi") program_initial scenario_multiple_allocations
  = List.repeat cudaSuccess 10 ++ [cudaErrorMemoryAllocation].
Proof. vm_compute. reflexivity. Qed.

(** ** Arithmetic *)

Lemma wrap64_small (z : Z) : 0 <= z <= SIZE_MAX -> wrap64 z = z.
Proof.
  unfold wrap64, SIZE_MAX. intros H. apply Z.mod_small. lia.
Qed.

Lemma wrap64_range (z : Z) : 0 <= wrap64 z <= SIZE_MAX.
Proof.
  unfold wrap64, SIZE_MAX.
  pose proof (Z.mod_pos_bound z 18446744073709551616 ltac:(lia)). lia.
Qed.

(** ** The allocation table *)

Lemma live_bytes_app (l1 l2 : list allocation_entry_t) :
  live_bytes (l1 ++ l2) = live_bytes l1 + live_bytes l2.
Proof.
  induction l1 as [|e l1 IH]; simpl; [reflexivity | rewrite IH; lia].
Qed.

Lemma update_slot_middle (l1 l2 : list allocation_entry_t) e f :
  update_slot (l1 ++ e :: l2) (List.length l1) f = l1 ++ f e :: l2.
Proof.
  induction l1 as [|x l1 IH]; simpl; [reflexivity | now rewrite IH].
Qed.

Lemma nth_middle_entry (l1 l2 : list allocation_entry_t) e d :
  nth (List.length l1) (l1 ++ e :: l2) d = e.
Proof.
  induction l1 as [|x l1 IH]; simpl; auto.
Qed.

(** The first loop of [add_allocation] either finds no unused slot, every
    slot being in use, or stops at the first unused one. *)
Lemma unused_from_spec (l : list allocation_entry_t) : forall i,
  (unused_from i l = -1 /\ Forall (fun e => in_use e = true) l) \/
  (exists l1 e l2, l = l1 ++ e :: l2 /\ Forall (fun x => in_use x = true) l1
                   /\ in_use e = false
                   /\ unused_from i l = i + Z.of_nat (List.length l1)) \/
  i < 0.
Proof.
  induction l as [|e l IH]; intros i.
  - left. split; [reflexivity | constructor].
  - destruct (Z_lt_ge_dec i 0) as [Hi|Hi]; [now right; right|].
    simpl. destruct (in_use e) eqn:He; simpl.
    + destruct (IH (i + 1)) as [[H1 H2]|[(l1 & x & l2 & -> & HF & Hx & Hu)|Hneg]].
      * left. split; [assumption | constructor; assumption].
      * right. left. exists (e :: l1), x, l2. repeat split; auto.
        rewrite Hu. simpl List.length. lia.
      * lia.
    + right. left. exists [], e, l. repeat split; auto. simpl. lia.
Qed.

(** The scan of [find_allocation] either finds no entry in use for [p], or
    stops at the first one. *)
Lemma find_from_spec (p : Z) (l : list allocation_entry_t) : forall i,
  (find_from i l p = -1 /\ ~ tracked l p) \/
  (exists l1 e l2, l = l1 ++ e :: l2 /\ ~ tracked l1 p
                   /\ in_use e = true /\ ptr e = p
                   /\ find_from i l p = i + Z.of_nat (List.length l1)) \/
  i < 0.
Proof.
  induction l as [|e l IH]; intros i.
  - left. split; [reflexivity|]. intros (x & [] & _).
  - destruct (Z_lt_ge_dec i 0) as [Hi|Hi]; [now right; right|].
    simpl. destruct (in_use e && (ptr e =? p)) eqn:He.
    + apply andb_true_iff in He as [Hu Hp]. apply Z.eqb_eq in Hp.
      right. left. exists [], e, l. repeat split; auto.
      * intros (x & [] & _).
      * simpl. lia.
    + assert (Hne : ~ (in_use e = true /\ ptr e = p)).
      { intros [Hu Hp]. rewrite Hu in He. simpl in He.
        apply Z.eqb_neq in He. contradiction. }
      destruct (IH (i + 1)) as [[H1 H2]|[(l1 & x & l2 & -> & HF & Hx & Hp & Hu)|Hneg]].
      * left. split; [assumption|].
        intros (x & [<-|Hin] & Hu & Hp); [apply Hne; auto|].
        apply H2. exists x. auto.
      * right. left. exists (e :: l1), x, l2. repeat split; auto.
        -- intros (y & [<-|Hin] & Hu' & Hp'); [apply Hne; auto|].
           apply HF. exists y. auto.
        -- rewrite Hu. simpl List.length. lia.
      * lia.
Qed.

Lemma find_untracked (l : list allocation_entry_t) (p : Z) :
  ~ tracked l p -> find_from 0 l p = -1.
Proof.
  intros Hn.
  destruct (find_from_spec p l 0) as [[H _]|[(l1 & e & l2 & -> & _ & Hu & Hp & _)|H]];
    [assumption | | lia].
  exfalso. apply Hn. exists e. split; [apply in_elt | auto].
Qed.

Lemma unused_all_in_use (l : list allocation_entry_t) :
  Forall (fun e => in_use e = true) l -> unused_from 0 l = -1.
Proof.
  intros HF.
  destruct (unused_from_spec l 0) as [[H _]|[(l1 & e & l2 & -> & _ & Hu & _)|H]];
    [assumption | | lia].
  rewrite Forall_forall in HF. specialize (HF e (in_elt _ _ _)). congruence.
Qed.

(** [add_allocation] touches the table only. *)
Lemma add_allocation_frame (c : quota_context_t) (p sz : Z) :
  let c' := snd (add_allocation c p sz) in
  quota_limit c' = quota_limit c /\ quota_used c' = quota_used c /\
  peak_usage c' = peak_usage c /\ total_allocs c' = total_allocs c /\
  total_frees c' = total_frees c /\ failed_allocs c' = failed_allocs c /\
  log_level c' = log_level c /\ initialized c' = initialized c.
Proof.
  unfold add_allocation.
  destruct (0 <=? unused_from 0 (allocations c));
    [|destruct (allocation_count c <? MAX_ALLOCATIONS)]; simpl; repeat split; reflexivity.
Qed.

(** When there is room the new entry is stored: the live bytes grow by its
    size. *)
Lemma add_allocation_stored (c : quota_context_t) (p sz : Z) :
  has_room c = true ->
  live_bytes (allocations (snd (add_allocation c p sz)))
  = live_bytes (allocations c) + sz.
Proof.
  unfold has_room, add_allocation. intros Hroom.
  destruct (unused_from_spec (allocations c) 0)
    as [[Hu _]|[(l1 & e & l2 & Hl & _ & He & Hu)|Hneg]]; [| |lia].
  - rewrite Hu in *. simpl in *. rewrite Hroom. simpl.
    rewrite live_bytes_app. simpl. lia.
  - rewrite Hu. replace (0 <=? 0 + Z.of_nat (List.length l1)) with true
      by (symmetry; apply Z.leb_le; lia).
    simpl. rewrite ?Z.add_0_l, Nat2Z.id, Hl, update_slot_middle.
    rewrite !live_bytes_app. simpl. rewrite He. lia.
Qed.

(** Without room the table is left as it is. *)
Lemma add_allocation_full (c : quota_context_t) (p sz : Z) :
  has_room c = false -> snd (add_allocation c p sz) = c.
Proof.
  unfold has_room, add_allocation. intros H.
  apply orb_false_iff in H as [H1 H2]. rewrite H1, H2. reflexivity.
Qed.

Lemma add_allocation_sizes (c : quota_context_t) (p sz : Z) :
  0 <= sz -> sizes_nonneg (allocations c) ->
  sizes_nonneg (allocations (snd (add_allocation c p sz))).
Proof.
  unfold sizes_nonneg, add_allocation. intros Hsz HF.
  destruct (unused_from_spec (allocations c) 0)
    as [[Hu _]|[(l1 & e & l2 & Hl & _ & He & Hu)|Hneg]]; [| |lia].
  - rewrite Hu. simpl.
    destruct (allocation_count c <? MAX_ALLOCATIONS); simpl; [|assumption].
    apply Forall_app. split; [assumption|]. constructor; [assumption|constructor].
  - rewrite Hu. replace (0 <=? 0 + Z.of_nat (List.length l1)) with true
      by (symmetry; apply Z.leb_le; lia).
    simpl. rewrite ?Z.add_0_l, Nat2Z.id, Hl, update_slot_middle.
    rewrite Hl in HF. apply Forall_app in HF as [HF1 HF2].
    apply Forall_app. split; [assumption|].
    inversion HF2; subst. constructor; assumption.
Qed.

(** After a stored insertion of an untracked handle, the scan for that handle
    stops at the new entry: removing it yields its size and gives the live
    bytes back. *)
Lemma remove_after_add (c : quota_context_t) (p sz : Z) :
  has_room c = true -> ~ tracked (allocations c) p ->
  let c1 := snd (add_allocation c p sz) in
  fst (remove_allocation c1 p) = sz /\
  live_bytes (allocations (snd (remove_allocation c1 p))) = live_bytes (allocations c).
Proof.
  intros Hroom Hfresh. cbv zeta.
  assert (Hshape : exists l1 l2 l2',
             allocations (snd (add_allocation c p sz))
             = l1 ++ {| ptr := p; size := sz; in_use := true |} :: l2
             /\ allocations c = l1 ++ l2'
             /\ live_bytes l2' = live_bytes l2 /\ ~ tracked l1 p).
  { unfold has_room in Hroom. unfold add_allocation.
    destruct (unused_from_spec (allocations c) 0)
      as [[Hu _]|[(l1 & e & l2 & Hl & _ & He & Hu)|Hneg]]; [| |lia].
    - rewrite Hu in *. simpl in *. rewrite Hroom. simpl.
      exists (allocations c), [], []. rewrite app_nil_r. auto.
    - rewrite Hu. replace (0 <=? 0 + Z.of_nat (List.length l1)) with true
        by (symmetry; apply Z.leb_le; lia).
      simpl. rewrite ?Z.add_0_l, Nat2Z.id, Hl, update_slot_middle.
      exists l1, l2, (e :: l2). repeat split; auto.
      + simpl. rewrite He. lia.
      + intros (x & Hin & Hx). apply Hfresh. exists x. split; [|assumption].
        rewrite Hl. apply in_or_app. now left. }
  destruct Hshape as (l1 & l2 & l2' & Hadd & Hc & Hlive & Hl1).
  unfold remove_allocation, find_allocation. rewrite Hadd.
  destruct (find_from_spec p (l1 ++ {| ptr := p; size := sz; in_use := true |} :: l2) 0)
    as [[_ Hn]|[(k1 & e & k2 & Hk & Hk1 & He & Hp & Hf)|Hneg]]; [| |lia].
  - exfalso. apply Hn. eexists. split; [apply in_elt|]. auto.
  - assert (Hlen : List.length k1 = List.length l1).
    { destruct (Nat.lt_trichotomy (List.length k1) (List.length l1)) as [Hlt|[Heq|Hgt]];
        [exfalso|assumption|exfalso].
      - apply Hl1. exists e. split; [|auto].
        assert (Hnth : nth_error (l1 ++ {| ptr := p; size := sz; in_use := true |} :: l2)
                         (List.length k1) = Some e).
        { rewrite Hk. rewrite nth_error_app2 by lia.
          now rewrite Nat.sub_diag. }
        rewrite nth_error_app1 in Hnth by assumption.
        eapply nth_error_In; eassumption.
      - apply Hk1. exists {| ptr := p; size := sz; in_use := true |}. split; [|auto].
        assert (Hnth : nth_error (k1 ++ e :: k2) (List.length l1)
                       = Some {| ptr := p; size := sz; in_use := true |}).
        { rewrite <- Hk. rewrite nth_error_app2 by lia.
          now rewrite Nat.sub_diag. }
        rewrite nth_error_app1 in Hnth by assumption.
        eapply nth_error_In; eassumption. }
    rewrite Hf. replace (0 <=? 0 + Z.of_nat (List.length k1)) with true
      by (symmetry; apply Z.leb_le; lia).
    rewrite ?Z.add_0_l, Nat2Z.id, Hlen, nth_middle_entry, update_slot_middle.
    simpl. split; [reflexivity|].
    rewrite Hc, !live_bytes_app. simpl. lia.
Qed.

(** [remove_allocation] touches the table only; the live bytes drop by the
    size it returns, which is the size of an entry that was in use. *)
Lemma remove_allocation_spec (c : quota_context_t) (p : Z) :
  let '(sz, c') := remove_allocation c p in
  quota_limit c' = quota_limit c /\ quota_used c' = quota_used c /\
  peak_usage c' = peak_usage c /\ total_allocs c' = total_allocs c /\
  total_frees c' = total_frees c /\ failed_allocs c' = failed_allocs c /\
  log_level c' = log_level c /\ initialized c' = initialized c /\
  live_bytes (allocations c') = live_bytes (allocations c) - sz /\
  (sizes_nonneg (allocations c) ->
     sizes_nonneg (allocations c') /\ 0 <= sz <= live_bytes (allocations c)).
Proof.
  unfold remove_allocation, find_allocation.
  destruct (find_from_spec p (allocations c) 0)
    as [[Hf _]|[(l1 & e & l2 & Hl & _ & He & Hp & Hf)|Hneg]]; [| |lia].
  - rewrite Hf. simpl. repeat split; try reflexivity; try lia; try assumption.
    clear Hf. induction H as [|x l Hx HF IH]; simpl; [lia|].
    destruct (in_use x); lia.
  - rewrite Hf. replace (0 <=? 0 + Z.of_nat (List.length l1)) with true
      by (symmetry; apply Z.leb_le; lia).
    rewrite ?Z.add_0_l, Nat2Z.id, Hl, nth_middle_entry, update_slot_middle.
    simpl. repeat split; try reflexivity.
    + rewrite !live_bytes_app. simpl. rewrite He. lia.
    + unfold sizes_nonneg in *. apply Forall_app in H as [H1 H2].
      apply Forall_app. split; [assumption|].
      inversion H2; subst. constructor; assumption.
    + unfold sizes_nonneg in H. apply Forall_app in H as [_ H2].
      inversion H2; assumption.
    + assert (Hpos : forall l, sizes_nonneg l -> 0 <= live_bytes l).
      { intros l HF. induction HF as [|x l' Hx HF IH]; simpl; [lia|].
        destruct (in_use x); lia. }
      unfold sizes_nonneg in H. apply Forall_app in H as [H1 H2].
      inversion H2; subst.
      rewrite !live_bytes_app. simpl. rewrite He.
      pose proof (Hpos l1 H1). pose proof (Hpos l2 H4). lia.
Qed.

(** A handle that is not tracked is not removed. *)
Lemma remove_untracked (c : quota_context_t) (p : Z) :
  ~ tracked (allocations c) p -> remove_allocation c p = (0, c).
Proof.
  intros Hn. unfold remove_allocation, find_allocation.
  rewrite (find_untracked _ _ Hn). reflexivity.
Qed.

(** ** Initialization and binding resolution *)

Lemma symbol_eqb_refl (s : symbol) : symbol_eqb s s = true.
Proof. destruct s; reflexivity. Qed.

Lemma lazy_load_ctx env st s : g_ctx (lazy_load env st s) = g_ctx st.
Proof. unfold lazy_load. destruct (real st s); reflexivity. Qed.

Lemma lazy_load_real env st s : real (lazy_load env st s) s = resolves env st s.
Proof.
  unfold lazy_load, resolves. destruct (real st s) eqn:H; simpl.
  - assumption.
  - now rewrite symbol_eqb_refl.
Qed.

(** Initialization sets the limit, the log level and the latch, and leaves
    the accounting as it is. *)
Lemma ensure_init_accounting env st st1 :
  ensure_init env st = Some st1 ->
  accounting (g_ctx st1) = accounting (g_ctx st) /\ initialized (g_ctx st1) = true.
Proof.
  unfold ensure_init, hcs_init. destruct (initialized (g_ctx st)) eqn:Hi; simpl.
  - intros [= <-]. auto.
  - destruct (match getenv env "HCS_VRAM_QUOTA"%string with
              | Some (String _ _) => _ | _ => _ end); intros [= <-]. auto.
Qed.

Lemma ensure_init_initialized env st :
  initialized (g_ctx st) = true -> ensure_init env st = Some st.
Proof. unfold ensure_init. now intros ->. Qed.

Lemma call_alloc_unfold f env st devPtr sz reply :
  call_alloc f env st devPtr sz reply
  = intercept_alloc (alloc_abi f) (alloc_symbol f) env st devPtr sz reply.
Proof. destruct f; reflexivity. Qed.

Lemma call_free_unfold f env st devPtr reply :
  call_free f env st devPtr reply
  = intercept_free (free_abi f) (free_symbol f) env st devPtr reply.
Proof. destruct f; reflexivity. Qed.

Lemma call_query_unfold f env st free total reply :
  call_query f env st free total reply
  = intercept_query (query_abi f) (query_symbol f) env st free total reply.
Proof. destruct f; reflexivity. Qed.

(** ** The admission check *)

(** The check compares the wrapped sum; it is the comparison of the exact sum
    when that sum is a [size_t] value. *)
Lemma over_quota_exact (c : quota_context_t) (sz : Z) :
  0 <= quota_used c + sz <= SIZE_MAX ->
  over_quota c sz = (quota_limit c <? quota_used c + sz).
Proof. intros H. unfold over_quota. now rewrite wrap64_small. Qed.

(** What a hook of the allocate protocol does on a denied request. *)
Lemma intercept_alloc_denied abi sym env st st1 devPtr sz reply :
  ensure_init env st = Some st1 ->
  resolves env st1 sym = true ->
  over_quota (g_ctx st1) sz = true ->
  exists o, intercept_alloc abi sym env st devPtr sz reply = Some o /\
    ret o = v_out_of_memory abi /\ real_calls o = [] /\ outputs o = devPtr /\
    g_ctx (post o)
    = set_failed_allocs (g_ctx st1) (wrap64 (failed_allocs (g_ctx st1) + 1)).
Proof.
  intros Hinit Hres Hover. unfold intercept_alloc. rewrite Hinit. cbv zeta.
  rewrite lazy_load_real, Hres, lazy_load_ctx, Hover. simpl.
  eexists. split; [reflexivity|]. simpl. auto.
Qed.

(** What a hook of the allocate protocol does on an admitted request. *)
Lemma intercept_alloc_admitted abi sym env st st1 devPtr sz reply :
  ensure_init env st = Some st1 ->
  resolves env st1 sym = true ->
  over_quota (g_ctx st1) sz = false ->
  exists o, intercept_alloc abi sym env st devPtr sz reply = Some o /\
    ret o = alloc_result reply /\ real_calls o = [sym] /\
    outputs o = handle_after devPtr reply /\
    real (post o) = real (lazy_load env st1 sym) /\
    g_ctx (post o)
    = if alloc_commits abi (lazy_load env st1 sym) sym devPtr sz reply
      then match handle_after devPtr reply with
           | Some h => commit_allocation (g_ctx st1) h sz
           | None => g_ctx st1
           end
      else g_ctx st1.
Proof.
  intros Hinit Hres Hover. unfold intercept_alloc, alloc_commits.
  rewrite Hinit. cbv zeta.
  rewrite lazy_load_real, Hres, lazy_load_ctx, Hover. cbn [negb andb].
  eexists. split; [reflexivity|]. cbn [ret real_calls outputs post].
  split; [reflexivity|]. split; [reflexivity|]. split; [reflexivity|]. split.
  { destruct (handle_after devPtr reply) as [h|]; [|reflexivity].
    destruct ((alloc_result reply =? v_success abi) && negb (h =? 0)); reflexivity. }
  destruct (handle_after devPtr reply) as [h|];
    destruct (alloc_result reply =? v_success abi);
    try destruct (h =? 0); cbn [negb andb set_g_ctx g_ctx];
    rewrite ?lazy_load_ctx; reflexivity.
Qed.

(** What a hook does when the binding cannot be resolved. *)
Lemma intercept_alloc_unresolved abi sym env st st1 devPtr sz reply :
  ensure_init env st = Some st1 ->
  resolves env st1 sym = false ->
  exists o, intercept_alloc abi sym env st devPtr sz reply = Some o /\
    ret o = v_invalid abi /\ real_calls o = [] /\ g_ctx (post o) = g_ctx st1.
Proof.
  intros Hinit Hres. unfold intercept_alloc. rewrite Hinit. cbv zeta.
  rewrite lazy_load_real, Hres. simpl.
  eexists. split; [reflexivity|]. simpl. now rewrite lazy_load_ctx.
Qed.

Lemma intercept_free_unresolved abi sym env st st1 devPtr reply :
  ensure_init env st = Some st1 ->
  resolves env st1 sym = false ->
  exists o, intercept_free abi sym env st devPtr reply = Some o /\
    ret o = v_invalid abi /\ real_calls o = [] /\ g_ctx (post o) = g_ctx st1.
Proof.
  intros Hinit Hres. unfold intercept_free. rewrite Hinit. cbv zeta.
  rewrite lazy_load_real, Hres. simpl.
  eexists. split; [reflexivity|]. simpl. now rewrite lazy_load_ctx.
Qed.

Lemma intercept_query_unresolved abi sym env st st1 free total reply :
  ensure_init env st = Some st1 ->
  resolves env st1 sym = false ->
  exists o, intercept_query abi sym env st free total reply = Some o /\
    ret o = v_invalid abi /\ real_calls o = [] /\ g_ctx (post o) = g_ctx st1.
Proof.
  intros Hinit Hres. unfold intercept_query. rewrite Hinit. cbv zeta.
  rewrite lazy_load_real, Hres. simpl.
  eexists. split; [reflexivity|]. simpl. now rewrite lazy_load_ctx.
Qed.

(** From the outcome [Ho] of the hook and the step [Hstep] it makes, the goal
    about the state after the step becomes one about the context [Hctx] the
    hook leaves. *)
Ltac post_state Ho Hstep Hctx :=
  rewrite Ho in Hstep; cbn in Hstep; injection Hstep as _ <- _; rewrite Hctx.

(** A memory-info hook never touches the context. *)
Lemma memory_info_frame abi sym env st st1 free total reply :
  ensure_init env st = Some st1 ->
  exists o, intercept_query abi sym env st free total reply = Some o /\
    g_ctx (post o) = g_ctx st1.
Proof.
  intros Hinit. unfold intercept_query. rewrite Hinit. cbv zeta.
  destruct (negb (real _ _)); [|destruct (negb (_ =? _))];
    eexists; (split; [reflexivity|]); cbn; now rewrite lazy_load_ctx.
Qed.

(** What a free hook does with a resolved binding. *)
Lemma intercept_free_resolved abi sym env st st1 devPtr reply :
  ensure_init env st = Some st1 ->
  resolves env st1 sym = true ->
  exists o, intercept_free abi sym env st devPtr reply = Some o /\
    ret o = reply /\ real_calls o = [sym] /\
    g_ctx (post o)
    = if devPtr =? 0 then g_ctx st1 else release_allocation (g_ctx st1) devPtr.
Proof.
  intros Hinit Hres. unfold intercept_free. rewrite Hinit. cbv zeta.
  rewrite lazy_load_real, Hres, lazy_load_ctx. simpl.
  destruct (devPtr =? 0); eexists; (split; [reflexivity|]); simpl;
    rewrite ?lazy_load_ctx; auto.
Qed.

(* ------------------------------------------------------------------------ *)
(** ** Memory-info virtualization *)

(** C4. A memory-info query ([cudaMemGetInfo], [aclrtGetMemInfo],
    [hipMemGetInfo]) whose binding resolves calls the real query once.  If
    the real query returns an error, the hook returns that code and the two
    outputs are what the real query left.  If it returns the vendor's success
    code, the hook returns that code, reports [total = quota_limit] and
    [free = quota_limit - quota_used] when [quota_used < quota_limit], else
    [0], whatever the real query wrote.  The context is not changed. *)
Theorem memory_info_virtualized (f : query_fn) env st st1 free total reply :
  ensure_init env st = Some st1 ->
  resolves env st1 (query_symbol f) = true ->
  exists o, call_query f env st free total reply = Some o /\
    real_calls o = [query_symbol f] /\
    g_ctx (post o) = g_ctx st1 /\
    (query_result reply <> v_success (query_abi f) ->
       ret o = query_result reply /\
       outputs o = (query_free reply, query_total reply)) /\
    (query_result reply = v_success (query_abi f) ->
       ret o = v_success (query_abi f) /\
       outputs o =
         ((if quota_used (g_ctx st1) <? quota_limit (g_ctx st1)
           then quota_limit (g_ctx st1) - quota_used (g_ctx st1) else 0),
          quota_limit (g_ctx st1))).
Proof.
  intros Hinit Hres. rewrite call_query_unfold. unfold intercept_query.
  rewrite Hinit. cbv zeta. rewrite lazy_load_real, Hres, lazy_load_ctx.
  cbn [negb]. destruct (query_result reply =? v_success (query_abi f)) eqn:E;
    cbn [negb]; eexists; (split; [reflexivity|]); cbn [ret outputs post real_calls];
    rewrite lazy_load_ctx; (split; [reflexivity|]); (split; [reflexivity|]).
  - apply Z.eqb_eq in E. split; intros H; [contradiction | auto].
  - apply Z.eqb_neq in E. split; intros H; [auto | contradiction].
Qed.

(** An instance: [hipMemGetInfo] with 300 of 1000 bytes in use, on a device
    that reports 8 GiB free of 16 GiB. *)
Lemma memory_info_virtualized_witness :
  exists o,
    call_query fn_hipMemGetInfo env_default program_tracking 0 0
      {| query_result := 0; query_free := 8589934592; query_total := 17179869184 |}
    = Some o /\ ret o = hipSuccess /\ outputs o = (700, 1000).
Proof.
  destruct (memory_info_virtualized fn_hipMemGetInfo env_default
              program_tracking program_tracking 0 0
              {| query_result := 0; query_free := 8589934592;
                 query_total := 17179869184 |} eq_refl eq_refl)
    as (o & Ho & _ & _ & _ & Hok).
  exists o. split; [exact Ho|]. exact (Hok eq_refl).
Defined.

(* ------------------------------------------------------------------------ *)
(** ** The free path *)

(** C5. A free ([cudaFree], [aclrtFree], [hipFree]) whose binding resolves
    and whose handle is NULL, or is not the handle of an entry in use, leaves
    the whole context as it is (so [quota_used], [peak_usage],
    [total_allocs], [total_frees] and the table), calls the real free once
    and returns its result. *)
Theorem free_untracked_forwards (f : free_fn) env st st1 devPtr reply :
  ensure_init env st = Some st1 ->
  resolves env st1 (free_symbol f) = true ->
  devPtr = 0 \/ ~ tracked (allocations (g_ctx st1)) devPtr ->
  exists o, call_free f env st devPtr reply = Some o /\
    ret o = reply /\ real_calls o = [free_symbol f] /\
    g_ctx (post o) = g_ctx st1 /\
    accounting (g_ctx (post o)) = accounting (g_ctx st).
Proof.
  intros Hinit Hres Hptr. rewrite call_free_unfold.
  destruct (intercept_free_resolved (free_abi f) (free_symbol f) env st st1
              devPtr reply Hinit Hres) as (o & Ho & Hret & Hcalls & Hctx).
  assert (Hsame : g_ctx (post o) = g_ctx st1).
  { rewrite Hctx. destruct (devPtr =? 0) eqn:E; [reflexivity|].
    destruct Hptr as [->|Hn]; [discriminate|].
    unfold release_allocation. now rewrite (remove_untracked _ _ Hn). }
  exists o. repeat split; try assumption.
  rewrite Hsame. apply (ensure_init_accounting env st st1 Hinit).
Qed.

(** An instance: [cudaFree(NULL)]. *)
Lemma free_untracked_forwards_witness :
  exists o, call_free fn_cudaFree env_default program_tracking 0 0 = Some o /\
    ret o = 0 /\ real_calls o = [sym_cudaFree] /\
    g_ctx (post o) = g_ctx program_tracking.
Proof.
  destruct (free_untracked_forwards fn_cudaFree env_default
              program_tracking program_tracking 0 0 eq_refl eq_refl
              (or_introl eq_refl))
    as (o & Ho & Hret & Hcalls & Hctx & _).
  exists o. auto.
Defined.

(* ------------------------------------------------------------------------ *)
(** ** The allocate path after admission *)

(** C7. An allocate call that passes the admission check and whose real
    allocator returns a code other than the vendor's success code returns
    that code, and the context is as before: [quota_used], [peak_usage],
    [total_allocs], [total_frees], [failed_allocs] and the table are
    unchanged. *)
Theorem alloc_vendor_failure (f : alloc_fn) env st st1 devPtr sz reply :
  ensure_init env st = Some st1 ->
  resolves env st1 (alloc_symbol f) = true ->
  over_quota (g_ctx st1) sz = false ->
  alloc_result reply <> v_success (alloc_abi f) ->
  exists o, call_alloc f env st devPtr sz reply = Some o /\
    ret o = alloc_result reply /\ real_calls o = [alloc_symbol f] /\
    g_ctx (post o) = g_ctx st1 /\
    accounting (g_ctx (post o)) = accounting (g_ctx st).
Proof.
  intros Hinit Hres Hadm Hfail. rewrite call_alloc_unfold.
  destruct (intercept_alloc_admitted (alloc_abi f) (alloc_symbol f) env st st1
              devPtr sz reply Hinit Hres Hadm) as (o & Ho & Hret & Hcalls & _ & _ & Hctx).
  assert (Hsame : g_ctx (post o) = g_ctx st1).
  { rewrite Hctx. unfold alloc_commits.
    apply Z.eqb_neq in Hfail. rewrite Hfail, andb_false_r. reflexivity. }
  exists o. repeat split; try assumption.
  rewrite Hsame. apply (ensure_init_accounting env st st1 Hinit).
Qed.

(** An instance: [aclrtMalloc] of 100 bytes whose real allocator returns
    207001. *)
Lemma alloc_vendor_failure_witness :
  exists o,
    call_alloc (fn_aclrtMalloc ACL_MEM_MALLOC_HUGE_FIRST) env_default
      program_tracking (Some 0) 100
      {| alloc_result := 207001; alloc_stored := None |} = Some o /\
    ret o = 207001 /\ g_ctx (post o) = g_ctx program_tracking.
Proof.
  destruct (alloc_vendor_failure (fn_aclrtMalloc ACL_MEM_MALLOC_HUGE_FIRST)
              env_default program_tracking program_tracking (Some 0) 100
              {| alloc_result := 207001; alloc_stored := None |}
              eq_refl eq_refl eq_refl)
    as (o & Ho & Hret & _ & Hctx & _).
  - discriminate.
  - exists o. auto.
Defined.

(** C10. An allocate call that passes the admission check and whose real
    allocator returns the vendor's success code, while the output pointer is
    NULL or the handle behind it is NULL when the allocator returns, returns
    the success code, and the context is as before: [quota_used],
    [peak_usage], [total_allocs] and the table are unchanged. *)
Theorem alloc_null_handle (f : alloc_fn) env st st1 devPtr sz reply :
  ensure_init env st = Some st1 ->
  resolves env st1 (alloc_symbol f) = true ->
  over_quota (g_ctx st1) sz = false ->
  alloc_result reply = v_success (alloc_abi f) ->
  devPtr = None \/ handle_after devPtr reply = Some 0 ->
  exists o, call_alloc f env st devPtr sz reply = Some o /\
    ret o = v_success (alloc_abi f) /\ real_calls o = [alloc_symbol f] /\
    g_ctx (post o) = g_ctx st1 /\
    accounting (g_ctx (post o)) = accounting (g_ctx st).
Proof.
  intros Hinit Hres Hadm Hok Hnull. rewrite call_alloc_unfold.
  destruct (intercept_alloc_admitted (alloc_abi f) (alloc_symbol f) env st st1
              devPtr sz reply Hinit Hres Hadm) as (o & Ho & Hret & Hcalls & _ & _ & Hctx).
  assert (Hsame : g_ctx (post o) = g_ctx st1).
  { rewrite Hctx. unfold alloc_commits.
    destruct Hnull as [-> | ->]; cbn; rewrite ?andb_false_r; reflexivity. }
  exists o. repeat split; try assumption; try congruence.
  rewrite Hsame. apply (ensure_init_accounting env st st1 Hinit).
Qed.

(** An instance: [cudaMallocManaged] whose real allocator returns success and
    stores a NULL handle. *)
Lemma alloc_null_handle_witness :
  exists o,
    call_alloc (fn_cudaMallocManaged 1) env_default program_tracking (Some 77) 100
      {| alloc_result := 0; alloc_stored := Some 0 |} = Some o /\
    ret o = cudaSuccess /\ g_ctx (post o) = g_ctx program_tracking.
Proof.
  destruct (alloc_null_handle (fn_cudaMallocManaged 1) env_default
              program_tracking program_tracking (Some 77) 100
              {| alloc_result := 0; alloc_stored := Some 0 |}
              eq_refl eq_refl eq_refl eq_refl (or_intror eq_refl))
    as (o & Ho & Hret & _ & Hctx & _).
  exists o. auto.
Defined.

(* ------------------------------------------------------------------------ *)
(** ** Unresolved bindings *)

(** C8. Every intercepted operation (the four allocate hooks, the three free
    hooks, the three memory-info hooks) whose real function pointer is NULL
    and is not found by the lookup at the call returns the vendor's
    invalid-argument code, calls no real function, and leaves the context as
    it is: [quota_used], [peak_usage], the counters and the table are
    unchanged. *)
Theorem unresolved_binding env st st1 (c : api_call) :
  ensure_init env st = Some st1 ->
  resolves env st1 (call_symbol c) = false ->
  exists st', step env st c = Some (v_invalid (call_abi c), st', []) /\
    g_ctx st' = g_ctx st1 /\
    accounting (g_ctx st') = accounting (g_ctx st).
Proof.
  intros Hinit Hres.
  destruct (ensure_init_accounting env st st1 Hinit) as [Hacc _].
  destruct c as [f devPtr sz reply | f devPtr reply | f free total reply];
    cbn [step call_symbol call_abi] in *.
  - rewrite call_alloc_unfold.
    destruct (intercept_alloc_unresolved (alloc_abi f) (alloc_symbol f) env st st1
                devPtr sz reply Hinit Hres) as (o & -> & <- & <- & Hctx).
    exists (post o). cbn. rewrite Hctx. auto.
  - rewrite call_free_unfold.
    destruct (intercept_free_unresolved (free_abi f) (free_symbol f) env st st1
                devPtr reply Hinit Hres) as (o & -> & <- & <- & Hctx).
    exists (post o). cbn. rewrite Hctx. auto.
  - rewrite call_query_unfold.
    destruct (intercept_query_unresolved (query_abi f) (query_symbol f) env st st1
                free total reply Hinit Hres) as (o & -> & <- & <- & Hctx).
    exists (post o). cbn. rewrite Hctx. auto.
Qed.

(** An instance: [hipMalloc] as the first call of a process without the HIP
    runtime. *)
Lemma unresolved_binding_witness :
  exists st',
    step env_no_vendor program_initial
      (Alloc fn_hipMalloc (Some 0) 4096
         {| alloc_result := 0; alloc_stored := Some 4096 |})
    = Some (hipErrorInvalidValue, st', []) /\
    accounting (g_ctx st') = accounting (g_ctx program_initial).
Proof.
  destruct (unresolved_binding env_no_vendor program_initial
              (load_real_functions env_no_vendor
                 (set_g_ctx program_initial
                    {| quota_limit := 4294967296; quota_used := 0; allocations := [];
                       peak_usage := 0; total_allocs := 0; total_frees := 0;
                       failed_allocs := 0; log_level := LOG_WARN;
                       initialized := true |}))
              (Alloc fn_hipMalloc (Some 0) 4096
                 {| alloc_result := 0; alloc_stored := Some 4096 |})
              eq_refl eq_refl)
    as (st' & Hstep & _ & Hacc).
  exists st'. auto.
Defined.

(* ------------------------------------------------------------------------ *)
(** ** Commit and release *)

Lemma commit_allocation_spec (c : quota_context_t) (h sz : Z) :
  let c' := commit_allocation c h sz in
  quota_limit c' = quota_limit c /\
  quota_used c' = wrap64 (quota_used c + sz) /\
  total_allocs c' = wrap64 (total_allocs c + 1) /\
  total_frees c' = total_frees c /\ failed_allocs c' = failed_allocs c /\
  initialized c' = initialized c /\
  allocations c' = allocations (snd (add_allocation c h sz)).
Proof.
  unfold commit_allocation. cbn [quota_used peak_usage set_quota_used set_total_allocs].
  destruct (peak_usage c <? wrap64 (quota_used c + sz));
    unfold add_allocation; cbn;
    destruct (0 <=? unused_from 0 (allocations c));
    try destruct (allocation_count _ <? MAX_ALLOCATIONS) eqn:E;
    unfold allocation_count in *; cbn in *; rewrite ?E; cbn; repeat split; reflexivity.
Qed.

Lemma has_room_table (c c' : quota_context_t) :
  allocations c = allocations c' -> has_room c = has_room c'.
Proof. unfold has_room, allocation_count. now intros ->. Qed.

Lemma add_allocation_table (c c' : quota_context_t) (p sz : Z) :
  allocations c = allocations c' ->
  allocations (snd (add_allocation c p sz)) = allocations (snd (add_allocation c' p sz)).
Proof.
  intros H. unfold add_allocation, allocation_count. rewrite H.
  destruct (0 <=? unused_from 0 (allocations c')); [reflexivity|].
  destruct (Z.of_nat (List.length (allocations c')) <? MAX_ALLOCATIONS); cbn; auto.
Qed.

Lemma commit_conserved (c : quota_context_t) (h sz : Z) :
  conserved c -> 0 <= sz -> quota_used c + sz <= SIZE_MAX -> has_room c = true ->
  conserved (commit_allocation c h sz).
Proof.
  intros [Hused Hsizes] Hsz Hfit Hroom.
  destruct (commit_allocation_spec c h sz) as (_ & Hu & _ & _ & _ & _ & Ht).
  unfold conserved. rewrite Hu, Ht. split.
  - rewrite add_allocation_stored by assumption.
    assert (0 <= live_bytes (allocations c)).
    { clear - Hsizes. induction Hsizes as [|x l Hx HF IH]; simpl; [lia|].
      destruct (in_use x); lia. }
    rewrite wrap64_small; lia.
  - now apply add_allocation_sizes.
Qed.

Lemma release_conserved (c : quota_context_t) (p : Z) :
  conserved c -> conserved (release_allocation c p).
Proof.
  intros [Hused Hsizes]. unfold release_allocation.
  pose proof (remove_allocation_spec c p) as Hspec.
  destruct (remove_allocation c p) as [sz c1].
  destruct Hspec as (_ & Hu & _ & _ & _ & _ & _ & _ & Hlive & Hrest).
  destruct (Hrest Hsizes) as [Hsizes1 Hrange].
  destruct (0 <? sz) eqn:Epos;
    [|apply Z.ltb_ge in Epos; split; [lia|assumption]].
  replace (sz <=? quota_used c1) with true by (symmetry; apply Z.leb_le; lia).
  split; cbn; [lia|assumption].
Qed.

(** Every hook starts with the initialization, so a call made in a state is
    the call made in the initialized state. *)
Lemma step_after_init env st st1 (c : api_call) :
  ensure_init env st = Some st1 -> step env st c = step env st1 c.
Proof.
  intros Hinit.
  assert (H1 : ensure_init env st1 = Some st1).
  { apply ensure_init_initialized. apply (ensure_init_accounting env st st1 Hinit). }
  destruct c as [f devPtr sz reply | f devPtr reply | f free total reply];
    cbn [step].
  - rewrite !call_alloc_unfold. unfold intercept_alloc. now rewrite Hinit, H1.
  - rewrite !call_free_unfold. unfold intercept_free. now rewrite Hinit, H1.
  - rewrite !call_query_unfold. unfold intercept_query. now rewrite Hinit, H1.
Qed.

(** A call either fails in the initialization, or runs from the initialized
    state. *)
Lemma step_defined env st (c : api_call) :
  (ensure_init env st = None /\ step env st c = None) \/
  (exists st1, ensure_init env st = Some st1 /\ exists r st' calls,
      step env st c = Some (r, st', calls)).
Proof.
  destruct (ensure_init env st) as [st1|] eqn:Hinit; [right | left].
  - exists st1. split; [reflexivity|].
    destruct c as [f devPtr sz reply | f devPtr reply | f free total reply];
      cbn [step].
    + rewrite call_alloc_unfold. unfold intercept_alloc. rewrite Hinit. cbv zeta.
      destruct (negb _); [|destruct (over_quota _ _)]; cbn; eauto.
    + rewrite call_free_unfold. unfold intercept_free. rewrite Hinit. cbv zeta.
      destruct (negb _); [|destruct (devPtr =? 0)]; cbn; eauto.
    + rewrite call_query_unfold. unfold intercept_query. rewrite Hinit. cbv zeta.
      destruct (negb _); [|destruct (negb _)]; cbn; eauto.
  - split; [reflexivity|].
    destruct c as [f devPtr sz reply | f devPtr reply | f free total reply];
      cbn [step].
    + rewrite call_alloc_unfold. unfold intercept_alloc. now rewrite Hinit.
    + rewrite call_free_unfold. unfold intercept_free. now rewrite Hinit.
    + rewrite call_query_unfold. unfold intercept_query. now rewrite Hinit.
Qed.

Lemma conserved_accounting (c c' : quota_context_t) :
  accounting c' = accounting c -> conserved c -> conserved c'.
Proof.
  unfold accounting, conserved. intros [= Hu _ _ _ _ Ht]. now rewrite Hu, Ht.
Qed.

(** Every call that returns makes one of the four transitions. *)
Lemma step_transition env st st1 (c : api_call) r st' calls :
  ensure_init env st = Some st1 ->
  step env st c = Some (r, st', calls) ->
  transition env st1 c (g_ctx st').
Proof.
  intros Hinit Hstep.
  destruct c as [f devPtr sz reply | f devPtr reply | f free total reply];
    cbn [step] in Hstep.
  - rewrite call_alloc_unfold in Hstep.
    destruct (resolves env st1 (alloc_symbol f)) eqn:Hres.
    + destruct (over_quota (g_ctx st1) sz) eqn:Hover.
      * destruct (intercept_alloc_denied (alloc_abi f) (alloc_symbol f) env st st1
                    devPtr sz reply Hinit Hres Hover) as (o & Ho & _ & _ & _ & Hctx).
        post_state Ho Hstep Hctx. now constructor.
      * destruct (intercept_alloc_admitted (alloc_abi f) (alloc_symbol f) env st st1
                    devPtr sz reply Hinit Hres Hover)
          as (o & Ho & _ & _ & _ & _ & Hctx).
        post_state Ho Hstep Hctx.
        destruct (alloc_commits _ _ _ _ _ _) eqn:Hcommit; [|constructor].
        destruct (handle_after devPtr reply) as [h|] eqn:Hh; [|constructor].
        now apply transition_commit.
    + destruct (intercept_alloc_unresolved (alloc_abi f) (alloc_symbol f) env st st1
                  devPtr sz reply Hinit Hres) as (o & Ho & _ & _ & Hctx).
      post_state Ho Hstep Hctx. constructor.
  - rewrite call_free_unfold in Hstep.
    destruct (resolves env st1 (free_symbol f)) eqn:Hres.
    + destruct (intercept_free_resolved (free_abi f) (free_symbol f) env st st1
                  devPtr reply Hinit Hres) as (o & Ho & _ & _ & Hctx).
      post_state Ho Hstep Hctx. destruct (devPtr =? 0); constructor.
    + destruct (intercept_free_unresolved (free_abi f) (free_symbol f) env st st1
                  devPtr reply Hinit Hres) as (o & Ho & _ & _ & Hctx).
      post_state Ho Hstep Hctx. constructor.
  - rewrite call_query_unfold in Hstep.
    destruct (memory_info_frame (query_abi f) (query_symbol f) env st st1
                free total reply Hinit) as (o & Ho & Hctx).
    post_state Ho Hstep Hctx. constructor.
Qed.

(** One call keeps the conservation, when its commit (if any) fits. *)
Lemma step_conserved env st (c : api_call) r st' calls :
  conserved (g_ctx st) -> call_fits env st c = true ->
  step env st c = Some (r, st', calls) -> conserved (g_ctx st').
Proof.
  intros Hcons Hfits Hstep.
  destruct (ensure_init env st) as [st1|] eqn:Hinit.
  2:{ destruct (step_defined env st c) as [[_ Hnone]|(st1 & Hsome & _)]; congruence. }
  assert (Hc1 : conserved (g_ctx st1)).
  { eapply conserved_accounting; [|exact Hcons].
    apply (ensure_init_accounting env st st1 Hinit). }
  destruct (step_transition env st st1 c r st' calls Hinit Hstep)
    as [c | f devPtr sz reply Hover | f devPtr sz reply h Hcommit Hh | f devPtr reply].
  - exact Hc1.
  - exact Hc1.
  - cbn [call_fits] in Hfits. rewrite Hinit in Hfits. cbv zeta in Hfits.
    rewrite Hcommit, lazy_load_ctx in Hfits. cbn [implb] in Hfits.
    apply andb_true_iff in Hfits as [Hfits Hroom].
    apply andb_true_iff in Hfits as [Hsz Hfit].
    apply commit_conserved; auto; lia.
  - now apply release_conserved.
Qed.

Lemma release_allocation_config (c : quota_context_t) (p : Z) :
  initialized (release_allocation c p) = initialized c /\
  quota_limit (release_allocation c p) = quota_limit c.
Proof.
  unfold release_allocation.
  pose proof (remove_allocation_spec c p) as Hspec.
  destruct (remove_allocation c p) as [sz c1].
  destruct Hspec as (Hl & _ & _ & _ & _ & _ & _ & Hi & _).
  destruct (0 <? sz); [destruct (sz <=? quota_used c1)|]; cbn; auto.
Qed.

(** A call leaves the library initialized and does not change the limit that
    the initialization has set. *)
Lemma step_keeps_config env st st1 (c : api_call) r st' calls :
  ensure_init env st = Some st1 ->
  step env st c = Some (r, st', calls) ->
  initialized (g_ctx st') = true /\ quota_limit (g_ctx st') = quota_limit (g_ctx st1).
Proof.
  intros Hinit Hstep.
  destruct (ensure_init_accounting env st st1 Hinit) as [_ Hi1].
  destruct (step_transition env st st1 c r st' calls Hinit Hstep)
    as [c | f devPtr sz reply Hover | f devPtr sz reply h Hcommit Hh | f devPtr reply].
  - auto.
  - cbn. auto.
  - destruct (commit_allocation_spec (g_ctx st1) h sz)
      as (Hl & _ & _ & _ & _ & Hi & _).
    rewrite Hl, Hi. auto.
  - destruct (release_allocation_config (g_ctx st1) devPtr) as [-> ->]. auto.
Qed.

(** Once the initialization has succeeded, every sequence of calls runs to
    the end. *)
Lemma run_defined env (cs : list api_call) : forall st st1,
  ensure_init env st = Some st1 -> exists st', run env st cs = Some st'.
Proof.
  induction cs as [|c cs IH]; intros st st1 Hinit; cbn [run]; [eauto|].
  destruct (step_defined env st c) as [[Hnone _]|(st1' & _ & r & st' & calls & Hstep)];
    [congruence|].
  rewrite Hstep.
  destruct (step_keeps_config env st st1 c r st' calls Hinit Hstep) as [Hi _].
  apply (IH st' st'). now apply ensure_init_initialized.
Qed.

Lemma run_conserved env (cs1 : list api_call) : forall cs2 st st',
  conserved (g_ctx st) ->
  tracking_holds env st (cs1 ++ cs2) = true ->
  run env st cs1 = Some st' ->
  conserved (g_ctx st').
Proof.
  induction cs1 as [|c cs1 IH]; intros cs2 st st' Hcons Hholds Hrun.
  - cbn in Hrun. injection Hrun as <-. exact Hcons.
  - cbn [run app tracking_holds] in *.
    destruct (step env st c) as [[[r st1] calls]|] eqn:Hstep; [|discriminate].
    apply andb_true_iff in Hholds as [Hfits Hrest].
    apply (IH cs2 st1 st'); auto.
    eapply step_conserved; eassumption.
Qed.

(* ------------------------------------------------------------------------ *)
(** ** Conservation *)

(** C2, amended. For every sequence of calls made by one thread from the
    initial state, in which every allocation that reaches the commit step
    does so with a total [quota_used + size] that is a [size_t] value and
    with room in the tracking table, the sequence runs, and after each call
    (every prefix [cs1]) [quota_used] is the sum of the sizes of the entries
    in use. *)
Theorem conservation env (cs1 cs2 : list api_call) st0 :
  hcs_init env program_initial = Some st0 ->
  tracking_holds env program_initial (cs1 ++ cs2) = true ->
  exists st, run env program_initial cs1 = Some st /\
    quota_used (g_ctx st) = live_bytes (allocations (g_ctx st)).
Proof.
  intros Hinit Hholds.
  destruct (run_defined env cs1 program_initial st0 Hinit) as (st & Hrun).
  exists st. split; [exact Hrun|].
  apply (run_conserved env cs1 cs2 program_initial st); auto.
  split; [reflexivity | constructor].
Qed.

(** An instance: a 100-byte [cudaMalloc] and the [cudaFree] of its handle. *)
Lemma conservation_witness :
  exists st,
    run env_default program_initial
      [Alloc fn_cudaMalloc (Some 0) 100
         {| alloc_result := 0; alloc_stored := Some 4096 |};
       Free fn_cudaFree 4096 0] = Some st /\
    quota_used (g_ctx st) = live_bytes (allocations (g_ctx st)).
Proof.
  apply (conservation env_default
           [Alloc fn_cudaMalloc (Some 0) 100
              {| alloc_result := 0; alloc_stored := Some 4096 |};
            Free fn_cudaFree 4096 0] []
           (load_real_functions env_default
              (set_g_ctx program_initial
                 {| quota_limit := 4294967296; quota_used := 0; allocations := [];
                    peak_usage := 0; total_allocs := 0; total_frees := 0;
                    failed_allocs := 0; log_level := LOG_WARN;
                    initialized := true |}))); reflexivity.
Defined.

(* ------------------------------------------------------------------------ *)
(** ** Filling the tracking table *)

Lemma run_app env (cs1 cs2 : list api_call) : forall st,
  run env st (cs1 ++ cs2)
  = match run env st cs1 with
    | Some st' => run env st' cs2
    | None => None
    end.
Proof.
  induction cs1 as [|c cs1 IH]; intros st; cbn [app run]; [reflexivity|].
  destruct (step env st c) as [[[r st1] calls]|]; [apply IH | reflexivity].
Qed.

Lemma codes_app env (cs1 cs2 : list api_call) : forall st,
  codes env st (cs1 ++ cs2)
  = codes env st cs1
    ++ match run env st cs1 with
       | Some st' => codes env st' cs2
       | None => []
       end.
Proof.
  induction cs1 as [|c cs1 IH]; intros st; cbn [app run codes]; [reflexivity|].
  destruct (step env st c) as [[[r st1] calls]|]; [|reflexivity].
  rewrite IH. reflexivity.
Qed.

Lemma resolves_env_default st s : resolves env_default st s = true.
Proof. unfold resolves. cbn. apply orb_true_r. Qed.

(** The table of a state where every slot is in use: an insertion appends
    while there are fewer than [MAX_ALLOCATIONS] slots, and is dropped
    after. *)
Lemma add_allocation_append (c : quota_context_t) (p sz : Z) :
  Forall (fun e => in_use e = true) (allocations c) ->
  allocation_count c < MAX_ALLOCATIONS ->
  allocations (snd (add_allocation c p sz))
  = allocations c ++ [ {| ptr := p; size := sz; in_use := true |} ].
Proof.
  intros HF Hn. unfold add_allocation. rewrite (unused_all_in_use _ HF).
  cbn [Z.leb Z.compare]. apply Z.ltb_lt in Hn. rewrite Hn. reflexivity.
Qed.

Lemma has_room_full (c : quota_context_t) :
  Forall (fun e => in_use e = true) (allocations c) ->
  allocation_count c = MAX_ALLOCATIONS ->
  has_room c = false.
Proof.
  intros HF Hn. unfold has_room. rewrite (unused_all_in_use _ HF), Hn. reflexivity.
Qed.

Lemma filled_in_use st n top :
  filled st n top -> Forall (fun e => in_use e = true) (allocations (g_ctx st)).
Proof.
  intros (_ & _ & _ & _ & HF & _). eapply Forall_impl; [|exact HF].
  cbn. intros e [He _]. exact He.
Qed.

Lemma filled_untracked st n top p :
  filled st n top -> top < p -> ~ tracked (allocations (g_ctx st)) p.
Proof.
  intros (_ & _ & _ & _ & HF & _) Hp (e & Hin & _ & He).
  rewrite Forall_forall in HF. specialize (HF e Hin). lia.
Qed.

(** A one-byte allocation in a filled state is admitted and commits with the
    handle the real allocator stores. *)
Lemma filled_alloc st st1 n top h v :
  ensure_init env_default st = Some st1 ->
  filled st1 n top -> 0 <= n <= MAX_ALLOCATIONS -> 0 < h ->
  exists st',
    step env_default st
      (Alloc fn_cudaMalloc (Some v) 1
         {| alloc_result := cudaSuccess; alloc_stored := Some h |})
    = Some (cudaSuccess, st', [sym_cudaMalloc]) /\
    g_ctx st' = commit_allocation (g_ctx st1) h 1.
Proof.
  intros Hinit (Hi & Hlim & Hused & Hcount & HF & Hlive) Hn Hh.
  assert (Hover : over_quota (g_ctx st1) 1 = false).
  { rewrite over_quota_exact; rewrite Hused; unfold SIZE_MAX, MAX_ALLOCATIONS in *;
      [|lia]. rewrite Hlim. apply Z.ltb_ge. lia. }
  cbn [step]. rewrite call_alloc_unfold.
  destruct (intercept_alloc_admitted cuda_abi sym_cudaMalloc env_default st st1
              (Some v) 1 {| alloc_result := cudaSuccess; alloc_stored := Some h |}
              Hinit (resolves_env_default _ _) Hover)
    as (o & Ho & Hret & Hcalls & _ & _ & Hctx).
  cbn [alloc_abi alloc_symbol]. rewrite Ho. cbn [option_map].
  exists (post o). rewrite Hret, Hcalls. split; [reflexivity|].
  rewrite Hctx. unfold alloc_commits.
  rewrite lazy_load_real, resolves_env_default, lazy_load_ctx, Hover.
  cbn. destruct h; try lia. reflexivity.
Qed.

Lemma filled_step st st1 n top :
  ensure_init env_default st = Some st1 ->
  filled st1 n top -> 0 <= top -> 0 <= n < MAX_ALLOCATIONS ->
  exists st',
    step env_default st
      (Alloc fn_cudaMalloc (Some 0) 1
         {| alloc_result := cudaSuccess; alloc_stored := Some (top + 1) |})
    = Some (cudaSuccess, st', [sym_cudaMalloc]) /\
    filled st' (n + 1) (top + 1).
Proof.
  intros Hinit Hfilled Htop Hn.
  destruct (filled_alloc st st1 n top (top + 1) 0 Hinit Hfilled) as (st' & Hstep & Hctx);
    [lia | lia |].
  exists st'. split; [exact Hstep|].
  pose proof (filled_in_use _ _ _ Hfilled) as Huse.
  destruct Hfilled as (Hi & Hlim & Hused & Hcount & HF & Hlive).
  destruct (commit_allocation_spec (g_ctx st1) (top + 1) 1)
    as (Hl' & Hu' & _ & _ & _ & Hi' & Ht').
  rewrite add_allocation_append in Ht' by (auto; lia).
  unfold filled, allocation_count. rewrite Hctx, Hl', Hu', Hi', Ht'.
  repeat split; auto.
  - rewrite Hused. apply wrap64_small. unfold SIZE_MAX, MAX_ALLOCATIONS in *. lia.
  - rewrite length_app. cbn [List.length]. unfold allocation_count in Hcount. lia.
  - apply Forall_app. split.
    + eapply Forall_impl; [|exact HF]. cbn. intros e [He Hp]. split; [exact He | lia].
    + constructor; [|constructor]. cbn. split; [reflexivity | lia].
  - rewrite live_bytes_app. cbn. lia.
Qed.

Lemma filled_initialized st n top :
  filled st n top -> ensure_init env_default st = Some st.
Proof. intros H. apply ensure_init_initialized. apply H. Qed.

Lemma filled_run (k : nat) : forall st n top,
  filled st n top -> 0 <= top -> 0 <= n -> n + Z.of_nat k <= MAX_ALLOCATIONS ->
  exists st',
    run env_default st (one_byte_allocs k top) = Some st' /\
    Forall (fun r => r = cudaSuccess) (codes env_default st (one_byte_allocs k top)) /\
    filled st' (n + Z.of_nat k) (top + Z.of_nat k).
Proof.
  induction k as [|k IH]; intros st n top Hfilled Htop Hn Hk.
  - exists st. cbn [one_byte_allocs run codes Z.of_nat].
    rewrite !Z.add_0_r. auto.
  - cbn [one_byte_allocs run codes].
    destruct (filled_step st st n top (filled_initialized _ _ _ Hfilled) Hfilled Htop)
      as (st2 & Hstep & Hfilled2); [lia|].
    rewrite Hstep.
    destruct (IH st2 (n + 1) (top + 1) Hfilled2)
      as (st' & Hrun & Hcodes & Hfilled'); [lia | lia | lia |].
    exists st'.
    replace (n + Z.of_nat (S k)) with (n + 1 + Z.of_nat k) by lia.
    replace (top + Z.of_nat (S k)) with (top + 1 + Z.of_nat k) by lia.
    split; [exact Hrun|]. split; [constructor; [reflexivity | exact Hcodes]|].
    exact Hfilled'.
Qed.

(** After [MAX_ALLOCATIONS] one-byte allocations from the initial state the
    table is full and every slot is in use. *)
Lemma table_filled :
  exists st,
    run env_default program_initial (one_byte_allocs (Z.to_nat MAX_ALLOCATIONS) 0)
    = Some st /\
    Forall (fun r => r = cudaSuccess)
      (codes env_default program_initial (one_byte_allocs (Z.to_nat MAX_ALLOCATIONS) 0)) /\
    filled st MAX_ALLOCATIONS MAX_ALLOCATIONS.
Proof.
  assert (Hk : Z.of_nat (Z.to_nat MAX_ALLOCATIONS) = MAX_ALLOCATIONS).
  { apply Z2Nat.id. unfold MAX_ALLOCATIONS. lia. }
  remember (Z.to_nat MAX_ALLOCATIONS) as k eqn:Ek. clear Ek.
  destruct k as [|k]; [unfold MAX_ALLOCATIONS in Hk; cbn in Hk; lia|].
  cbn [one_byte_allocs run codes].
  destruct (filled_step program_initial
              (load_real_functions env_default
                 (set_g_ctx program_initial
                    {| quota_limit := 4294967296; quota_used := 0; allocations := [];
                       peak_usage := 0; total_allocs := 0; total_frees := 0;
                       failed_allocs := 0; log_level := LOG_WARN;
                       initialized := true |}))
              0 0 eq_refl)
    as (st2 & Hstep & Hfilled2).
  - unfold filled. cbn. repeat split; auto.
  - lia.
  - unfold MAX_ALLOCATIONS. lia.
  - rewrite Hstep.
    destruct (filled_run k st2 (0 + 1) (0 + 1) Hfilled2)
      as (st' & Hrun & Hcodes & Hfilled'); [lia | lia | lia |].
    exists st'. split; [exact Hrun|].
    split; [constructor; [reflexivity | exact Hcodes]|].
    replace (0 + 1 + Z.of_nat k) with MAX_ALLOCATIONS in Hfilled' by lia.
    exact Hfilled'.
Qed.

(** The allocation made in a full table is admitted and counted, and is not
    tracked. *)
Lemma full_table_alloc st :
  filled st MAX_ALLOCATIONS MAX_ALLOCATIONS ->
  exists st',
    step env_default st alloc_beyond_table
    = Some (cudaSuccess, st', [sym_cudaMalloc]) /\
    initialized (g_ctx st') = true /\
    quota_used (g_ctx st') = MAX_ALLOCATIONS + 1 /\
    allocations (g_ctx st') = allocations (g_ctx st).
Proof.
  intros Hfilled.
  destruct (filled_alloc st st MAX_ALLOCATIONS MAX_ALLOCATIONS
              (MAX_ALLOCATIONS + 1) 0 (filled_initialized _ _ _ Hfilled) Hfilled)
    as (st' & Hstep & Hctx);
    [unfold MAX_ALLOCATIONS; lia | unfold MAX_ALLOCATIONS; lia |].
  exists st'. split; [exact Hstep|].
  pose proof (filled_in_use _ _ _ Hfilled) as Huse.
  destruct Hfilled as (Hi & Hlim & Hused & Hcount & HF & Hlive).
  destruct (commit_allocation_spec (g_ctx st) (MAX_ALLOCATIONS + 1) 1)
    as (_ & Hu' & _ & _ & _ & Hi' & Ht').
  rewrite add_allocation_full in Ht' by (apply has_room_full; assumption).
  rewrite Hctx, Hu', Hi', Ht', Hused. repeat split; auto.
Qed.

(** C2, counterexample. [MAX_ALLOCATIONS + 1] one-byte allocations from the
    initial state, each admitted and each returning [cudaSuccess]: the last
    one is counted in [quota_used] and finds no slot, so [quota_used] is
    65537 while the entries in use sum to 65536. *)
Lemma conservation_fails_on_full_table :
  exists st,
    run env_default program_initial
      (one_byte_allocs (Z.to_nat MAX_ALLOCATIONS) 0 ++ [alloc_beyond_table]) = Some st /\
    Forall (fun r => r = cudaSuccess)
      (codes env_default program_initial
         (one_byte_allocs (Z.to_nat MAX_ALLOCATIONS) 0 ++ [alloc_beyond_table])) /\
    quota_used (g_ctx st) = 65537 /\
    live_bytes (allocations (g_ctx st)) = 65536 /\
    quota_used (g_ctx st) <> live_bytes (allocations (g_ctx st)).
Proof.
  destruct table_filled as (st & Hrun & Hcodes & Hfilled).
  destruct (full_table_alloc st Hfilled) as (st' & Hstep & _ & Hused & Htable).
  exists st'. rewrite run_app, codes_app, Hrun. cbn [run codes]. rewrite Hstep.
  assert (Hlive : live_bytes (allocations (g_ctx st')) = 65536).
  { rewrite Htable. apply Hfilled. }
  repeat split.
  - apply Forall_app. split; [exact Hcodes|]. constructor; [reflexivity|constructor].
  - exact Hused.
  - exact Hlive.
  - rewrite Hused, Hlive. discriminate.
Qed.

(* ------------------------------------------------------------------------ *)
(** ** Round trip *)

Lemma symbol_eqb_eq (a b : symbol) : symbol_eqb a b = true -> a = b.
Proof. destruct a, b; cbn; congruence. Qed.

(** The lazy load of one binding does not change whether another one
    resolves. *)
Lemma resolves_lazy_load env st s s' :
  resolves env (lazy_load env st s) s' = resolves env st s'.
Proof.
  unfold lazy_load, resolves. destruct (real st s) eqn:Hs; cbn; [reflexivity|].
  destruct (symbol_eqb s' s) eqn:E; [|reflexivity].
  apply symbol_eqb_eq in E. subst s'. rewrite Hs. cbn.
  now destruct (dlsym env s).
Qed.

(** C6, amended. In every state, for every size [sz >= 0] with
    [quota_used + sz <= quota_limit] at the check, when the tracking table
    has room for one more entry and both bindings resolve: an allocate call
    whose real allocator succeeds and stores a non-NULL handle that no entry
    in use holds, followed by a free of that handle, leaves [quota_used] at
    its value before the allocate call. *)
Theorem round_trip (f : alloc_fn) (g : free_fn) env st st1 v sz h rfree :
  ensure_init env st = Some st1 ->
  resolves env st1 (alloc_symbol f) = true ->
  resolves env st1 (free_symbol g) = true ->
  0 <= quota_used (g_ctx st1) -> quota_limit (g_ctx st1) <= SIZE_MAX ->
  0 <= sz -> quota_used (g_ctx st1) + sz <= quota_limit (g_ctx st1) ->
  h <> 0 -> ~ tracked (allocations (g_ctx st1)) h ->
  has_room (g_ctx st1) = true ->
  exists o1 o2,
    call_alloc f env st (Some v) sz
      {| alloc_result := v_success (alloc_abi f); alloc_stored := Some h |} = Some o1 /\
    ret o1 = v_success (alloc_abi f) /\ outputs o1 = Some h /\
    real_calls o1 = [alloc_symbol f] /\
    call_free g env (post o1) h rfree = Some o2 /\
    ret o2 = rfree /\ real_calls o2 = [free_symbol g] /\
    quota_used (g_ctx (post o2)) = quota_used (g_ctx st).
Proof.
  intros Hinit Hra Hrf Hused Hlim Hsz Hfit Hh Hfresh Hroom.
  set (reply := {| alloc_result := v_success (alloc_abi f); alloc_stored := Some h |}).
  assert (Hover : over_quota (g_ctx st1) sz = false).
  { rewrite over_quota_exact by lia. apply Z.ltb_ge. lia. }
  rewrite call_alloc_unfold.
  destruct (intercept_alloc_admitted (alloc_abi f) (alloc_symbol f) env st st1
              (Some v) sz reply Hinit Hra Hover)
    as (o1 & Ho1 & Hret1 & Hcalls1 & Hout1 & Hreal1 & Hctx1).
  assert (Hcommit : g_ctx (post o1) = commit_allocation (g_ctx st1) h sz).
  { rewrite Hctx1. unfold alloc_commits.
    rewrite lazy_load_real, Hra, lazy_load_ctx, Hover. subst reply. cbn.
    rewrite Z.eqb_refl. apply Z.eqb_neq in Hh. rewrite Hh. reflexivity. }
  destruct (commit_allocation_spec (g_ctx st1) h sz)
    as (_ & Hu1 & _ & _ & _ & Hi1 & Ht1).
  rewrite <- Hcommit in Hu1, Hi1, Ht1.
  assert (Hinit1 : ensure_init env (post o1) = Some (post o1)).
  { apply ensure_init_initialized. rewrite Hi1.
    apply (ensure_init_accounting env st st1 Hinit). }
  assert (Hrf1 : resolves env (post o1) (free_symbol g) = true).
  { unfold resolves. rewrite Hreal1.
    change (resolves env (lazy_load env st1 (alloc_symbol f)) (free_symbol g) = true).
    now rewrite resolves_lazy_load. }
  destruct (intercept_free_resolved (free_abi g) (free_symbol g) env (post o1) (post o1)
              h rfree Hinit1 Hrf1) as (o2 & Ho2 & Hret2 & Hcalls2 & Hctx2).
  rewrite <- call_free_unfold in Ho2.
  exists o1, o2. repeat split; try assumption.
  rewrite Hctx2. apply Z.eqb_neq in Hh. rewrite Hh.
  destruct (ensure_init_accounting env st st1 Hinit) as [[= Hsame _ _ _ _ _] _].
  rewrite <- Hsame.
  (* the free finds the entry that the commit stored *)
  destruct (remove_after_add (g_ctx st1) h sz Hroom Hfresh) as [Hsize Hlive].
  unfold release_allocation.
  pose proof (remove_allocation_spec (g_ctx (post o1)) h) as Hspec.
  assert (Hfst : fst (remove_allocation (g_ctx (post o1)) h) = sz).
  { unfold remove_allocation, find_allocation in *. rewrite Ht1.
    destruct (0 <=? find_from 0 (allocations (snd (add_allocation (g_ctx st1) h sz))) h);
      exact Hsize. }
  destruct (remove_allocation (g_ctx (post o1)) h) as [sz' c2]. cbn in Hfst. subst sz'.
  destruct Hspec as (_ & Hu2 & _).
  rewrite wrap64_small in Hu1 by lia.
  destruct (0 <? sz) eqn:Epos.
  - replace (sz <=? quota_used c2) with true by (symmetry; apply Z.leb_le; lia).
    cbn. lia.
  - apply Z.ltb_ge in Epos. lia.
Qed.

(** An instance: [hipMalloc] of the 700 bytes left under a limit of 1000,
    then [hipFree]. *)
Lemma round_trip_witness :
  exists o1 o2,
    call_alloc fn_hipMalloc env_default program_tracking (Some 0) 700
      {| alloc_result := 0; alloc_stored := Some 8192 |} = Some o1 /\
    call_free fn_hipFree env_default (post o1) 8192 0 = Some o2 /\
    quota_used (g_ctx (post o2)) = 300.
Proof.
  destruct (round_trip fn_hipMalloc fn_hipFree env_default program_tracking
              program_tracking 0 700 8192 0 eq_refl eq_refl eq_refl)
    as (o1 & o2 & Ho1 & _ & _ & _ & Ho2 & _ & _ & Hused).
  - cbn. lia.
  - cbn. unfold SIZE_MAX. lia.
  - lia.
  - cbn. lia.
  - discriminate.
  - cbn. intros (e & [<-|[]] & _ & He). discriminate.
  - reflexivity.
  - exists o1, o2. auto.
Defined.

(** C6, counterexample. The state after [MAX_ALLOCATIONS] one-byte
    allocations has 65536 bytes in use under a limit of 4 GiB, and no entry
    holds the handle 65537.  A one-byte [cudaMalloc] that succeeds with that
    handle, followed by [cudaFree] of it, leaves [quota_used] at 65537. *)
Lemma round_trip_fails_on_full_table :
  exists st st1 st2,
    run env_default program_initial (one_byte_allocs (Z.to_nat MAX_ALLOCATIONS) 0)
    = Some st /\
    quota_used (g_ctx st) = 65536 /\ quota_limit (g_ctx st) = 4294967296 /\
    ~ tracked (allocations (g_ctx st)) 65537 /\
    step env_default st alloc_beyond_table
    = Some (cudaSuccess, st1, [sym_cudaMalloc]) /\
    step env_default st1 free_beyond_table
    = Some (cudaSuccess, st2, [sym_cudaFree]) /\
    quota_used (g_ctx st2) = 65537.
Proof.
  destruct table_filled as (st & Hrun & _ & Hfilled).
  destruct (full_table_alloc st Hfilled) as (st1 & Hstep & Hi1 & Hused1 & Htable1).
  assert (Hfresh : ~ tracked (allocations (g_ctx st1)) (MAX_ALLOCATIONS + 1)).
  { rewrite Htable1. eapply filled_untracked; [exact Hfilled|]. lia. }
  destruct (intercept_free_resolved cuda_abi sym_cudaFree env_default st1 st1
              (MAX_ALLOCATIONS + 1) cudaSuccess
              (ensure_init_initialized _ _ Hi1) (resolves_env_default _ _))
    as (o & Ho & Hret & Hcalls & Hctx).
  exists st, st1, (post o).
  split; [exact Hrun|]. split; [apply Hfilled|]. split; [apply Hfilled|].
  split; [eapply filled_untracked; [exact Hfilled | unfold MAX_ALLOCATIONS; lia]|].
  split; [exact Hstep|]. split.
  - unfold free_beyond_table. cbn [step call_free]. unfold cudaFree.
    rewrite Ho. cbn [option_map]. now rewrite Hret, Hcalls.
  - rewrite Hctx.
    replace (MAX_ALLOCATIONS + 1 =? 0) with false by reflexivity.
    unfold release_allocation. rewrite (remove_untracked _ _ Hfresh).
    cbn [Z.ltb Z.compare]. exact Hused1.
Qed.

(* ------------------------------------------------------------------------ *)
(** ** Size parsing *)

Lemma read_digits_count (hex : bool) (s : string) : forall acc n m n' r,
  LibC.read_digits hex s acc n = (m, n', r) -> n <= n'.
Proof.
  induction s as [|c s IH]; intros acc n m n' r; cbn [LibC.read_digits].
  - intros [= _ <- _]. lia.
  - destruct (if hex then LibC.xdigit_value c else LibC.digit_value c) as [d|].
    + intros H. apply IH in H. lia.
    + intros [= _ <- _]. lia.
Qed.

(** The radix point of [read_mantissa] is the character of code 46. *)
Lemma read_mantissa_point (hex : bool) (s : string) :
  LibC.read_mantissa hex s
  = let '(m1, n1, r1) := LibC.read_digits hex s 0 0 in
    let '(m2, n2, r2) :=
      match r1 with
      | String c r => if LibC.code c =? 46 then LibC.read_digits hex r m1 0
                      else (m1, 0, r1)
      | EmptyString => (m1, 0, r1)
      end in
    if n1 + n2 =? 0 then None else Some (m2, n2, r2).
Proof.
  unfold LibC.read_mantissa.
  destruct (LibC.read_digits hex s 0 0) as [[m1 n1] r1].
  destruct r1 as [|c r]; [reflexivity|].
  destruct c as [[] [] [] [] [] [] [] []]; reflexivity.
Qed.

(** [strtod] reads a decimal constant exactly when one starts. *)
Lemma read_decimal_none (neg : bool) (r : string) :
  LibC.read_decimal neg r = None <-> decimal_starts r = false.
Proof.
  unfold LibC.read_decimal. rewrite read_mantissa_point.
  destruct r as [|c r']; [cbn; tauto|].
  cbn [LibC.read_digits decimal_starts]. unfold LibC.digit_value.
  destruct (LibC.isdigit c) eqn:Hd; cbn [orb].
  - destruct (LibC.read_digits false r' (10 * 0 + (LibC.code c - 48)) (0 + 1))
      as [[m1 n1] r1] eqn:E1.
    apply read_digits_count in E1.
    destruct (match r1 with
              | String c0 r => if LibC.code c0 =? 46 then LibC.read_digits false r m1 0
                               else (m1, 0, r1)
              | EmptyString => (m1, 0, r1)
              end) as [[m2 n2] r2] eqn:E2.
    assert (0 <= n2).
    { destruct r1 as [|c0 r]; [injection E2 as _ <- _; lia|].
      destruct (LibC.code c0 =? 46); [|injection E2 as _ <- _; lia].
      now apply read_digits_count in E2. }
    replace (n1 + n2 =? 0) with false by (symmetry; apply Z.eqb_neq; lia).
    destruct (LibC.read_exponent 101 r2). split; discriminate.
  - destruct (LibC.code c =? 46); cbn [andb]; [|cbn; tauto].
    destruct r' as [|c2 r2]; [cbn; tauto|].
    cbn [LibC.read_digits]. unfold LibC.digit_value.
    destruct (LibC.isdigit c2) eqn:Hd2; [|cbn; tauto].
    destruct (LibC.read_digits false r2 (10 * 0 + (LibC.code c2 - 48)) (0 + 1))
      as [[m2 n2] r3] eqn:E2.
    apply read_digits_count in E2.
    replace (0 + n2 =? 0) with false by (symmetry; apply Z.eqb_neq; lia).
    destruct (LibC.read_exponent 101 r3). split; discriminate.
Qed.

(** A hexadecimal constant starts with the digit [0]. *)
Lemma read_hexadecimal_none (neg : bool) (r : string) :
  decimal_starts r = false -> LibC.read_hexadecimal neg r = None.
Proof.
  destruct r as [|c r']; [reflexivity|].
  cbn [decimal_starts]. intros H. apply orb_false_iff in H as [H _].
  destruct c as [[] [] [] [] [] [] [] []]; try discriminate H;
    destruct r'; reflexivity.
Qed.

Lemma skip_word_prefix (w1 w2 : string) : forall r,
  LibC.skip_word (w1 ++ w2) r <> None -> LibC.skip_word w1 r <> None.
Proof.
  induction w1 as [|c w1 IH]; intros r; cbn [append LibC.skip_word];
    [discriminate|].
  destruct r as [|c' r']; [tauto|].
  destruct (LibC.tolower c' =? LibC.code c); [apply IH | tauto].
Qed.

Lemma read_infinity_none (neg : bool) (r : string) :
  LibC.read_infinity neg r = None <-> word_starts "inf" r = false.
Proof.
  unfold LibC.read_infinity, word_starts.
  pose proof (skip_word_prefix "inf" "inity" r) as Hp.
  change ("inf" ++ "inity")%string with "infinity"%string in Hp.
  destruct (LibC.skip_word "infinity" r) as [r1|];
    destruct (LibC.skip_word "inf" r) as [r2|]; try (split; discriminate);
    try tauto.
  exfalso. apply Hp; [discriminate | reflexivity].
Qed.

Lemma read_nan_none (r : string) :
  LibC.read_nan r = None <-> word_starts "nan" r = false.
Proof.
  unfold LibC.read_nan, word_starts.
  destruct (LibC.skip_word "nan" r) as [r0|]; [|tauto].
  split; [|discriminate]. intros H. exfalso.
  destruct r0 as [|c r1]; [discriminate|].
  destruct c as [[] [] [] [] [] [] [] []]; try discriminate H.
  destruct (LibC.skip_nchars r1) as [|c2 r2]; [discriminate|].
  destruct c2 as [[] [] [] [] [] [] [] []]; discriminate H.
Qed.

(** [strtod] converts nothing exactly when no number starts after the white
    space and the sign. *)
Lemma strtod_none (s : string) :
  LibC.strtod s = None <-> number_starts (after_sign s) = false.
Proof.
  unfold LibC.strtod, after_sign, number_starts.
  destruct (LibC.read_sign (LibC.skip_spaces s)) as [neg r]. cbn [snd].
  destruct (decimal_starts r) eqn:Hd; cbn [orb].
  - assert (Hdec : LibC.read_decimal neg r <> None).
    { intros H. apply read_decimal_none in H. congruence. }
    destruct (LibC.read_hexadecimal neg r); [split; discriminate|].
    destruct (LibC.read_decimal neg r); [split; discriminate | contradiction].
  - rewrite (read_hexadecimal_none neg r Hd).
    rewrite (proj2 (read_decimal_none neg r) Hd).
    destruct (word_starts "inf" r) eqn:Hi; cbn [orb].
    + assert (Hinf : LibC.read_infinity neg r <> None).
      { intros H. apply read_infinity_none in H. congruence. }
      destruct (LibC.read_infinity neg r); [split; discriminate | contradiction].
    + rewrite (proj2 (read_infinity_none neg r) Hi). apply read_nan_none.
Qed.

(** C9, amended. [parse_size_string] returns 17179869184 for "16Gi",
    4000000000 for "4G" and 1024 for "1024"; it returns 0 for every string
    in which [strtod] finds no number; and those are exactly the strings in
    which, after leading white space and an optional sign, no number starts:
    what is left does not begin with a decimal digit, with "." followed by a
    decimal digit, with "inf" or with "nan" (in any case). *)
Theorem parse_size_string_values :
  parse_size_string (Some "16Gi"%string) = Some 17179869184 /\
  parse_size_string (Some "4G"%string) = Some 4000000000 /\
  parse_size_string (Some "1024"%string) = Some 1024 /\
  (forall s, LibC.strtod s = None -> parse_size_string (Some s) = Some 0) /\
  (forall s, LibC.strtod s = None <-> number_starts (after_sign s) = false).
Proof.
  split; [vm_compute; reflexivity|]. split; [vm_compute; reflexivity|].
  split; [vm_compute; reflexivity|]. split; [|exact strtod_none].
  intros s H. unfold parse_size_string.
  destruct s as [|c r]; [reflexivity|]. now rewrite H.
Qed.

(** Instances: strings without a number, the second of them starting with
    the first letter of "nan". *)
Lemma parse_size_string_values_witness :
  parse_size_string (Some "unlimited"%string) = Some 0 /\
  parse_size_string (Some "none"%string) = Some 0 /\
  parse_size_string (Some ".G"%string) = Some 0.
Proof.
  destruct parse_size_string_values as (_ & _ & _ & Hzero & Hstarts).
  split; [|split]; apply Hzero; apply Hstarts; reflexivity.
Defined.

(** C9, counterexample. ".5G" has no leading digit and parses to
    500000000: [strtod] accepts a number that starts with the radix point
    (and skips white space and a sign, as in " 1024" and "+4G"). *)
Lemma parse_size_string_without_leading_digit :
  leading_digit ".5G"%string = false /\
  parse_size_string (Some ".5G"%string) = Some 500000000 /\
  ~ (forall s, leading_digit s = false -> parse_size_string (Some s) = Some 0).
Proof.
  split; [reflexivity|]. split; [vm_compute; reflexivity|].
  intros H. specialize (H ".5G"%string eq_refl). vm_compute in H. discriminate H.
Qed.

(* ------------------------------------------------------------------------ *)
(** ** The limit set by the initialization *)

Lemma release_allocation_used_zero (c : quota_context_t) (p : Z) :
  quota_used c = 0 -> quota_used (release_allocation c p) = 0.
Proof.
  intros Hused. unfold release_allocation.
  pose proof (remove_allocation_spec c p) as Hspec.
  destruct (remove_allocation c p) as [sz c1].
  destruct Hspec as (_ & Hu & _).
  destruct (0 <? sz) eqn:Epos; [|congruence].
  apply Z.ltb_lt in Epos.
  replace (sz <=? quota_used c1) with false by (symmetry; apply Z.leb_gt; lia).
  reflexivity.
Qed.

(** With a limit of zero an admitted request has a size that wraps to zero,
    so nothing is ever in use. *)
Lemma step_starved env st (c : api_call) r st' calls :
  starved st -> step env st c = Some (r, st', calls) -> starved st'.
Proof.
  intros (Hi & Hlim & Hused) Hstep.
  pose proof (ensure_init_initialized env st Hi) as Hinit.
  destruct (step_keeps_config env st st c r st' calls Hinit Hstep) as [Hi' Hlim'].
  split; [exact Hi'|]. split; [congruence|].
  destruct (step_transition env st st c r st' calls Hinit Hstep)
    as [c | f devPtr sz reply Hover | f devPtr sz reply h Hcommit Hh | f devPtr reply].
  - exact Hused.
  - exact Hused.
  - destruct (commit_allocation_spec (g_ctx st) h sz) as (_ & Hu & _).
    rewrite Hu. unfold alloc_commits in Hcommit.
    rewrite lazy_load_ctx in Hcommit.
    destruct (over_quota (g_ctx st) sz) eqn:Hover;
      [now rewrite andb_false_r in Hcommit|].
    unfold over_quota in Hover. rewrite Hlim in Hover. apply Z.ltb_ge in Hover.
    pose proof (wrap64_range (quota_used (g_ctx st) + sz)). lia.
  - now apply release_allocation_used_zero.
Qed.

Lemma run_starved env (cs : list api_call) : forall st st',
  starved st -> run env st cs = Some st' -> starved st'.
Proof.
  induction cs as [|c cs IH]; intros st st' Hst Hrun; cbn [run] in Hrun.
  - now injection Hrun as <-.
  - destruct (step env st c) as [[[r st1] calls]|] eqn:Hstep; [|discriminate].
    apply (IH st1 st'); [|exact Hrun]. eapply step_starved; eassumption.
Qed.

(** The initialization from the static state, by the quota string. *)
Lemma hcs_init_limit env :
  hcs_init env program_initial
  = match (match getenv env "HCS_VRAM_QUOTA"%string with
           | Some (String c r) => parse_size_string (Some (String c r))
           | _ => Some 4294967296
           end) with
    | Some lim =>
        Some (set_g_ctx (load_real_functions env program_initial)
                {| quota_limit := lim; quota_used := 0; allocations := [];
                   peak_usage := 0; total_allocs := 0; total_frees := 0;
                   failed_allocs := 0;
                   log_level := parse_log_level (getenv env "HCS_LOG_LEVEL"%string);
                   initialized := true |})
    | None => None
    end.
Proof.
  unfold hcs_init. cbn [program_initial g_ctx g_ctx_initial initialized].
  destruct (getenv env "HCS_VRAM_QUOTA"%string) as [[|c r]|]; reflexivity.
Qed.

(** C3, amended. After the initialization from the static state:
    - when the quota string is unset or empty, the limit is the default of
      4 GiB (4294967296 bytes);
    - when it is a non-empty string in which [strtod] finds no number, or
      one whose number evaluates to zero, the limit is 0;
    - when the limit is 0, after every sequence of calls an allocate request
      of a non-zero size never reaches the real allocator, leaves
      [quota_used] at 0, and is denied with the vendor's out-of-memory code
      when its binding resolves. *)
Theorem init_quota_limit env :
  (getenv env "HCS_VRAM_QUOTA"%string = None \/
   getenv env "HCS_VRAM_QUOTA"%string = Some EmptyString ->
   exists st0, hcs_init env program_initial = Some st0 /\
     quota_limit (g_ctx st0) = 4294967296) /\
  (forall s, getenv env "HCS_VRAM_QUOTA"%string = Some s -> s <> EmptyString ->
     LibC.strtod s = None \/ parse_size_string (Some s) = Some 0 ->
     exists st0, hcs_init env program_initial = Some st0 /\
       quota_limit (g_ctx st0) = 0) /\
  (forall st0 cs st (f : alloc_fn) devPtr sz reply,
     hcs_init env program_initial = Some st0 ->
     quota_limit (g_ctx st0) = 0 ->
     run env st0 cs = Some st ->
     0 < sz <= SIZE_MAX ->
     exists o, call_alloc f env st devPtr sz reply = Some o /\
       real_calls o = [] /\ quota_used (g_ctx (post o)) = 0 /\
       (resolves env st (alloc_symbol f) = true ->
        ret o = v_out_of_memory (alloc_abi f))).
Proof.
  split; [|split].
  - intros Hq. rewrite hcs_init_limit.
    destruct Hq as [-> | ->]; eexists; (split; [reflexivity|]); reflexivity.
  - intros s Hs Hne Hzero. rewrite hcs_init_limit, Hs.
    destruct s as [|c r]; [congruence|].
    assert (Hp : parse_size_string (Some (String c r)) = Some 0).
    { destruct Hzero as [Hnone|Hp]; [|exact Hp].
      unfold parse_size_string. now rewrite Hnone. }
    rewrite Hp. eexists. split; reflexivity.
  - intros st0 cs st f devPtr sz reply Hinit Hlim Hrun Hsz.
    assert (H0 : starved st0).
    { rewrite hcs_init_limit in Hinit.
      destruct (match getenv env "HCS_VRAM_QUOTA"%string with
                | Some (String c r) => _ | _ => _ end); [|discriminate].
      injection Hinit as <-. cbn in Hlim. subst. repeat split. }
    destruct (run_starved env cs st0 st H0 Hrun) as (Hi & Hl & Hu).
    pose proof (ensure_init_initialized env st Hi) as Hinit1.
    assert (Hover : over_quota (g_ctx st) sz = true).
    { unfold over_quota. rewrite Hl, Hu, Z.add_0_l, wrap64_small by lia.
      apply Z.ltb_lt. lia. }
    rewrite call_alloc_unfold.
    destruct (resolves env st (alloc_symbol f)) eqn:Hres.
    + destruct (intercept_alloc_denied (alloc_abi f) (alloc_symbol f) env st st
                  devPtr sz reply Hinit1 Hres Hover)
        as (o & Ho & Hret & Hcalls & _ & Hctx).
      exists o. rewrite Hctx. auto.
    + destruct (intercept_alloc_unresolved (alloc_abi f) (alloc_symbol f) env st st
                  devPtr sz reply Hinit1 Hres) as (o & Ho & _ & Hcalls & Hctx).
      exists o. rewrite Hctx. repeat split; auto. discriminate.
Qed.

(** Instances: no quota string; the quota string "none"; a one-byte
    [cudaMalloc] under the quota string "0Gi". *)
Lemma init_quota_limit_witness :
  (exists st0, hcs_init env_default program_initial = Some st0 /\
     quota_limit (g_ctx st0) = 4294967296) /\
  (exists st0, hcs_init (env_quota "none") program_initial = Some st0 /\
     quota_limit (g_ctx st0) = 0) /\
  (exists o,
     call_alloc fn_cudaMalloc (env_quota "0Gi")
       (load_real_functions (env_quota "0Gi")
          (set_g_ctx program_initial
             {| quota_limit := 0; quota_used := 0; allocations := [];
                peak_usage := 0; total_allocs := 0; total_frees := 0;
                failed_allocs := 0; log_level := LOG_WARN; initialized := true |}))
       (Some 0) 1 {| alloc_result := 0; alloc_stored := Some 4096 |} = Some o /\
     real_calls o = [] /\ ret o = cudaErrorMemoryAllocation).
Proof.
  split; [|split].
  - apply (proj1 (init_quota_limit env_default)). left. reflexivity.
  - apply (proj1 (proj2 (init_quota_limit (env_quota "none"))) "none"%string).
    + reflexivity.
    + discriminate.
    + left. reflexivity.
  - destruct (proj2 (proj2 (init_quota_limit (env_quota "0Gi")))
                (load_real_functions (env_quota "0Gi")
                   (set_g_ctx program_initial
                      {| quota_limit := 0; quota_used := 0; allocations := [];
                         peak_usage := 0; total_allocs := 0; total_frees := 0;
                         failed_allocs := 0; log_level := LOG_WARN;
                         initialized := true |}))
                [] _ fn_cudaMalloc (Some 0) 1
                {| alloc_result := 0; alloc_stored := Some 4096 |}
                eq_refl eq_refl eq_refl)
      as (o & Ho & Hcalls & _ & Hret).
    + unfold SIZE_MAX. lia.
    + exists o. split; [exact Ho|]. split; [exact Hcalls|]. apply Hret. reflexivity.
Defined.

(** C3, counterexample. With [HCS_VRAM_QUOTA=abc], a string in which
    [strtod] finds no number, the limit after the initialization is 0, not
    4294967296; and under that limit a request of size 0 passes the admission
    check and reaches the real allocator. *)
Lemma init_unparseable_quota_is_zero :
  exists st0 o,
    hcs_init (env_quota "abc") program_initial = Some st0 /\
    LibC.strtod "abc" = None /\
    quota_limit (g_ctx st0) = 0 /\
    quota_limit (g_ctx st0) <> 4294967296 /\
    cudaMalloc (env_quota "abc") st0 (Some 0) 0
      {| alloc_result := cudaSuccess; alloc_stored := Some 4096 |} = Some o /\
    ret o = cudaSuccess /\ real_calls o = [sym_cudaMalloc].
Proof.
  eexists. eexists. split; [reflexivity|]. split; [reflexivity|].
  split; [reflexivity|]. split; [discriminate|].
  split; [reflexivity|]. split; reflexivity.
Qed.

(* ------------------------------------------------------------------------ *)
(** ** The admission check at the wrap-around *)

(** C1, the failing input. After one admitted one-byte [cudaMalloc] under
    the default limit of 4 GiB, a [cudaMalloc] of [SIZE_MAX] bytes has
    [quota_used + size = 2^64 > quota_limit], and is not denied: the sum
    wraps to 0 in the check, so whatever the real allocator answers, it is
    called, its code is returned, and [failed_allocs] stays 0. *)
Theorem admission_check_wraps :
  exists st,
    run env_default program_initial
      [Alloc fn_cudaMalloc (Some 0) 1
         {| alloc_result := cudaSuccess; alloc_stored := Some 4096 |}] = Some st /\
    quota_used (g_ctx st) = 1 /\ quota_limit (g_ctx st) = 4294967296 /\
    quota_used (g_ctx st) + SIZE_MAX > quota_limit (g_ctx st) /\
    over_quota (g_ctx st) SIZE_MAX = false /\
    forall reply, exists o,
      cudaMalloc env_default st (Some 0) SIZE_MAX reply = Some o /\
      ret o = alloc_result reply /\
      real_calls o = [sym_cudaMalloc] /\
      failed_allocs (g_ctx (post o)) = 0.
Proof.
  eexists. split; [reflexivity|]. split; [reflexivity|].
  split; [reflexivity|]. split; [reflexivity|]. split; [reflexivity|].
  intros reply.
  match goal with
  | |- exists o, cudaMalloc _ ?st _ _ _ = _ /\ _ =>
      destruct (intercept_alloc_admitted cuda_abi sym_cudaMalloc env_default st st
                  (Some 0) SIZE_MAX reply eq_refl eq_refl eq_refl)
        as (o & Ho & Hret & Hcalls & _ & _ & Hctx)
  end.
  exists o. split; [exact Ho|]. split; [exact Hret|]. split; [exact Hcalls|].
  rewrite Hctx.
  destruct (alloc_commits _ _ _ _ _ _); [|reflexivity].
  destruct (handle_after (Some 0) reply) as [h|]; [|reflexivity].
  match goal with
  | |- failed_allocs (commit_allocation ?c h SIZE_MAX) = 0 =>
      destruct (commit_allocation_spec c h SIZE_MAX) as (_ & _ & _ & _ & Hf & _)
  end.
  rewrite Hf. reflexivity.
Qed.

(* ======================================================================== *)
(** * Further properties of the interceptor *)

(** ** What the parser can return *)

Lemma size_t_of_double_range (v : spec_float) (z : Z) :
  LibC.size_t_of_double v = Some z -> 0 <= z <= SIZE_MAX.
Proof.
  unfold LibC.size_t_of_double, SIZE_MAX.
  destruct v as [s | s | | neg m e]; try discriminate.
  - intros [= <-]. lia.
  - destruct (Z.shiftl (Z.pos m) e =? 0); [intros [= <-]; lia|].
    destruct neg; [discriminate|].
    destruct (Z.shiftl (Z.pos m) e <=? 18446744073709551615) eqn:E; [|discriminate].
    intros [= <-]. apply Z.leb_le in E. split; [|exact E].
    apply Z.shiftl_nonneg. lia.
Qed.

Lemma parse_size_string_bounded (str : option string) (z : Z) :
  parse_size_string str = Some z -> 0 <= z <= SIZE_MAX.
Proof.
  unfold parse_size_string.
  destruct str as [[|c r]|]; try (intros [= <-]; unfold SIZE_MAX; lia).
  destruct (LibC.strtod (String c r)) as [[value endptr]|];
    [|intros [= <-]; unfold SIZE_MAX; lia].
  apply size_t_of_double_range.
Qed.

(** ** Plain byte counts *)

Lemma read_digits_uint (d : Decimal.uint) : forall acc n,
  LibC.read_digits false (DecimalString.NilEmpty.string_of_uint d) acc n
  = (uint_value d acc, n + Z.of_nat (Decimal.nb_digits d), EmptyString).
Proof.
  induction d; intros acc n;
    cbn [DecimalString.NilEmpty.string_of_uint LibC.read_digits uint_value Decimal.nb_digits];
    [rewrite Z.add_0_r; reflexivity|..].
  all: match goal with |- context [LibC.digit_value ?c] =>
         let v := eval vm_compute in (LibC.digit_value c) in
         change (LibC.digit_value c) with v end;
       cbv iota; rewrite IHd; f_equal; f_equal; lia.
Qed.

Lemma uint_value_pos (d : Decimal.uint) : forall a,
  uint_value d (Zpos a) = Zpos (Pos.of_uint_acc d a).
Proof.
  induction d; intros a; cbn [uint_value Pos.of_uint_acc]; [reflexivity|..];
    rewrite <- IHd; f_equal; lia.
Qed.

Lemma uint_value_0 (d : Decimal.uint) : uint_value d 0 = Z.of_N (Pos.of_uint d).
Proof.
  induction d; cbn [uint_value Pos.of_uint]; [reflexivity | exact IHd |..];
    cbn [Z.mul Z.add Z.of_N]; apply uint_value_pos.
Qed.

Lemma uint_value_numeral (n : Z) :
  0 <= n -> uint_value (N.to_uint (Z.to_N n)) 0 = n.
Proof.
  intros Hn. rewrite uint_value_0.
  change (Pos.of_uint (N.to_uint (Z.to_N n))) with (N.of_uint (N.to_uint (Z.to_N n))).
  rewrite DecimalN.Unsigned.of_to. lia.
Qed.

Lemma to_uint_nonnil (m : N) : N.to_uint m <> Decimal.Nil.
Proof.
  destruct m as [|p]; [discriminate|]. apply DecimalPos.Unsigned.to_uint_nonnil.
Qed.

Lemma strtod_uint (d : Decimal.uint) :
  d <> Decimal.Nil ->
  LibC.strtod (DecimalString.NilEmpty.string_of_uint d)
  = Some (LibC.double_of_decimal false (uint_value d 0) 0, EmptyString).
Proof.
  intros Hd.
  assert (Hlen : (0 + Z.of_nat (Decimal.nb_digits d) + 0 =? 0) = false).
  { apply Z.eqb_neq. destruct d; [contradiction|..]; cbn [Decimal.nb_digits]; lia. }
  assert (Hdec : LibC.read_decimal false (DecimalString.NilEmpty.string_of_uint d)
                 = Some (LibC.double_of_decimal false (uint_value d 0) 0, EmptyString)).
  { unfold LibC.read_decimal, LibC.read_mantissa.
    rewrite read_digits_uint, Hlen. reflexivity. }
  assert (Hhex : LibC.read_hexadecimal false (DecimalString.NilEmpty.string_of_uint d) = None).
  { destruct d as [|d|d|d|d|d|d|d|d|d|d]; try reflexivity.
    destruct d; reflexivity. }
  unfold LibC.strtod.
  replace (LibC.read_sign (LibC.skip_spaces (DecimalString.NilEmpty.string_of_uint d)))
    with (false, DecimalString.NilEmpty.string_of_uint d)
    by (destruct d; [contradiction|..]; reflexivity).
  rewrite Hhex, Hdec. reflexivity.
Qed.

Lemma digits2_pos_lower (p : positive) : 2 ^ (Zpos (digits2_pos p) - 1) <= Zpos p.
Proof.
  induction p as [p IH | p IH |]; cbn [digits2_pos]; [| |cbn; lia];
    rewrite Pos2Z.inj_succ;
    replace (Z.succ (Zpos (digits2_pos p)) - 1) with (Z.succ (Zpos (digits2_pos p) - 1)) by lia;
    rewrite Z.pow_succ_r by lia; lia.
Qed.

Lemma digits2_pos_shift (p : positive) (k : positive) :
  digits2_pos (Pos.iter xO p k) = (digits2_pos p + k)%positive.
Proof.
  induction k as [|k IH] using Pos.peano_ind.
  - cbn. lia.
  - rewrite Pos.iter_succ. cbn [digits2_pos]. rewrite IH. lia.
Qed.

Lemma shift_value (p : positive) (k : positive) :
  Zpos (Pos.iter xO p k) = Zpos p * 2 ^ Zpos k.
Proof.
  induction k as [|k IH] using Pos.peano_ind.
  - cbn. lia.
  - rewrite Pos.iter_succ, Pos2Z.inj_succ, Z.pow_succ_r by lia.
    rewrite Pos2Z.inj_xO, IH. lia.
Qed.

(** A mantissa of 53 bits with an exponent in range is its own rounding. *)
Lemma binary_round_aux_exact (m : positive) (e : Z) :
  Zpos (digits2_pos m) = 53 -> -1074 <= e <= 971 ->
  binary_round_aux 53 1024 false (Zpos m) e loc_Exact = S754_finite false m e.
Proof.
  intros Hd He.
  assert (Hshift : fexp 53 1024 (Zdigits2 (Zpos m) + e) - e = 0).
  { unfold fexp, emin, Zdigits2. rewrite Hd. lia. }
  unfold binary_round_aux, shr_fexp. rewrite Hshift.
  cbn [shr shr_record_of_loc loc_of_shr_record shr_m round_nearest_even].
  unfold shr_fexp. rewrite Hshift.
  cbn [shr shr_record_of_loc shr_m].
  replace (e <=? 1024 - 53) with true by (symmetry; apply Z.leb_le; lia).
  reflexivity.
Qed.

(** An integer below 2^53 is a [double], and converts back to itself. *)
Lemma size_t_of_double_of_decimal (n : Z) :
  0 <= n < 2 ^ 53 ->
  LibC.size_t_of_double (LibC.double_of_decimal false n 0) = Some n.
Proof.
  intros Hn. destruct n as [|p|p]; [reflexivity| |lia].
  unfold LibC.double_of_decimal. cbn [Z.leb Z.compare].
  rewrite Z.pow_0_r, Z.mul_1_r.
  pose proof (digits2_pos_lower p) as Hlow.
  assert (Hd : Zpos (digits2_pos p) <= 53).
  { destruct (Z_le_gt_dec (Zpos (digits2_pos p)) 53) as [H|H]; [exact H|].
    assert (2 ^ 53 <= 2 ^ (Zpos (digits2_pos p) - 1)) by (apply Z.pow_le_mono_r; lia).
    lia. }
  unfold binary_round, shl_align, LibC.prec, LibC.emax.
  assert (Hf : fexp 53 1024 (Zpos (digits2_pos p) + 0) = Zpos (digits2_pos p) - 53).
  { unfold fexp, emin. lia. }
  rewrite Hf.
  destruct (Zpos (digits2_pos p) - 53 - 0) as [|q|q] eqn:E.
  - rewrite binary_round_aux_exact by lia.
    unfold LibC.size_t_of_double. rewrite Z.shiftl_0_r.
    cbn [Z.eqb]. replace (Zpos p <=? SIZE_MAX) with true; [reflexivity|].
    symmetry. apply Z.leb_le. unfold SIZE_MAX. lia.
  - lia.
  - assert (Hq : Zpos q = 53 - Zpos (digits2_pos p)) by lia.
    rewrite binary_round_aux_exact.
    + unfold LibC.size_t_of_double.
      replace (Zpos (digits2_pos p) - 53) with (- Zpos q) by lia.
      rewrite Z.shiftl_opp_r, Z.shiftr_div_pow2 by lia.
      rewrite shift_value, Z.div_mul by lia.
      cbn [Z.eqb]. replace (Zpos p <=? SIZE_MAX) with true; [reflexivity|].
      symmetry. apply Z.leb_le. unfold SIZE_MAX. lia.
    + rewrite digits2_pos_shift, Pos2Z.inj_add. lia.
    + lia.
Qed.

Lemma parse_numeral (n : Z) :
  0 <= n < 2 ^ 53 -> parse_size_string (Some (numeral n)) = Some n.
Proof.
  intros Hn. unfold numeral.
  pose proof (to_uint_nonnil (Z.to_N n)) as Hnil.
  pose proof (strtod_uint _ Hnil) as Hs.
  rewrite uint_value_numeral in Hs by lia.
  unfold parse_size_string.
  destruct (DecimalString.NilEmpty.string_of_uint (N.to_uint (Z.to_N n))) as [|c r] eqn:E.
  - destruct (N.to_uint (Z.to_N n)); [contradiction|..]; discriminate.
  - rewrite Hs. cbn [skip_blanks].
    change (unit_factor EmptyString) with (@None spec_float).
    now apply size_t_of_double_of_decimal.
Qed.

(** X13. A plain decimal byte count is read exactly below 2^53: for
    [0 <= n < 2^53], [parse_size_string] of the decimal numeral of [n]
    (digits only) returns [n].  Above, the value is the nearest [double]:
    the numeral of 2^53 + 1 gives 2^53. *)
Theorem parse_size_string_decimal :
  (forall n, 0 <= n < 2 ^ 53 -> parse_size_string (Some (numeral n)) = Some n) /\
  parse_size_string (Some (numeral 9007199254740993)) = Some 9007199254740992.
Proof.
  split; [exact parse_numeral | vm_compute; reflexivity].
Qed.

(** An instance: 4 GiB written in bytes. *)
Lemma parse_size_string_decimal_witness :
  parse_size_string (Some "4294967296"%string) = Some 4294967296.
Proof.
  change (parse_size_string (Some (numeral 4294967296)) = Some 4294967296).
  apply (proj1 parse_size_string_decimal 4294967296).
  split; [lia | reflexivity].
Defined.

(** ** The states a process reaches *)

(** The state that [hcs_init] leaves when it runs on the static state. *)
Lemma init_state env st0 :
  hcs_init env program_initial = Some st0 ->
  initialized (g_ctx st0) = true /\
  0 <= quota_limit (g_ctx st0) <= SIZE_MAX /\
  quota_used (g_ctx st0) = 0 /\ peak_usage (g_ctx st0) = 0 /\
  allocations (g_ctx st0) = [] /\
  total_allocs (g_ctx st0) = 0 /\ total_frees (g_ctx st0) = 0 /\
  failed_allocs (g_ctx st0) = 0 /\
  real st0 = dlsym env.
Proof.
  rewrite hcs_init_limit.
  destruct (match getenv env "HCS_VRAM_QUOTA"%string with
            | Some (String c r) => parse_size_string (Some (String c r))
            | _ => Some 4294967296
            end) as [lim|] eqn:Hlim; [|discriminate].
  intros [= <-]. cbn. repeat split; try reflexivity.
  - destruct (getenv env "HCS_VRAM_QUOTA"%string) as [[|c r]|];
      try (injection Hlim as <-; lia).
    apply (parse_size_string_bounded _ _ Hlim).
  - destruct (getenv env "HCS_VRAM_QUOTA"%string) as [[|c r]|];
      try (injection Hlim as <-; unfold SIZE_MAX; lia).
    apply (parse_size_string_bounded _ _ Hlim).
Qed.

(** What holds when an allocate hook reaches its commit step. *)
Lemma alloc_commits_true abi st sym devPtr sz reply :
  alloc_commits abi st sym devPtr sz reply = true ->
  real st sym = true /\ over_quota (g_ctx st) sz = false /\
  alloc_result reply = v_success abi /\
  exists h, handle_after devPtr reply = Some h /\ h <> 0.
Proof.
  unfold alloc_commits. intros H.
  apply andb_true_iff in H as [H Hh]. apply andb_true_iff in H as [H Hr].
  apply andb_true_iff in H as [Hreal Hover].
  apply negb_true_iff in Hover. apply Z.eqb_eq in Hr.
  repeat split; try assumption.
  destruct (handle_after devPtr reply) as [h|]; [|discriminate].
  exists h. split; [reflexivity|]. apply negb_true_iff in Hh. now apply Z.eqb_neq.
Qed.

(** A property of the context that the four transitions keep holds after
    every sequence of calls made in an initialized state. *)
Lemma run_invariant env (P : quota_context_t -> Prop) :
  (forall st1 c ctx', initialized (g_ctx st1) = true -> P (g_ctx st1) ->
     transition env st1 c ctx' -> P ctx') ->
  forall cs st, initialized (g_ctx st) = true -> P (g_ctx st) ->
    exists st', run env st cs = Some st' /\
      initialized (g_ctx st') = true /\ P (g_ctx st').
Proof.
  intros Hkeep. induction cs as [|c cs IH]; intros st Hi HP; cbn [run]; [eauto|].
  pose proof (ensure_init_initialized env st Hi) as Hinit.
  destruct (step_defined env st c) as [[Hnone _]|(st1 & _ & r & st' & calls & Hstep)];
    [congruence|].
  rewrite Hstep.
  destruct (step_keeps_config env st st c r st' calls Hinit Hstep) as [Hi' _].
  apply IH; [exact Hi'|].
  apply (Hkeep st c); auto. eapply step_transition; eassumption.
Qed.

(** The same from the static state, where the first call runs the
    initialization: [st1] is the state in which the next hook makes its
    checks. *)
Lemma reachable_invariant env (P : quota_context_t -> Prop) st0 :
  hcs_init env program_initial = Some st0 ->
  P (g_ctx st0) ->
  (forall st1 c ctx', initialized (g_ctx st1) = true -> P (g_ctx st1) ->
     transition env st1 c ctx' -> P ctx') ->
  forall cs, exists st st1,
    run env program_initial cs = Some st /\
    ensure_init env st = Some st1 /\
    initialized (g_ctx st1) = true /\ P (g_ctx st1) /\
    (cs = [] /\ st = program_initial \/ st1 = st).
Proof.
  intros Hinit HP Hkeep cs.
  destruct (init_state env st0 Hinit) as (Hi0 & _).
  destruct cs as [|c cs].
  - exists program_initial, st0. cbn [run]. repeat split; auto.
  - destruct (run_invariant env P Hkeep (c :: cs) st0 Hi0 HP) as (st & Hrun & Hi & HPst).
    exists st, st. cbn [run] in *.
    rewrite (step_after_init env program_initial st0 c Hinit).
    repeat split; auto. now apply ensure_init_initialized.
Qed.

Lemma update_slot_length (l : list allocation_entry_t) f : forall i,
  List.length (update_slot l i f) = List.length l.
Proof.
  induction l as [|e l IH]; intros [|i]; cbn; auto.
Qed.

Lemma release_allocation_frame (c : quota_context_t) (p : Z) :
  let c' := release_allocation c p in
  quota_limit c' = quota_limit c /\ peak_usage c' = peak_usage c /\
  total_allocs c' = total_allocs c /\ failed_allocs c' = failed_allocs c /\
  log_level c' = log_level c /\ initialized c' = initialized c /\
  List.length (allocations c') = List.length (allocations c) /\
  (0 <= quota_used c -> 0 <= quota_used c' <= quota_used c).
Proof.
  unfold release_allocation.
  pose proof (remove_allocation_spec c p) as Hspec.
  assert (Hlen : List.length (allocations (snd (remove_allocation c p)))
                 = List.length (allocations c)).
  { unfold remove_allocation. destruct (0 <=? find_allocation c p); [|reflexivity].
    cbn. apply update_slot_length. }
  destruct (remove_allocation c p) as [sz c1]. cbn [snd] in Hlen.
  destruct Hspec as (Hl & Hu & Hp & Ha & Hf & Hfa & Hlog & Hi & _).
  destruct (0 <? sz) eqn:Epos.
  - apply Z.ltb_lt in Epos.
    destruct (sz <=? quota_used c1) eqn:Ele;
      [apply Z.leb_le in Ele | apply Z.leb_gt in Ele]; cbn;
      repeat split; auto; lia.
  - repeat split; auto; lia.
Qed.

Lemma commit_allocation_frame (c : quota_context_t) (h sz : Z) :
  let c' := commit_allocation c h sz in
  peak_usage c' = Z.max (peak_usage c) (wrap64 (quota_used c + sz)) /\
  log_level c' = log_level c.
Proof.
  unfold commit_allocation.
  cbn [quota_used peak_usage set_quota_used set_total_allocs].
  destruct (peak_usage c <? wrap64 (quota_used c + sz)) eqn:E;
    [apply Z.ltb_lt in E | apply Z.ltb_ge in E];
    unfold add_allocation; cbn;
    destruct (0 <=? unused_from 0 (allocations c));
    try destruct (allocation_count _ <? MAX_ALLOCATIONS) eqn:E2;
    unfold allocation_count in *; cbn in *; rewrite ?E2; cbn;
    (split; [lia | reflexivity]).
Qed.

(* ------------------------------------------------------------------------ *)
(** ** The quota is never exceeded *)

Lemma live_bytes_nonneg (l : list allocation_entry_t) :
  sizes_nonneg l -> 0 <= live_bytes l.
Proof.
  intros HF. induction HF as [|x l Hx HF IH]; simpl; [lia|].
  destruct (in_use x); lia.
Qed.

(** One call keeps the sizes in use covered by the counter, when its commit
    (if any) does not wrap. *)
Lemma step_covered env st (c : api_call) r st' calls :
  initialized (g_ctx st) = true -> covered (g_ctx st) ->
  call_in_range env st c = true ->
  step env st c = Some (r, st', calls) -> covered (g_ctx st').
Proof.
  intros Hi [Hsizes Hlive] Hrange Hstep.
  pose proof (ensure_init_initialized env st Hi) as Hinit.
  pose proof (live_bytes_nonneg _ Hsizes) as Hnn.
  destruct (step_transition env st st c r st' calls Hinit Hstep)
    as [c | f devPtr sz reply Hover | f devPtr sz reply h Hcommit Hh | f devPtr reply].
  - split; assumption.
  - split; assumption.
  - cbn [call_in_range] in Hrange. rewrite Hinit in Hrange. cbv zeta in Hrange.
    rewrite Hcommit, lazy_load_ctx in Hrange. cbn [implb] in Hrange.
    apply andb_true_iff in Hrange as [Hsz Hfit].
    apply Z.leb_le in Hsz. apply Z.leb_le in Hfit.
    destruct (commit_allocation_spec (g_ctx st) h sz) as (_ & Hu & _ & _ & _ & _ & Ht).
    unfold covered. rewrite Hu, Ht, wrap64_small by lia. split.
    + now apply add_allocation_sizes.
    + destruct (has_room (g_ctx st)) eqn:Hroom.
      * rewrite add_allocation_stored by exact Hroom. lia.
      * rewrite add_allocation_full by exact Hroom. lia.
  - unfold covered, release_allocation.
    pose proof (remove_allocation_spec (g_ctx st) devPtr) as Hspec.
    destruct (remove_allocation (g_ctx st) devPtr) as [sz c1].
    destruct Hspec as (_ & Hu & _ & _ & _ & _ & _ & _ & Hl & Hrest).
    destruct (Hrest Hsizes) as [Hsizes1 Hsz].
    destruct (0 <? sz) eqn:Epos.
    + replace (sz <=? quota_used c1) with true by (symmetry; apply Z.leb_le; lia).
      cbn. split; [assumption | lia].
    + apply Z.ltb_ge in Epos. split; [assumption | lia].
Qed.

Lemma run_covered env (cs : list api_call) : forall st st',
  initialized (g_ctx st) = true -> covered (g_ctx st) ->
  commits_in_range env st cs = true ->
  run env st cs = Some st' -> covered (g_ctx st').
Proof.
  induction cs as [|c cs IH]; intros st st' Hi Hcov Hrange Hrun;
    cbn [run commits_in_range] in *.
  - now injection Hrun as <-.
  - destruct (step env st c) as [[[r st1] calls]|] eqn:Hstep; [|discriminate].
    apply andb_true_iff in Hrange as [Hc Hrest].
    apply (IH st1 st'); auto.
    + apply (step_keeps_config env st st c r st1 calls
               (ensure_init_initialized env st Hi) Hstep).
    + eapply step_covered; eassumption.
Qed.

(** X1. The counter never passes the limit.  From every initialized state
    with [0 <= quota_used <= quota_limit], whatever the limit is (so from the
    state that [hcs_init] leaves), every sequence of calls made by one thread
    runs, keeps the limit, and leaves [0 <= quota_used <= quota_limit]: a
    bound on the counter, which is kept modulo 2^64.  When moreover the sizes
    of the entries in use sum to at most [quota_used] at the start and no
    allocation of the sequence commits with [quota_used + size] above
    [SIZE_MAX], the sizes of the entries in use sum to at most [quota_used],
    so to at most the limit, at the end. *)
Theorem quota_never_exceeded env st (cs : list api_call) :
  initialized (g_ctx st) = true ->
  0 <= quota_used (g_ctx st) <= quota_limit (g_ctx st) ->
  exists st', run env st cs = Some st' /\
    quota_limit (g_ctx st') = quota_limit (g_ctx st) /\
    0 <= quota_used (g_ctx st') <= quota_limit (g_ctx st') /\
    (covered (g_ctx st) -> commits_in_range env st cs = true ->
     live_bytes (allocations (g_ctx st')) <= quota_used (g_ctx st')
     /\ live_bytes (allocations (g_ctx st')) <= quota_limit (g_ctx st')).
Proof.
  intros Hi Hbound.
  destruct (run_invariant env
              (fun c => quota_limit c = quota_limit (g_ctx st)
                        /\ 0 <= quota_used c <= quota_limit c))
    with (cs := cs) (st := st) as (st' & Hrun & _ & Hl & Hu); auto.
  - intros s1 c ctx' _ [Hl Hu] Ht.
    destruct Ht as [c | f devPtr sz reply Hover
                   | f devPtr sz reply h Hcommit Hh | f devPtr reply].
    + auto.
    + cbn. auto.
    + destruct (commit_allocation_spec (g_ctx s1) h sz) as (Hl' & Hu' & _).
      rewrite Hl', Hu'. split; [exact Hl|].
      apply alloc_commits_true in Hcommit as (_ & Hover & _).
      rewrite lazy_load_ctx in Hover. unfold over_quota in Hover.
      apply Z.ltb_ge in Hover.
      pose proof (wrap64_range (quota_used (g_ctx s1) + sz)). lia.
    + destruct (release_allocation_frame (g_ctx s1) devPtr)
        as (Hl' & _ & _ & _ & _ & _ & _ & Hu').
      rewrite Hl'. split; [exact Hl|]. specialize (Hu' ltac:(lia)). lia.
  - exists st'. split; [exact Hrun|]. split; [exact Hl|]. split; [exact Hu|].
    intros Hcov Hrange.
    destruct (run_covered env cs st st' Hi Hcov Hrange Hrun) as [_ Hlive]. lia.
Qed.

(** An instance: 200 bytes more, then the free of the 300 bytes, with 300 of
    1000 bytes in use. *)
Lemma quota_never_exceeded_witness :
  exists st',
    run env_default program_tracking
      [cuda_alloc 200 8192; Free fn_cudaFree 4096 0] = Some st' /\
    0 <= quota_used (g_ctx st') <= quota_limit (g_ctx st') /\
    live_bytes (allocations (g_ctx st')) <= quota_limit (g_ctx st').
Proof.
  destruct (quota_never_exceeded env_default program_tracking
              [cuda_alloc 200 8192; Free fn_cudaFree 4096 0] eq_refl)
    as (st' & Hrun & _ & Hu & Hlive).
  - cbn. lia.
  - exists st'. split; [exact Hrun|]. split; [exact Hu|].
    apply Hlive; [|reflexivity].
    split; [repeat constructor; cbn; lia | cbn; lia].
Defined.

(** An instance of a sequence for the properties of the reachable states:
    the second scenario of the test program. *)
Lemma init_quota_1Gi :
  hcs_init (env_quota "1Gi") program_initial
  = Some (load_real_functions (env_quota "1Gi")
            (set_g_ctx program_initial
               {| quota_limit := 1073741824; quota_used := 0; allocations := [];
                  peak_usage := 0; total_allocs := 0; total_frees := 0;
                  failed_allocs := 0; log_level := LOG_WARN;
                  initialized := true |})).
Proof. vm_compute. reflexivity. Qed.

(* ------------------------------------------------------------------------ *)
(** ** The peak *)

Lemma step_peak env st (c : api_call) r st' calls :
  step env st c = Some (r, st', calls) ->
  peak_usage (g_ctx st) <= peak_usage (g_ctx st').
Proof.
  intros Hstep.
  destruct (step_defined env st c) as [[_ Hnone]|(st1 & Hinit & _)]; [congruence|].
  destruct (ensure_init_accounting env st st1 Hinit) as [[= _ Hpeak _ _ _ _] _].
  rewrite <- Hpeak.
  destruct (step_transition env st st1 c r st' calls Hinit Hstep)
    as [c | f devPtr sz reply Hover | f devPtr sz reply h Hcommit Hh | f devPtr reply].
  - lia.
  - cbn. lia.
  - destruct (commit_allocation_frame (g_ctx st1) h sz) as [-> _]. lia.
  - destruct (release_allocation_frame (g_ctx st1) devPtr) as (_ & -> & _). lia.
Qed.

(** X2. [peak_usage] is a high-water mark.  After every sequence of calls
    from the static state [quota_used] is at most [peak_usage]; and from any
    state whatever, no sequence of calls lowers [peak_usage]. *)
Theorem peak_is_high_water_mark env :
  (forall st0 cs, hcs_init env program_initial = Some st0 ->
     exists st, run env program_initial cs = Some st /\
       0 <= quota_used (g_ctx st) <= peak_usage (g_ctx st)) /\
  (forall cs st st', run env st cs = Some st' ->
     peak_usage (g_ctx st) <= peak_usage (g_ctx st')).
Proof.
  split.
  - intros st0 cs Hinit.
    destruct (init_state env st0 Hinit) as (_ & _ & Hused & Hpeak & _).
    destruct (reachable_invariant env
                (fun c => 0 <= quota_used c <= peak_usage c) st0 Hinit)
      with (cs := cs) as (st & st1 & Hrun & _ & _ & HP & Hcase).
    + rewrite Hused, Hpeak. lia.
    + intros s1 c ctx' _ Hu Ht.
      destruct Ht as [c | f devPtr sz reply Hover
                     | f devPtr sz reply h Hcommit Hh | f devPtr reply].
      * exact Hu.
      * exact Hu.
      * destruct (commit_allocation_spec (g_ctx s1) h sz) as (_ & -> & _).
        destruct (commit_allocation_frame (g_ctx s1) h sz) as [-> _].
        pose proof (wrap64_range (quota_used (g_ctx s1) + sz)). lia.
      * destruct (release_allocation_frame (g_ctx s1) devPtr)
          as (_ & -> & _ & _ & _ & _ & _ & Hu').
        specialize (Hu' ltac:(lia)). lia.
    + exists st. split; [exact Hrun|].
      destruct Hcase as [[_ ->] | <-]; [cbn; lia | exact HP].
  - induction cs as [|c cs IH]; intros st st' Hrun; cbn [run] in Hrun.
    + injection Hrun as <-. lia.
    + destruct (step env st c) as [[[r st1] calls]|] eqn:Hstep; [|discriminate].
      pose proof (step_peak env st c r st1 calls Hstep).
      specialize (IH st1 st' Hrun). lia.
Qed.

(** An instance: the peak after the first scenario of the test program. *)
Lemma peak_is_high_water_mark_witness :
  exists st,
    run (env_quota "1Gi") program_initial scenario_quota_enforcement = Some st /\
    0 <= quota_used (g_ctx st) <= peak_usage (g_ctx st).
Proof.
  apply (proj1 (peak_is_high_water_mark (env_quota "1Gi")) _
           scenario_quota_enforcement init_quota_1Gi).
Defined.

(* ------------------------------------------------------------------------ *)
(** ** The configuration *)

(** X3. Once the library is initialized, no sequence of calls changes the
    limit, the log level or the latch, and running [hcs_init] again, under
    any environment, changes nothing: the quota string is read once. *)
Theorem configuration_is_fixed env st (cs : list api_call) st' :
  initialized (g_ctx st) = true ->
  run env st cs = Some st' ->
  initialized (g_ctx st') = true /\
  quota_limit (g_ctx st') = quota_limit (g_ctx st) /\
  log_level (g_ctx st') = log_level (g_ctx st) /\
  forall env', hcs_init env' st' = Some st'.
Proof.
  intros Hi Hrun.
  destruct (run_invariant env
              (fun c => quota_limit c = quota_limit (g_ctx st)
                        /\ log_level c = log_level (g_ctx st)))
    with (cs := cs) (st := st) as (st2 & Hrun2 & Hi2 & Hl & Hlog); auto.
  - intros s1 c ctx' _ [Hl Hlog] Ht.
    destruct Ht as [c | f devPtr sz reply Hover
                   | f devPtr sz reply h Hcommit Hh | f devPtr reply].
    + auto.
    + cbn. auto.
    + destruct (commit_allocation_spec (g_ctx s1) h sz) as (-> & _).
      destruct (commit_allocation_frame (g_ctx s1) h sz) as [_ ->]. auto.
    + destruct (release_allocation_frame (g_ctx s1) devPtr)
        as (-> & _ & _ & _ & -> & _). auto.
  - rewrite Hrun in Hrun2. injection Hrun2 as <-.
    repeat split; auto.
    intros env'. unfold hcs_init. now rewrite Hi2.
Qed.

(** An instance: a denied request and a free in the state with 300 of 1000
    bytes in use. *)
Lemma configuration_is_fixed_witness :
  exists st',
    run env_default program_tracking
      [cuda_alloc 800 8192; Free fn_cudaFree 4096 0] = Some st' /\
    quota_limit (g_ctx st') = 1000 /\
    hcs_init (env_quota "16Gi") st' = Some st'.
Proof.
  destruct (run_defined env_default [cuda_alloc 800 8192; Free fn_cudaFree 4096 0]
              program_tracking program_tracking eq_refl) as (st' & Hrun).
  destruct (configuration_is_fixed env_default program_tracking _ st' eq_refl Hrun)
    as (_ & Hl & _ & Hinit).
  exists st'. repeat split; auto.
Defined.

(* ------------------------------------------------------------------------ *)
(** ** The memory an application sees *)

(** X4. After every sequence of calls from the static state, a memory-info
    query whose vendor function is present and succeeds reports a total equal
    to the limit and a free amount with [free + quota_used = total]: the
    application always sees [0 <= free <= total], and the bytes it holds and
    the bytes reported free add up to its quota. *)
Theorem memory_info_adds_up env st0 (cs : list api_call) :
  hcs_init env program_initial = Some st0 ->
  exists st, run env program_initial cs = Some st /\
    forall (f : query_fn) free total reply,
      dlsym env (query_symbol f) = true ->
      query_result reply = v_success (query_abi f) ->
      exists o fr tot,
        call_query f env st free total reply = Some o /\
        ret o = v_success (query_abi f) /\ outputs o = (fr, tot) /\
        tot = quota_limit (g_ctx (post o)) /\
        fr + quota_used (g_ctx (post o)) = tot /\ 0 <= fr <= tot.
Proof.
  intros Hinit.
  destruct (init_state env st0 Hinit) as (_ & Hlim & Hused & _).
  destruct (reachable_invariant env
              (fun c => 0 <= quota_used c <= quota_limit c) st0 Hinit)
    with (cs := cs) as (st & st1 & Hrun & Hinit1 & _ & HP & _).
  - rewrite Hused. lia.
  - intros s1 c ctx' _ Hu Ht.
    destruct Ht as [c | f devPtr sz reply Hover
                   | f devPtr sz reply h Hcommit Hh | f devPtr reply].
    + exact Hu.
    + exact Hu.
    + destruct (commit_allocation_spec (g_ctx s1) h sz) as (Hl' & Hu' & _).
      rewrite Hl', Hu'.
      apply alloc_commits_true in Hcommit as (_ & Hover & _).
      rewrite lazy_load_ctx in Hover. unfold over_quota in Hover.
      apply Z.ltb_ge in Hover.
      pose proof (wrap64_range (quota_used (g_ctx s1) + sz)). lia.
    + destruct (release_allocation_frame (g_ctx s1) devPtr)
        as (Hl' & _ & _ & _ & _ & _ & _ & Hu').
      rewrite Hl'. specialize (Hu' ltac:(lia)). lia.
  - exists st. split; [exact Hrun|].
    intros f free total reply Hsym Hok.
    rewrite call_query_unfold. unfold intercept_query. rewrite Hinit1. cbv zeta.
    rewrite lazy_load_real. unfold resolves. rewrite Hsym, orb_true_r.
    cbn [negb]. apply Z.eqb_eq in Hok. rewrite Hok. cbn [negb].
    rewrite lazy_load_ctx.
    eexists. eexists. eexists. split; [reflexivity|].
    cbn [ret outputs post]. rewrite lazy_load_ctx.
    split; [reflexivity|]. split; [reflexivity|]. split; [reflexivity|].
    destruct (quota_used (g_ctx st1) <? quota_limit (g_ctx st1)) eqn:E;
      [apply Z.ltb_lt in E | apply Z.ltb_ge in E]; lia.
Qed.

(** An instance: [cudaMemGetInfo] after the first scenario of the test
    program, on a device that reports 16 GiB. *)
Lemma memory_info_adds_up_witness :
  exists st fr tot o,
    run (env_quota "1Gi") program_initial scenario_quota_enforcement = Some st /\
    call_query fn_cudaMemGetInfo (env_quota "1Gi") st 0 0
      {| query_result := 0; query_free := 17179869184; query_total := 17179869184 |}
    = Some o /\ outputs o = (fr, tot) /\ 0 <= fr <= tot.
Proof.
  destruct (memory_info_adds_up (env_quota "1Gi") _ scenario_quota_enforcement
              init_quota_1Gi) as (st & Hrun & Hq).
  destruct (Hq fn_cudaMemGetInfo 0 0
              {| query_result := 0; query_free := 17179869184;
                 query_total := 17179869184 |} eq_refl eq_refl)
    as (o & fr & tot & Ho & _ & Hout & _ & _ & Hrange).
  exists st, fr, tot, o. auto.
Defined.

(* ------------------------------------------------------------------------ *)
(** ** The table stays within the array *)

Lemma add_allocation_count (c : quota_context_t) (p sz : Z) :
  allocation_count (snd (add_allocation c p sz))
  = if 0 <=? unused_from 0 (allocations c) then allocation_count c
    else if allocation_count c <? MAX_ALLOCATIONS then allocation_count c + 1
    else allocation_count c.
Proof.
  unfold add_allocation, allocation_count.
  destruct (0 <=? unused_from 0 (allocations c)).
  - cbn. now rewrite update_slot_length.
  - destruct (Z.of_nat (List.length (allocations c)) <? MAX_ALLOCATIONS); cbn;
      [|reflexivity].
    rewrite length_app. cbn [List.length]. lia.
Qed.

(** X5. After every sequence of calls from the static state the number of
    slots in use by the table, [allocation_count], is between 0 and
    [MAX_ALLOCATIONS]: no insertion writes past the end of the array
    [allocations]. *)
Theorem table_within_capacity env st0 (cs : list api_call) :
  hcs_init env program_initial = Some st0 ->
  exists st, run env program_initial cs = Some st /\
    0 <= allocation_count (g_ctx st) <= MAX_ALLOCATIONS.
Proof.
  intros Hinit.
  destruct (init_state env st0 Hinit) as (_ & _ & _ & _ & Htable & _).
  destruct (reachable_invariant env
              (fun c => 0 <= allocation_count c <= MAX_ALLOCATIONS) st0 Hinit)
    with (cs := cs) as (st & st1 & Hrun & _ & _ & HP & Hcase).
  - unfold allocation_count, MAX_ALLOCATIONS. rewrite Htable. cbn. lia.
  - intros s1 c ctx' _ Hn Ht.
    destruct Ht as [c | f devPtr sz reply Hover
                   | f devPtr sz reply h Hcommit Hh | f devPtr reply].
    + exact Hn.
    + exact Hn.
    + destruct (commit_allocation_spec (g_ctx s1) h sz) as (_ & _ & _ & _ & _ & _ & Ht).
      unfold allocation_count in *. rewrite Ht.
      pose proof (add_allocation_count (g_ctx s1) h sz) as Hc.
      unfold allocation_count in Hc. rewrite Hc.
      destruct (0 <=? unused_from 0 (allocations (g_ctx s1))); [exact Hn|].
      destruct (Z.of_nat (List.length (allocations (g_ctx s1))) <? MAX_ALLOCATIONS) eqn:E;
        [apply Z.ltb_lt in E; lia | exact Hn].
    + destruct (release_allocation_frame (g_ctx s1) devPtr)
        as (_ & _ & _ & _ & _ & _ & Hlen & _).
      unfold allocation_count in *. rewrite Hlen. exact Hn.
  - exists st. split; [exact Hrun|].
    destruct Hcase as [[_ ->] | <-]; [cbn; unfold MAX_ALLOCATIONS; lia | exact HP].
Qed.

(** An instance: the second scenario of the test program. *)
Lemma table_within_capacity_witness :
  exists st,
    run (env_quota "1Gi") program_initial scenario_multiple_allocations = Some st /\
    0 <= allocation_count (g_ctx st) <= MAX_ALLOCATIONS.
Proof.
  apply (table_within_capacity (env_quota "1Gi") _
           scenario_multiple_allocations init_quota_1Gi).
Defined.

(* ------------------------------------------------------------------------ *)
(** ** The contracts of the table operations *)

Lemma tracked_app (l1 l2 : list allocation_entry_t) (q : Z) :
  tracked (l1 ++ l2) q <-> tracked l1 q \/ tracked l2 q.
Proof.
  unfold tracked. split.
  - intros (e & Hin & He). apply in_app_or in Hin as [Hin|Hin]; [left|right]; eauto.
  - intros [(e & Hin & He)|(e & Hin & He)]; exists e; (split; [|exact He]);
      apply in_or_app; auto.
Qed.

Lemma tracked_cons (e : allocation_entry_t) (l : list allocation_entry_t) (q : Z) :
  tracked (e :: l) q <-> (in_use e = true /\ ptr e = q) \/ tracked l q.
Proof.
  unfold tracked. split.
  - intros (x & [<-|Hin] & He); [left; exact He | right; eauto].
  - intros [He|(x & Hin & He)]; [exists e | exists x]; cbn; auto.
Qed.

Lemma tracked_nil (q : Z) : ~ tracked [] q.
Proof. intros (e & [] & _). Qed.

(** X7. [find_allocation] returns [-1] exactly when no entry in use holds
    the handle; otherwise it returns an index inside the table, the entry
    there is in use and holds the handle, and no entry before it does. *)
Theorem find_allocation_contract (c : quota_context_t) (p : Z) :
  (find_allocation c p = -1 /\ ~ tracked (allocations c) p) \/
  (0 <= find_allocation c p < allocation_count c /\
   tracked (allocations c) p /\
   exists e, nth_error (allocations c) (Z.to_nat (find_allocation c p)) = Some e /\
     in_use e = true /\ ptr e = p /\
     forall j e', (j < Z.to_nat (find_allocation c p))%nat ->
       nth_error (allocations c) j = Some e' ->
       ~ (in_use e' = true /\ ptr e' = p)).
Proof.
  unfold find_allocation, allocation_count.
  destruct (find_from_spec p (allocations c) 0)
    as [[Hf Hn]|[(l1 & e & l2 & Hl & Hl1 & He & Hp & Hf)|Hneg]]; [left; auto| |lia].
  right. rewrite Hf, Hl, Z.add_0_l, Nat2Z.id, length_app. cbn [List.length].
  split; [lia|]. split.
  { apply tracked_app. right. apply tracked_cons. auto. }
  exists e. split; [|split; [exact He|split; [exact Hp|]]].
  - rewrite nth_error_app2 by lia. now rewrite Nat.sub_diag.
  - intros j e' Hj Hnth He'. apply Hl1. exists e'. split; [|exact He'].
    rewrite nth_error_app1 in Hnth by exact Hj.
    eapply nth_error_In; eassumption.
Qed.

(** The shape of a stored insertion: the new entry replaces the first unused
    slot, or is appended behind slots that are all in use. *)
Lemma add_allocation_shape (c : quota_context_t) (p sz : Z) :
  has_room c = true ->
  exists l1 pre l2,
    allocations c = l1 ++ pre ++ l2 /\
    allocations (snd (add_allocation c p sz))
    = l1 ++ {| ptr := p; size := sz; in_use := true |} :: l2 /\
    (pre = [] /\ l2 = [] \/ exists e, pre = [e] /\ in_use e = false).
Proof.
  unfold has_room, add_allocation. intros Hroom.
  destruct (unused_from_spec (allocations c) 0)
    as [[Hu _]|[(l1 & e & l2 & Hl & _ & He & Hu)|Hneg]]; [| |lia].
  - rewrite Hu in *. cbn in Hroom. cbn [Z.leb Z.compare]. rewrite Hroom. cbn.
    exists (allocations c), [], []. rewrite !app_nil_r. auto.
  - rewrite Hu. replace (0 <=? 0 + Z.of_nat (List.length l1)) with true
      by (symmetry; apply Z.leb_le; lia).
    cbn. rewrite ?Z.add_0_l, Nat2Z.id, Hl, update_slot_middle.
    exists l1, [e], l2. repeat split; eauto.
Qed.

(** The shape of a removal: nothing for an untracked handle, else the first
    entry in use for the handle is marked unused. *)
Lemma remove_allocation_shape (c : quota_context_t) (p : Z) :
  (~ tracked (allocations c) p /\ remove_allocation c p = (0, c)) \/
  (exists l1 e l2,
     allocations c = l1 ++ e :: l2 /\ ~ tracked l1 p /\
     in_use e = true /\ ptr e = p /\
     fst (remove_allocation c p) = size e /\
     allocations (snd (remove_allocation c p))
     = l1 ++ {| ptr := ptr e; size := size e; in_use := false |} :: l2).
Proof.
  destruct (find_from_spec p (allocations c) 0)
    as [[Hf Hn]|[(l1 & e & l2 & Hl & Hl1 & He & Hp & Hf)|Hneg]]; [| |lia].
  - left. split; [exact Hn | now apply remove_untracked].
  - right. exists l1, e, l2. unfold remove_allocation, find_allocation.
    rewrite Hf. replace (0 <=? 0 + Z.of_nat (List.length l1)) with true
      by (symmetry; apply Z.leb_le; lia).
    cbn [fst snd]. rewrite ?Z.add_0_l, Nat2Z.id, Hl, nth_middle_entry, update_slot_middle.
    cbn. repeat split; auto.
Qed.

Lemma add_allocation_result (c : quota_context_t) (p sz : Z) :
  fst (add_allocation c p sz) = has_room c.
Proof.
  unfold add_allocation, has_room.
  destruct (0 <=? unused_from 0 (allocations c)); [reflexivity|].
  destruct (allocation_count c <? MAX_ALLOCATIONS); reflexivity.
Qed.

Lemma add_allocation_tracks (c : quota_context_t) (p sz : Z) :
  has_room c = true -> tracked (allocations (snd (add_allocation c p sz))) p.
Proof.
  intros Hroom.
  destruct (add_allocation_shape c p sz Hroom) as (l1 & pre & l2 & _ & -> & _).
  apply tracked_app. right. apply tracked_cons. left. auto.
Qed.

Lemma remove_allocation_count (c : quota_context_t) (p : Z) :
  allocation_count (snd (remove_allocation c p)) = allocation_count c.
Proof.
  unfold allocation_count, remove_allocation.
  destruct (0 <=? find_allocation c p); [|reflexivity].
  cbn. now rewrite update_slot_length.
Qed.

(** X8. [add_allocation] returns [false] exactly when every slot is in use
    and the table has [MAX_ALLOCATIONS] slots or more, and then changes
    nothing.  Otherwise it returns [true], the handle is tracked after it,
    every handle that was tracked still is, and no other handle becomes
    tracked. *)
Theorem add_allocation_contract (c : quota_context_t) (p sz : Z) :
  fst (add_allocation c p sz) = has_room c /\
  (has_room c = false <->
     Forall (fun e => in_use e = true) (allocations c)
     /\ MAX_ALLOCATIONS <= allocation_count c) /\
  (has_room c = false -> snd (add_allocation c p sz) = c) /\
  (has_room c = true ->
     tracked (allocations (snd (add_allocation c p sz))) p /\
     forall q, q <> p ->
       (tracked (allocations (snd (add_allocation c p sz))) q
        <-> tracked (allocations c) q)).
Proof.
  split; [|split; [|split]].
  - apply add_allocation_result.
  - unfold has_room. split.
    + intros H. apply orb_false_iff in H as [Hu Hn]. apply Z.ltb_ge in Hn.
      split; [|exact Hn].
      destruct (unused_from_spec (allocations c) 0)
        as [[_ HF]|[(l1 & e & l2 & _ & _ & _ & Hidx)|Hneg]]; [exact HF| |lia].
      rewrite Hidx in Hu. apply Z.leb_gt in Hu. lia.
    + intros [HF Hn]. rewrite (unused_all_in_use _ HF). cbn.
      apply Z.ltb_ge. exact Hn.
  - apply add_allocation_full.
  - intros Hroom.
    destruct (add_allocation_shape c p sz Hroom)
      as (l1 & pre & l2 & Hc & Hadd & Hpre).
    rewrite Hadd, Hc. split.
    + apply tracked_app. right. apply tracked_cons. left. auto.
    + intros q Hq. rewrite !tracked_app, tracked_cons. cbn.
      destruct Hpre as [[-> ->]|(e & -> & He)].
      * split; [intros [H|[[_ H]|H]] | intros [H|[H|H]]]; auto;
          try contradiction; try (now apply tracked_nil in H); congruence.
      * rewrite tracked_cons. split.
        -- intros [H|[[_ H]|H]]; auto; congruence.
        -- intros [H|[[[H _]|H]|H]]; auto; try congruence.
           now apply tracked_nil in H.
Qed.

(** An instance: an insertion into the table that holds one entry. *)
Lemma add_allocation_contract_witness :
  tracked (allocations (snd (add_allocation (g_ctx program_tracking) 8192 64))) 8192.
Proof.
  destruct (add_allocation_contract (g_ctx program_tracking) 8192 64)
    as (_ & _ & _ & Hstored).
  exact (proj1 (Hstored eq_refl)).
Defined.

(** X9. [remove_allocation] keeps the number of slots, returns 0 and changes
    nothing for a handle that is not tracked, and for a tracked handle
    returns the size of an entry in use for it; in both cases every other
    handle is tracked after it exactly when it was before. *)
Theorem remove_allocation_contract (c : quota_context_t) (p : Z) :
  allocation_count (snd (remove_allocation c p)) = allocation_count c /\
  (~ tracked (allocations c) p -> remove_allocation c p = (0, c)) /\
  (tracked (allocations c) p ->
     exists e, In e (allocations c) /\ in_use e = true /\ ptr e = p /\
       fst (remove_allocation c p) = size e) /\
  (forall q, q <> p ->
     (tracked (allocations (snd (remove_allocation c p))) q
      <-> tracked (allocations c) q)).
Proof.
  split; [|split; [apply remove_untracked|split]].
  - apply remove_allocation_count.
  - intros Ht.
    destruct (remove_allocation_shape c p)
      as [[Hn _]|(l1 & e & l2 & Hl & _ & He & Hp & Hsz & _)]; [contradiction|].
    exists e. rewrite Hl. repeat split; auto. apply in_elt.
  - intros q Hq.
    destruct (remove_allocation_shape c p)
      as [[_ ->]|(l1 & e & l2 & Hl & _ & He & Hp & _ & Ht)]; [reflexivity|].
    rewrite Ht, Hl, !tracked_app, !tracked_cons. cbn.
    split; intros [H|[[H1 H2]|H]]; auto; congruence.
Qed.

(** An instance: the removal of the one tracked handle. *)
Lemma remove_allocation_contract_witness :
  exists e, In e (allocations (g_ctx program_tracking)) /\ in_use e = true /\
    ptr e = 4096 /\ fst (remove_allocation (g_ctx program_tracking) 4096) = size e.
Proof.
  apply (proj1 (proj2 (proj2 (remove_allocation_contract (g_ctx program_tracking) 4096)))).
  eexists. split; [left; reflexivity|]. split; reflexivity.
Defined.

(** X6. Slot recycling: after the removal of a tracked handle the next
    insertion always succeeds, also when the table holds [MAX_ALLOCATIONS]
    entries, tracks the new handle, and leaves the number of slots
    unchanged. *)
Theorem freed_slot_is_reused (c : quota_context_t) (p q sz : Z) :
  tracked (allocations c) p ->
  let c1 := snd (remove_allocation c p) in
  fst (add_allocation c1 q sz) = true /\
  tracked (allocations (snd (add_allocation c1 q sz))) q /\
  allocation_count (snd (add_allocation c1 q sz)) = allocation_count c.
Proof.
  intros Ht c1.
  assert (Hunused : (0 <=? unused_from 0 (allocations c1)) = true).
  { subst c1. destruct (remove_allocation_shape c p)
      as [[Hn _]|(l1 & e & l2 & _ & _ & _ & _ & _ & Hshape)]; [contradiction|].
    rewrite Hshape.
    destruct (unused_from_spec
                (l1 ++ {| ptr := ptr e; size := size e; in_use := false |} :: l2) 0)
      as [[_ HF]|[(k1 & x & k2 & _ & _ & _ & Hidx)|Hneg]]; [| |lia].
    - rewrite Forall_forall in HF.
      specialize (HF _ (in_elt _ _ _)). discriminate HF.
    - rewrite Hidx. apply Z.leb_le. lia. }
  assert (Hroom : has_room c1 = true).
  { unfold has_room. now rewrite Hunused. }
  split; [now rewrite add_allocation_result|].
  split; [now apply add_allocation_tracks|].
  rewrite add_allocation_count, Hunused. subst c1.
  apply remove_allocation_count.
Qed.

(** An instance: the one tracked handle is removed and another inserted. *)
Lemma freed_slot_is_reused_witness :
  allocation_count
    (snd (add_allocation (snd (remove_allocation (g_ctx program_tracking) 4096)) 8192 64))
  = 1.
Proof.
  apply (freed_slot_is_reused (g_ctx program_tracking) 4096 8192 64).
  eexists. split; [left; reflexivity|]. split; reflexivity.
Defined.

(* ------------------------------------------------------------------------ *)
(** ** What the hooks do to the accounting *)

(** An admitted allocation that the real allocator answers with success and
    a non-NULL handle is committed. *)
Lemma alloc_committed (f : alloc_fn) env st st1 devPtr sz reply h :
  ensure_init env st = Some st1 ->
  resolves env st1 (alloc_symbol f) = true ->
  over_quota (g_ctx st1) sz = false ->
  alloc_result reply = v_success (alloc_abi f) ->
  handle_after devPtr reply = Some h -> h <> 0 ->
  exists o, call_alloc f env st devPtr sz reply = Some o /\
    ret o = v_success (alloc_abi f) /\ outputs o = Some h /\
    real_calls o = [alloc_symbol f] /\
    g_ctx (post o) = commit_allocation (g_ctx st1) h sz /\
    ensure_init env (post o) = Some (post o) /\
    forall s, resolves env (post o) s = resolves env st1 s.
Proof.
  intros Hinit Hres Hover Hok Hh Hnz. rewrite call_alloc_unfold.
  destruct (intercept_alloc_admitted (alloc_abi f) (alloc_symbol f) env st st1
              devPtr sz reply Hinit Hres Hover)
    as (o & Ho & Hret & Hcalls & Hout & Hreal & Hctx).
  assert (Hcommit : g_ctx (post o) = commit_allocation (g_ctx st1) h sz).
  { rewrite Hctx. unfold alloc_commits.
    rewrite lazy_load_real, Hres, lazy_load_ctx, Hover, Hh, Hok, Z.eqb_refl.
    apply Z.eqb_neq in Hnz. rewrite Hnz. reflexivity. }
  exists o. split; [exact Ho|]. split; [congruence|]. split; [congruence|].
  split; [exact Hcalls|]. split; [exact Hcommit|]. split.
  - apply ensure_init_initialized. rewrite Hcommit.
    destruct (commit_allocation_spec (g_ctx st1) h sz) as (_ & _ & _ & _ & _ & -> & _).
    apply (ensure_init_accounting env st st1 Hinit).
  - intros s. unfold resolves at 1. rewrite Hreal.
    change (resolves env (lazy_load env st1 (alloc_symbol f)) s = resolves env st1 s).
    apply resolves_lazy_load.
Qed.

(** X18. An allocate call that passes the admission check, with the real
    allocator returning success and a non-NULL handle, returns success and is
    counted: [quota_used] grows by the size (in [size_t] arithmetic),
    [total_allocs] by one, [peak_usage] becomes the larger of its old value
    and the new [quota_used], the limit, [total_frees] and [failed_allocs]
    stay, and when the table has room the handle is tracked and the sizes in
    use grow by the size. *)
Theorem successful_allocation_is_counted (f : alloc_fn) env st st1 devPtr sz reply h :
  ensure_init env st = Some st1 ->
  resolves env st1 (alloc_symbol f) = true ->
  over_quota (g_ctx st1) sz = false ->
  alloc_result reply = v_success (alloc_abi f) ->
  handle_after devPtr reply = Some h -> h <> 0 ->
  exists o, call_alloc f env st devPtr sz reply = Some o /\
    ret o = v_success (alloc_abi f) /\ outputs o = Some h /\
    real_calls o = [alloc_symbol f] /\
    quota_used (g_ctx (post o)) = wrap64 (quota_used (g_ctx st1) + sz) /\
    total_allocs (g_ctx (post o)) = wrap64 (total_allocs (g_ctx st1) + 1) /\
    peak_usage (g_ctx (post o))
    = Z.max (peak_usage (g_ctx st1)) (quota_used (g_ctx (post o))) /\
    quota_limit (g_ctx (post o)) = quota_limit (g_ctx st1) /\
    total_frees (g_ctx (post o)) = total_frees (g_ctx st1) /\
    failed_allocs (g_ctx (post o)) = failed_allocs (g_ctx st1) /\
    (has_room (g_ctx st1) = true ->
       tracked (allocations (g_ctx (post o))) h /\
       live_bytes (allocations (g_ctx (post o)))
       = live_bytes (allocations (g_ctx st1)) + sz).
Proof.
  intros Hinit Hres Hover Hok Hh Hnz.
  destruct (alloc_committed f env st st1 devPtr sz reply h Hinit Hres Hover Hok Hh Hnz)
    as (o & Ho & Hret & Hout & Hcalls & Hctx & _).
  exists o. rewrite Hctx.
  destruct (commit_allocation_spec (g_ctx st1) h sz)
    as (Hl & Hu & Hta & Htf & Hfa & _ & Ht).
  destruct (commit_allocation_frame (g_ctx st1) h sz) as [Hp _].
  rewrite Hu, Hta, Hp, Hl, Htf, Hfa, Ht. repeat split; auto.
  - now apply add_allocation_tracks.
  - now apply add_allocation_stored.
Qed.

(** An instance: [hipMalloc] of 200 bytes with 300 of 1000 in use. *)
Lemma successful_allocation_is_counted_witness :
  exists o,
    call_alloc fn_hipMalloc env_default program_tracking (Some 0) 200
      {| alloc_result := 0; alloc_stored := Some 8192 |} = Some o /\
    quota_used (g_ctx (post o)) = 500 /\ total_allocs (g_ctx (post o)) = 2.
Proof.
  destruct (successful_allocation_is_counted fn_hipMalloc env_default
              program_tracking program_tracking (Some 0) 200
              {| alloc_result := 0; alloc_stored := Some 8192 |} 8192
              eq_refl eq_refl eq_refl eq_refl eq_refl)
    as (o & Ho & _ & _ & _ & Hu & Hta & _); [discriminate|].
  exists o. auto.
Defined.

(** X17. An allocate call that is rejected by the library itself, because
    the binding does not resolve or because the admission check fails, never
    calls the real allocator, never returns the vendor's success code, and
    leaves the handle behind [devPtr] as it was (a NULL handle stays NULL). *)
Theorem rejected_allocation_leaves_handle (f : alloc_fn) env st st1 devPtr sz reply :
  ensure_init env st = Some st1 ->
  resolves env st1 (alloc_symbol f) = false \/ over_quota (g_ctx st1) sz = true ->
  exists o, call_alloc f env st devPtr sz reply = Some o /\
    real_calls o = [] /\ outputs o = devPtr /\
    ret o <> v_success (alloc_abi f) /\
    quota_used (g_ctx (post o)) = quota_used (g_ctx st1) /\
    allocations (g_ctx (post o)) = allocations (g_ctx st1).
Proof.
  intros Hinit Hrej. rewrite call_alloc_unfold. unfold intercept_alloc.
  rewrite Hinit. cbv zeta. rewrite lazy_load_real, lazy_load_ctx.
  destruct (resolves env st1 (alloc_symbol f)) eqn:Hres; cbn [negb].
  - destruct Hrej as [Hrej|Hover]; [discriminate|]. rewrite Hover.
    eexists. split; [reflexivity|]. cbn. repeat split.
    destruct f; cbn; discriminate.
  - eexists. split; [reflexivity|]. cbn. rewrite lazy_load_ctx. repeat split.
    destruct f; cbn; discriminate.
Qed.

(** An instance: the 800-byte request with 300 of 1000 bytes in use. *)
Lemma rejected_allocation_leaves_handle_witness :
  exists o,
    call_alloc fn_cudaMalloc env_default program_tracking (Some 0) 800
      {| alloc_result := 0; alloc_stored := Some 8192 |} = Some o /\
    real_calls o = [] /\ outputs o = Some 0.
Proof.
  destruct (rejected_allocation_leaves_handle fn_cudaMalloc env_default
              program_tracking program_tracking (Some 0) 800
              {| alloc_result := 0; alloc_stored := Some 8192 |}
              eq_refl (or_intror eq_refl))
    as (o & Ho & Hcalls & Hout & _).
  exists o. auto.
Defined.

(** X19. A free whose binding resolves always calls the real free, once,
    and returns its code, whatever the handle; it never changes the limit,
    the peak, [total_allocs], [failed_allocs] or the number of slots, and
    never raises [quota_used]: the new value is between 0 and the old one. *)
Theorem free_always_forwards (f : free_fn) env st st1 devPtr reply :
  ensure_init env st = Some st1 ->
  resolves env st1 (free_symbol f) = true ->
  exists o, call_free f env st devPtr reply = Some o /\
    ret o = reply /\ real_calls o = [free_symbol f] /\
    quota_limit (g_ctx (post o)) = quota_limit (g_ctx st1) /\
    peak_usage (g_ctx (post o)) = peak_usage (g_ctx st1) /\
    total_allocs (g_ctx (post o)) = total_allocs (g_ctx st1) /\
    failed_allocs (g_ctx (post o)) = failed_allocs (g_ctx st1) /\
    allocation_count (g_ctx (post o)) = allocation_count (g_ctx st1) /\
    (0 <= quota_used (g_ctx st1) ->
     0 <= quota_used (g_ctx (post o)) <= quota_used (g_ctx st1)).
Proof.
  intros Hinit Hres. rewrite call_free_unfold.
  destruct (intercept_free_resolved (free_abi f) (free_symbol f) env st st1
              devPtr reply Hinit Hres) as (o & Ho & Hret & Hcalls & Hctx).
  exists o. rewrite Hctx. split; [exact Ho|]. split; [exact Hret|].
  split; [exact Hcalls|].
  destruct (devPtr =? 0); [repeat split; auto; lia|].
  destruct (release_allocation_frame (g_ctx st1) devPtr)
    as (Hl & Hp & Hta & Hfa & _ & _ & Hlen & Hu).
  unfold allocation_count. rewrite Hl, Hp, Hta, Hfa, Hlen. repeat split; auto;
    apply Hu; assumption.
Qed.

(** An instance: [aclrtFree] of the tracked handle. *)
Lemma free_always_forwards_witness :
  exists o, call_free fn_aclrtFree env_default program_tracking 4096 0 = Some o /\
    real_calls o = [sym_aclrtFree] /\
    0 <= quota_used (g_ctx (post o)) <= 300.
Proof.
  destruct (free_always_forwards fn_aclrtFree env_default program_tracking
              program_tracking 4096 0 eq_refl eq_refl)
    as (o & Ho & _ & Hcalls & _ & _ & _ & _ & _ & Hu).
  exists o. split; [exact Ho|]. split; [exact Hcalls|]. apply Hu. cbn. lia.
Defined.

(* ------------------------------------------------------------------------ *)
(** ** Entries per handle *)

Lemma live_entries_app (l1 l2 : list allocation_entry_t) (p : Z) :
  live_entries (l1 ++ l2) p = live_entries l1 p + live_entries l2 p.
Proof.
  induction l1 as [|e l1 IH]; cbn [app live_entries]; [reflexivity | rewrite IH; lia].
Qed.

Lemma live_entries_nonneg (l : list allocation_entry_t) (p : Z) :
  0 <= live_entries l p.
Proof.
  induction l as [|e l IH]; cbn [live_entries]; [lia|].
  destruct (in_use e && (ptr e =? p)); lia.
Qed.

Lemma tracked_live_entries (l : list allocation_entry_t) (p : Z) :
  tracked l p <-> 0 < live_entries l p.
Proof.
  induction l as [|e l IH]; cbn [live_entries].
  - split; [intros H; now apply tracked_nil in H | lia].
  - rewrite tracked_cons, IH. pose proof (live_entries_nonneg l p) as Hnn.
    destruct (in_use e && (ptr e =? p)) eqn:E.
    + apply andb_true_iff in E as [Hu Hp]. apply Z.eqb_eq in Hp.
      split; [lia | auto].
    + split; [|intros Hpos; right; lia].
      intros [[Hu Hp]|Hl]; [|lia].
      rewrite Hu in E. cbn in E. apply Z.eqb_neq in E. contradiction.
Qed.

Lemma untracked_live_entries (l : list allocation_entry_t) (p : Z) :
  ~ tracked l p -> live_entries l p = 0.
Proof.
  intros Hn. pose proof (live_entries_nonneg l p) as Hnn.
  destruct (Z_lt_ge_dec 0 (live_entries l p)) as [Hpos|]; [|lia].
  apply tracked_live_entries in Hpos. contradiction.
Qed.

(** A stored insertion adds one entry for its handle and none for another. *)
Lemma add_allocation_live_entries (c : quota_context_t) (p sz q : Z) :
  has_room c = true ->
  live_entries (allocations (snd (add_allocation c p sz))) q
  = live_entries (allocations c) q + (if q =? p then 1 else 0).
Proof.
  intros Hroom.
  destruct (add_allocation_shape c p sz Hroom) as (l1 & pre & l2 & -> & -> & Hpre).
  rewrite !live_entries_app. cbn [live_entries in_use ptr andb].
  rewrite (Z.eqb_sym p q).
  destruct Hpre as [[-> ->]|(e & -> & He)]; cbn [live_entries]; [lia|].
  rewrite He. cbn [andb]. lia.
Qed.

(** A removal takes away one entry of a tracked handle and none of
    another. *)
Lemma remove_allocation_live_entries (c : quota_context_t) (p q : Z) :
  live_entries (allocations (snd (remove_allocation c p))) q
  = live_entries (allocations c) q
    - (if (q =? p) && (0 <? live_entries (allocations c) p) then 1 else 0).
Proof.
  destruct (remove_allocation_shape c p)
    as [[Hn ->]|(l1 & e & l2 & Hl & Hl1 & He & Hp & _ & ->)].
  - cbn [snd]. rewrite (untracked_live_entries _ _ Hn).
    cbn [Z.ltb Z.compare]. rewrite andb_false_r. lia.
  - rewrite Hl, !live_entries_app. cbn [live_entries in_use ptr andb].
    rewrite He, Hp. cbn [andb].
    pose proof (live_entries_nonneg l1 p). pose proof (live_entries_nonneg l2 p).
    rewrite Z.eqb_refl.
    replace (0 <? live_entries l1 p + (1 + live_entries l2 p)) with true
      by (symmetry; apply Z.ltb_lt; lia).
    rewrite andb_true_r, (Z.eqb_sym p q). destruct (q =? p); lia.
Qed.

Lemma remove_allocation_table (c c' : quota_context_t) (p : Z) :
  allocations c = allocations c' ->
  fst (remove_allocation c p) = fst (remove_allocation c' p) /\
  allocations (snd (remove_allocation c p))
  = allocations (snd (remove_allocation c' p)).
Proof.
  intros H. unfold remove_allocation, find_allocation. rewrite H.
  destruct (0 <=? find_from 0 (allocations c') p); cbn; auto.
Qed.

Lemma release_allocation_table (c : quota_context_t) (p : Z) :
  allocations (release_allocation c p)
  = allocations (snd (remove_allocation c p)).
Proof.
  unfold release_allocation. destruct (remove_allocation c p) as [sz c1].
  destruct (0 <? sz); [destruct (sz <=? quota_used c1)|]; reflexivity.
Qed.

(** The release of the handle that a commit has just stored. *)
Lemma release_committed (c : quota_context_t) (h sz : Z) :
  has_room c = true -> ~ tracked (allocations c) h ->
  let c1 := commit_allocation c h sz in
  let c2 := release_allocation c1 h in
  tracked (allocations c1) h /\ ~ tracked (allocations c2) h /\
  total_allocs c2 = total_allocs c1 /\
  quota_used c2
  = (if 0 <? sz then if sz <=? quota_used c1 then quota_used c1 - sz else 0
     else quota_used c1) /\
  total_frees c2
  = (if 0 <? sz then wrap64 (total_frees c + 1) else total_frees c).
Proof.
  intros Hroom Hfresh c1 c2.
  destruct (commit_allocation_spec c h sz) as (_ & _ & _ & Htf & _ & _ & Ht).
  fold c1 in Htf, Ht.
  assert (Hadd : tracked (allocations c1) h).
  { rewrite Ht. now apply add_allocation_tracks. }
  split; [exact Hadd|]. split.
  - subst c2. rewrite release_allocation_table, tracked_live_entries.
    rewrite remove_allocation_live_entries, Ht.
    rewrite add_allocation_live_entries by exact Hroom.
    rewrite (untracked_live_entries _ _ Hfresh), Z.eqb_refl. cbn. lia.
  - assert (Hsz : fst (remove_allocation c1 h) = sz).
    { destruct (remove_allocation_table c1 (snd (add_allocation c h sz)) h Ht) as [-> _].
      apply (remove_after_add c h sz Hroom Hfresh). }
    subst c2. unfold release_allocation.
    pose proof (remove_allocation_spec c1 h) as Hspec.
    destruct (remove_allocation c1 h) as [sz' c3]. cbn [fst] in Hsz. subst sz'.
    destruct Hspec as (_ & Hu & _ & Hta & Htf3 & _).
    destruct (0 <? sz); [destruct (sz <=? quota_used c3) eqn:E|]; cbn;
      rewrite ?Hu in *; rewrite ?E; repeat split; congruence.
Qed.

Lemma call_free_real (f : free_fn) env st st1 devPtr reply o :
  ensure_init env st = Some st1 ->
  call_free f env st devPtr reply = Some o ->
  real (post o) = real (lazy_load env st1 (free_symbol f)) /\
  initialized (g_ctx (post o)) = true.
Proof.
  intros Hinit. rewrite call_free_unfold. unfold intercept_free.
  rewrite Hinit. cbv zeta.
  destruct (ensure_init_accounting env st st1 Hinit) as [_ Hi].
  destruct (negb _); [|destruct (devPtr =? 0)]; intros [= <-]; cbn;
    rewrite ?lazy_load_ctx; auto.
  split; [reflexivity|].
  now destruct (release_allocation_config (g_ctx st1) devPtr) as [-> _].
Qed.

(* ------------------------------------------------------------------------ *)
(** ** Freeing twice, and allocations of size zero *)

(** X10. A double free does not subtract twice.  When the table has room and
    an admitted allocation succeeds with a non-NULL handle that was not
    tracked, the first free of that handle untracks it, and a second free of
    it (through any vendor's free hook) still calls the real free and
    returns its code, and leaves the whole context as the first free left
    it. *)
Theorem double_free_is_harmless (f : alloc_fn) (g g2 : free_fn)
    env st st1 devPtr sz reply h r1 r2 :
  ensure_init env st = Some st1 ->
  resolves env st1 (alloc_symbol f) = true ->
  resolves env st1 (free_symbol g) = true ->
  resolves env st1 (free_symbol g2) = true ->
  over_quota (g_ctx st1) sz = false ->
  alloc_result reply = v_success (alloc_abi f) ->
  handle_after devPtr reply = Some h -> h <> 0 ->
  has_room (g_ctx st1) = true -> ~ tracked (allocations (g_ctx st1)) h ->
  exists o1 o2 o3,
    call_alloc f env st devPtr sz reply = Some o1 /\
    call_free g env (post o1) h r1 = Some o2 /\
    ~ tracked (allocations (g_ctx (post o2))) h /\
    call_free g2 env (post o2) h r2 = Some o3 /\
    ret o3 = r2 /\ real_calls o3 = [free_symbol g2] /\
    g_ctx (post o3) = g_ctx (post o2).
Proof.
  intros Hinit Hra Hrg Hrg2 Hover Hok Hh Hnz Hroom Hfresh.
  destruct (alloc_committed f env st st1 devPtr sz reply h Hinit Hra Hover Hok Hh Hnz)
    as (o1 & Ho1 & _ & _ & _ & Hctx1 & Hinit1 & Hres1).
  destruct (intercept_free_resolved (free_abi g) (free_symbol g) env (post o1) (post o1)
              h r1 Hinit1) as (o2 & Ho2 & _ & _ & Hctx2);
    [rewrite Hres1; exact Hrg|].
  rewrite <- call_free_unfold in Ho2.
  destruct (call_free_real g env (post o1) (post o1) h r1 o2 Hinit1 Ho2) as [Hreal2 Hi2].
  pose proof (ensure_init_initialized env (post o2) Hi2) as Hinit2.
  assert (Hctx2' : g_ctx (post o2) = release_allocation (g_ctx (post o1)) h).
  { rewrite Hctx2. apply Z.eqb_neq in Hnz. now rewrite Hnz. }
  assert (Hgone : ~ tracked (allocations (g_ctx (post o2))) h).
  { rewrite Hctx2', Hctx1. apply (release_committed (g_ctx st1) h sz Hroom Hfresh). }
  destruct (intercept_free_resolved (free_abi g2) (free_symbol g2) env (post o2) (post o2)
              h r2 Hinit2) as (o3 & Ho3 & Hret3 & Hcalls3 & Hctx3).
  { unfold resolves. rewrite Hreal2.
    change (resolves env (lazy_load env (post o1) (free_symbol g)) (free_symbol g2) = true).
    now rewrite resolves_lazy_load, Hres1. }
  rewrite <- call_free_unfold in Ho3.
  exists o1, o2, o3. repeat split; auto.
  rewrite Hctx3. apply Z.eqb_neq in Hnz. rewrite Hnz.
  unfold release_allocation. now rewrite (remove_untracked _ _ Hgone).
Qed.

(** An instance: [cudaMalloc] of 200 bytes, then [cudaFree] twice. *)
Lemma double_free_is_harmless_witness :
  exists o1 o2 o3,
    call_alloc fn_cudaMalloc env_default program_tracking (Some 0) 200
      {| alloc_result := 0; alloc_stored := Some 8192 |} = Some o1 /\
    call_free fn_cudaFree env_default (post o1) 8192 0 = Some o2 /\
    call_free fn_cudaFree env_default (post o2) 8192 0 = Some o3 /\
    g_ctx (post o3) = g_ctx (post o2).
Proof.
  destruct (double_free_is_harmless fn_cudaMalloc fn_cudaFree fn_cudaFree env_default
              program_tracking program_tracking (Some 0) 200
              {| alloc_result := 0; alloc_stored := Some 8192 |} 8192 0 0
              eq_refl eq_refl eq_refl eq_refl eq_refl eq_refl eq_refl)
    as (o1 & o2 & o3 & Ho1 & Ho2 & _ & Ho3 & _ & _ & Hsame).
  - discriminate.
  - reflexivity.
  - cbn. intros (e & [<-|[]] & _ & He). discriminate.
  - exists o1, o2, o3. auto.
Defined.

(** X11. When the table has room and the handle is not tracked yet, an
    allocation of size zero that succeeds with this non-NULL handle is
    counted in [total_allocs] and tracked; the free of its handle untracks
    it, but since the size found is zero the free is not counted:
    [total_frees] and [quota_used] are as the allocation left them. *)
Theorem zero_size_free_is_not_counted (f : alloc_fn) (g : free_fn)
    env st st1 devPtr reply h r1 :
  ensure_init env st = Some st1 ->
  resolves env st1 (alloc_symbol f) = true ->
  resolves env st1 (free_symbol g) = true ->
  over_quota (g_ctx st1) 0 = false ->
  alloc_result reply = v_success (alloc_abi f) ->
  handle_after devPtr reply = Some h -> h <> 0 ->
  has_room (g_ctx st1) = true -> ~ tracked (allocations (g_ctx st1)) h ->
  exists o1 o2,
    call_alloc f env st devPtr 0 reply = Some o1 /\
    total_allocs (g_ctx (post o1)) = wrap64 (total_allocs (g_ctx st1) + 1) /\
    tracked (allocations (g_ctx (post o1))) h /\
    call_free g env (post o1) h r1 = Some o2 /\
    ~ tracked (allocations (g_ctx (post o2))) h /\
    total_frees (g_ctx (post o2)) = total_frees (g_ctx st1) /\
    total_allocs (g_ctx (post o2)) = wrap64 (total_allocs (g_ctx st1) + 1) /\
    quota_used (g_ctx (post o2)) = quota_used (g_ctx (post o1)).
Proof.
  intros Hinit Hra Hrg Hover Hok Hh Hnz Hroom Hfresh.
  destruct (alloc_committed f env st st1 devPtr 0 reply h Hinit Hra Hover Hok Hh Hnz)
    as (o1 & Ho1 & _ & _ & _ & Hctx1 & Hinit1 & Hres1).
  destruct (intercept_free_resolved (free_abi g) (free_symbol g) env (post o1) (post o1)
              h r1 Hinit1) as (o2 & Ho2 & _ & _ & Hctx2);
    [rewrite Hres1; exact Hrg|].
  rewrite <- call_free_unfold in Ho2.
  assert (Hctx2' : g_ctx (post o2) = release_allocation (g_ctx (post o1)) h).
  { rewrite Hctx2. apply Z.eqb_neq in Hnz. now rewrite Hnz. }
  destruct (release_committed (g_ctx st1) h 0 Hroom Hfresh)
    as (Htr & Hgone & Hta & Hu & Htf).
  destruct (commit_allocation_spec (g_ctx st1) h 0) as (_ & _ & Hta1 & _).
  cbn [Z.ltb Z.compare] in Hu, Htf.
  exists o1, o2. rewrite Hctx2', Hctx1.
  repeat split; auto; congruence.
Qed.

(** An instance: [hipMalloc] of 0 bytes, then [hipFree]. *)
Lemma zero_size_free_is_not_counted_witness :
  exists o1 o2,
    call_alloc fn_hipMalloc env_default program_tracking (Some 0) 0
      {| alloc_result := 0; alloc_stored := Some 8192 |} = Some o1 /\
    call_free fn_hipFree env_default (post o1) 8192 0 = Some o2 /\
    total_allocs (g_ctx (post o2)) = 2 /\ total_frees (g_ctx (post o2)) = 0.
Proof.
  destruct (zero_size_free_is_not_counted fn_hipMalloc fn_hipFree env_default
              program_tracking program_tracking (Some 0)
              {| alloc_result := 0; alloc_stored := Some 8192 |} 8192 0
              eq_refl eq_refl eq_refl eq_refl eq_refl eq_refl)
    as (o1 & o2 & Ho1 & _ & _ & Ho2 & _ & Htf & Hta & _).
  - discriminate.
  - reflexivity.
  - cbn. intros (e & [<-|[]] & _ & He). discriminate.
  - exists o1, o2. auto.
Defined.

(* ------------------------------------------------------------------------ *)
(** ** Bindings *)

Lemma lazy_load_binding env st s s' :
  real (lazy_load env st s) s'
  = if symbol_eqb s' s then real st s' || dlsym env s' else real st s'.
Proof.
  unfold lazy_load. destruct (real st s) eqn:Hs; cbn.
  - destruct (symbol_eqb s' s) eqn:E; [|reflexivity].
    apply symbol_eqb_eq in E. subst s'. now rewrite Hs.
  - destruct (symbol_eqb s' s) eqn:E; [|reflexivity].
    apply symbol_eqb_eq in E. subst s'. now rewrite Hs.
Qed.

(** X12. In an initialized library a call changes at most the pointer of
    its own real function, and only from NULL to what the lookup finds: after
    the call a pointer is set exactly when it was set before, or it is the
    pointer of the called hook and [dlsym] finds the function.  A binding
    that has resolved once stays resolved, also when later lookups fail. *)
Theorem bindings_are_sticky env st (c : api_call) r st' calls :
  initialized (g_ctx st) = true ->
  step env st c = Some (r, st', calls) ->
  forall s, real st' s
            = if symbol_eqb s (call_symbol c) then real st s || dlsym env s
              else real st s.
Proof.
  intros Hi Hstep s.
  pose proof (ensure_init_initialized env st Hi) as Hinit.
  rewrite <- lazy_load_binding.
  destruct c as [f devPtr sz reply | f devPtr reply | f free total reply];
    cbn [step call_symbol] in *.
  - rewrite call_alloc_unfold in Hstep. unfold intercept_alloc in Hstep.
    rewrite Hinit in Hstep. cbv zeta in Hstep.
    destruct (negb _); [|destruct (over_quota _ _)]; cbn in Hstep;
      injection Hstep as _ <- _; try reflexivity.
    destruct (handle_after devPtr reply) as [h|]; [|reflexivity].
    destruct ((alloc_result reply =? v_success (alloc_abi f)) && negb (h =? 0));
      reflexivity.
  - rewrite call_free_unfold in Hstep. unfold intercept_free in Hstep.
    rewrite Hinit in Hstep. cbv zeta in Hstep.
    destruct (negb _); [|destruct (devPtr =? 0)]; cbn in Hstep;
      injection Hstep as _ <- _; reflexivity.
  - rewrite call_query_unfold in Hstep. unfold intercept_query in Hstep.
    rewrite Hinit in Hstep. cbv zeta in Hstep.
    destruct (negb _); [|destruct (negb _)]; cbn in Hstep;
      injection Hstep as _ <- _; reflexivity.
Qed.

(** An instance: [cudaFree(NULL)] in a process where the CUDA runtime is no
    longer found leaves the pointer of [cudaFree] set. *)
Lemma bindings_are_sticky_witness :
  exists st',
    step env_no_vendor program_tracking (Free fn_cudaFree 0 0)
    = Some (0, st', [sym_cudaFree]) /\
    real st' sym_cudaFree = true /\ real st' sym_hipMalloc = true.
Proof.
  eexists. split; [reflexivity|].
  split;
    rewrite (bindings_are_sticky env_no_vendor program_tracking (Free fn_cudaFree 0 0)
               0 _ [sym_cudaFree] eq_refl eq_refl); reflexivity.
Defined.

(* ------------------------------------------------------------------------ *)
(** ** Unit suffixes and log levels *)

Lemma double_kibi3 :
  LibC.double_mul (LibC.double_mul KIBI KIBI) KIBI = LibC.double_of_Z 1073741824.
Proof. vm_compute. reflexivity. Qed.

Lemma double_kilo3 :
  LibC.double_mul (LibC.double_mul KILO KILO) KILO = LibC.double_of_Z 1000000000.
Proof. vm_compute. reflexivity. Qed.

Lemma double_kibi2 : LibC.double_mul KIBI KIBI = LibC.double_of_Z 1048576.
Proof. vm_compute. reflexivity. Qed.

Lemma double_kilo2 : LibC.double_mul KILO KILO = LibC.double_of_Z 1000000.
Proof. vm_compute. reflexivity. Qed.

Lemma strncasecmp_0 (s1 s2 : string) : LibC.strncasecmp s1 s2 0 = 0.
Proof. destruct s1; reflexivity. Qed.

(** The comparison of the first character with a letter. *)
Lemma strncasecmp_1 (c k : ascii) (r : string) :
  (LibC.strncasecmp (String c r) (String k EmptyString) 1 =? 0)
  = (LibC.tolower c =? LibC.tolower k).
Proof.
  simpl LibC.strncasecmp.
  destruct (LibC.tolower c =? LibC.tolower k) eqn:E.
  - now rewrite strncasecmp_0.
  - apply Z.eqb_neq in E. apply Z.eqb_neq. lia.
Qed.

(** The comparison of the first two characters with two letters. *)
Lemma strncasecmp_2 (c k1 k2 : ascii) (r rest : string) :
  LibC.tolower k2 <> 0 ->
  (LibC.strncasecmp (String c r) (String k1 (String k2 rest)) 2 =? 0)
  = (LibC.tolower c =? LibC.tolower k1)
    && match r with
       | String c2 _ => LibC.tolower c2 =? LibC.tolower k2
       | EmptyString => false
       end.
Proof.
  intros Hk. destruct r as [|c2 r2]; simpl LibC.strncasecmp;
    destruct (LibC.tolower c =? LibC.tolower k1) eqn:E1; cbn [andb];
    try (apply Z.eqb_neq in E1; apply Z.eqb_neq; lia).
  - apply Z.eqb_neq. lia.
  - destruct (LibC.tolower c2 =? LibC.tolower k2) eqn:E2.
    + now rewrite strncasecmp_0.
    + apply Z.eqb_neq in E2. apply Z.eqb_neq. lia.
Qed.

(** A match of three characters is a match of the first two. *)
Lemma strncasecmp_3 (s : string) (k1 k2 k3 : ascii) :
  LibC.tolower k2 <> 0 ->
  (LibC.strncasecmp s (String k1 (String k2 (String k3 EmptyString))) 3 =? 0) = true ->
  (LibC.strncasecmp s (String k1 (String k2 EmptyString)) 2 =? 0) = true.
Proof.
  intros Hk. destruct s as [|c1 r]; [intros H; exact H|].
  rewrite strncasecmp_2 by exact Hk.
  destruct r as [|c2 r2]; simpl LibC.strncasecmp;
    destruct (LibC.tolower c1 =? LibC.tolower k1) eqn:E1;
    try (intros H; apply Z.eqb_eq in H; apply Z.eqb_neq in E1; lia).
  - intros H. apply Z.eqb_eq in H. lia.
  - destruct (LibC.tolower c2 =? LibC.tolower k2) eqn:E2; [reflexivity|].
    intros H. apply Z.eqb_eq in H. apply Z.eqb_neq in E2. lia.
Qed.

Lemma orb_implied (a b : bool) : (b = true -> a = true) -> a || b = a.
Proof. destruct a, b; intros H; auto. symmetry. now apply H. Qed.

(** X14. The unit suffix of a size string is decided by its first two
    characters only, without regard to case: [g], [m] or [k] selects the
    unit, a following [i] makes it binary (1024-based) and anything else,
    the end of the string included, decimal (1000-based); whatever follows
    is ignored, and every other first character means bytes. *)
Theorem unit_factor_by_prefix (endptr : string) :
  unit_factor endptr = option_map LibC.double_of_Z (suffix_multiplier endptr).
Proof.
  destruct endptr as [|c r]; [vm_compute; reflexivity|].
  unfold unit_factor. cbv zeta beta.
  rewrite (orb_implied _ _ (strncasecmp_3 (String c r) "G" "i" "B" ltac:(discriminate))).
  rewrite (orb_implied _ _ (strncasecmp_3 (String c r) "M" "i" "B" ltac:(discriminate))).
  rewrite (orb_implied _ _ (strncasecmp_3 (String c r) "K" "i" "B" ltac:(discriminate))).
  rewrite !strncasecmp_2 by discriminate. rewrite !strncasecmp_1.
  change (LibC.tolower "G"%char) with 103. change (LibC.tolower "M"%char) with 109.
  change (LibC.tolower "K"%char) with 107. change (LibC.tolower "i"%char) with 105.
  change (LibC.tolower "B"%char) with 98.
  rewrite double_kibi3, double_kilo3, double_kibi2, double_kilo2.
  unfold suffix_multiplier, KIBI, KILO.
  destruct (LibC.tolower c =? 103); cbn [andb orb option_map].
  { destruct r as [|c2 r2]; [reflexivity|]. destruct (LibC.tolower c2 =? 105); reflexivity. }
  destruct (LibC.tolower c =? 109); cbn [andb orb option_map].
  { destruct r as [|c2 r2]; [reflexivity|]. destruct (LibC.tolower c2 =? 105); reflexivity. }
  destruct (LibC.tolower c =? 107); cbn [andb orb option_map]; [|reflexivity].
  destruct r as [|c2 r2]; [reflexivity|]. destruct (LibC.tolower c2 =? 105); reflexivity.
Qed.

Lemma tolower_nonzero (c : ascii) : LibC.code c <> 0 -> LibC.tolower c <> 0.
Proof.
  unfold LibC.tolower, LibC.code. intros H.
  pose proof (N2Z.is_nonneg (N_of_ascii c)).
  destruct (LibC.isupper c); lia.
Qed.

(** On C strings [strcasecmp] returns zero exactly when the two strings are
    the same in lower case. *)
Lemma strcasecmp_zero (s1 : string) : forall s2,
  no_nul s1 -> no_nul s2 ->
  (LibC.strcasecmp s1 s2 = 0 <-> lower s1 = lower s2).
Proof.
  induction s1 as [|c1 r1 IH]; intros [|c2 r2] H1 H2; cbn [LibC.strcasecmp lower].
  - tauto.
  - destruct H2 as [H2 _]. apply tolower_nonzero in H2.
    split; [lia | discriminate].
  - destruct H1 as [H1 _]. apply tolower_nonzero in H1.
    split; [lia | discriminate].
  - destruct H1 as [_ H1], H2 as [_ H2].
    destruct (LibC.tolower c1 =? LibC.tolower c2) eqn:E.
    + apply Z.eqb_eq in E. rewrite (IH r2 H1 H2).
      split; [intros ->; now rewrite E | intros [= _ Hr]; exact Hr].
    + apply Z.eqb_neq in E. split; [lia | intros [= Hc _]; contradiction].
Qed.

Lemma strcasecmp_test (s lit : string) :
  no_nul s -> no_nul lit ->
  (LibC.strcasecmp s lit =? 0)
  = if list_eq_dec Z.eq_dec (lower s) (lower lit) then true else false.
Proof.
  intros Hs Hl. destruct (list_eq_dec Z.eq_dec (lower s) (lower lit)) as [e|n].
  - apply Z.eqb_eq. now apply strcasecmp_zero.
  - apply Z.eqb_neq. intros H. apply n. now apply strcasecmp_zero.
Qed.

(** X15. [parse_log_level] is case-insensitive and falls back to
    [LOG_WARN]: for a NULL string it returns [LOG_WARN], and for a C string
    it returns the level whose name ("debug", "info", "error", "none") is the
    string in lower case, and [LOG_WARN] for every other string. *)
Theorem parse_log_level_by_name :
  parse_log_level None = LOG_WARN /\
  forall s, no_nul s ->
    parse_log_level (Some s)
    = if list_eq_dec Z.eq_dec (lower s) (lower "debug") then LOG_DEBUG
      else if list_eq_dec Z.eq_dec (lower s) (lower "info") then LOG_INFO
      else if list_eq_dec Z.eq_dec (lower s) (lower "error") then LOG_ERROR
      else if list_eq_dec Z.eq_dec (lower s) (lower "none") then LOG_NONE
      else LOG_WARN.
Proof.
  split; [reflexivity|]. intros s Hs. unfold parse_log_level.
  rewrite !strcasecmp_test
    by (try exact Hs; cbn; repeat split; discriminate).
  destruct (list_eq_dec Z.eq_dec (lower s) (lower "debug")) as [e|_]; [reflexivity|].
  destruct (list_eq_dec Z.eq_dec (lower s) (lower "info")) as [e|_]; [reflexivity|].
  destruct (list_eq_dec Z.eq_dec (lower s) (lower "warn")) as [e|_].
  - rewrite e.
    destruct (list_eq_dec Z.eq_dec (lower "warn") (lower "error")) as [e'|_];
      [discriminate e'|].
    destruct (list_eq_dec Z.eq_dec (lower "warn") (lower "none")) as [e'|_];
      [discriminate e'|]. reflexivity.
  - destruct (list_eq_dec Z.eq_dec (lower s) (lower "error")) as [e|_]; [reflexivity|].
    destruct (list_eq_dec Z.eq_dec (lower s) (lower "none")); reflexivity.
Qed.

(** An instance: "Error". *)
Lemma parse_log_level_by_name_witness :
  parse_log_level (Some "Error"%string) = LOG_ERROR.
Proof.
  rewrite (proj2 parse_log_level_by_name "Error"%string).
  - reflexivity.
  - cbn. repeat split; discriminate.
Defined.

(** X16. White space in front of a size string is skipped: a string that
    starts with a space, a tab or another [isspace] character parses to the
    same size as the string without that character. *)
Theorem leading_whitespace_is_skipped (c : ascii) (s : string) :
  LibC.isspace c = true ->
  parse_size_string (Some (String c s)) = parse_size_string (Some s).
Proof.
  intros Hc.
  assert (Hstrtod : LibC.strtod (String c s) = LibC.strtod s).
  { unfold LibC.strtod. cbn [LibC.skip_spaces]. now rewrite Hc. }
  unfold parse_size_string. rewrite Hstrtod.
  destruct s as [|c' r]; reflexivity.
Qed.

(** An instance: a tab in front of "2Mi". *)
Lemma leading_whitespace_is_skipped_witness :
  parse_size_string (Some (String "009"%char "2Mi")) = Some 2097152.
Proof.
  rewrite (leading_whitespace_is_skipped "009"%char "2Mi"%string eq_refl).
  vm_compute. reflexivity.
Defined.

(* ------------------------------------------------------------------------ *)
(** ** The floor of the free path, and the quota shared by the vendors *)

(** X20. While [quota_used] is the sum of the sizes in use, a free whose
    binding resolves subtracts exactly the size that [remove_allocation]
    finds, so the floor at zero in the free path is not reached, and the sum
    property holds again after the free. *)
Theorem free_subtracts_exactly (f : free_fn) env st st1 devPtr reply :
  ensure_init env st = Some st1 ->
  resolves env st1 (free_symbol f) = true ->
  devPtr <> 0 ->
  conserved (g_ctx st1) ->
  exists o, call_free f env st devPtr reply = Some o /\
    quota_used (g_ctx (post o))
    = quota_used (g_ctx st1) - fst (remove_allocation (g_ctx st1) devPtr) /\
    0 <= fst (remove_allocation (g_ctx st1) devPtr) <= quota_used (g_ctx st1) /\
    conserved (g_ctx (post o)).
Proof.
  intros Hinit Hres Hnz Hcons. rewrite call_free_unfold.
  destruct (intercept_free_resolved (free_abi f) (free_symbol f) env st st1
              devPtr reply Hinit Hres) as (o & Ho & _ & _ & Hctx).
  exists o. split; [exact Ho|].
  apply Z.eqb_neq in Hnz. rewrite Hnz in Hctx. rewrite Hctx.
  split; [|split; [|now apply release_conserved]].
  - destruct Hcons as [Hused Hsizes]. unfold release_allocation.
    pose proof (remove_allocation_spec (g_ctx st1) devPtr) as Hspec.
    destruct (remove_allocation (g_ctx st1) devPtr) as [sz c1]. cbn [fst].
    destruct Hspec as (_ & Hu & _ & _ & _ & _ & _ & _ & _ & Hrest).
    destruct (Hrest Hsizes) as [_ Hrange].
    destruct (0 <? sz) eqn:Epos.
    + replace (sz <=? quota_used c1) with true by (symmetry; apply Z.leb_le; lia).
      cbn. lia.
    + apply Z.ltb_ge in Epos. lia.
  - destruct Hcons as [Hused Hsizes].
    pose proof (remove_allocation_spec (g_ctx st1) devPtr) as Hspec.
    destruct (remove_allocation (g_ctx st1) devPtr) as [sz c1]. cbn [fst].
    destruct Hspec as (_ & _ & _ & _ & _ & _ & _ & _ & _ & Hrest).
    destruct (Hrest Hsizes) as [_ Hrange]. lia.
Qed.

(** An instance: [cudaFree] of the 300-byte allocation. *)
Lemma free_subtracts_exactly_witness :
  exists o, call_free fn_cudaFree env_default program_tracking 4096 0 = Some o /\
    quota_used (g_ctx (post o)) = 0.
Proof.
  destruct (free_subtracts_exactly fn_cudaFree env_default program_tracking
              program_tracking 4096 0 eq_refl eq_refl)
    as (o & Ho & Hu & _).
  - discriminate.
  - split; [reflexivity|]. repeat constructor. cbn. lia.
  - exists o. split; [exact Ho|]. rewrite Hu. reflexivity.
Defined.

(** X21. The quota is shared by the vendors: after an admitted allocation of
    [sz] bytes through any allocate hook, with [quota_used + sz] within the
    limit, a memory-info query through any vendor's hook that succeeds
    reports the limit as total and [quota_limit - quota_used - sz] as free. *)
Theorem allocation_lowers_reported_free (f : alloc_fn) (q : query_fn)
    env st st1 devPtr sz reply h free total qreply :
  ensure_init env st = Some st1 ->
  resolves env st1 (alloc_symbol f) = true ->
  resolves env st1 (query_symbol q) = true ->
  0 <= quota_used (g_ctx st1) -> 0 <= sz ->
  quota_used (g_ctx st1) + sz <= quota_limit (g_ctx st1) ->
  quota_limit (g_ctx st1) <= SIZE_MAX ->
  alloc_result reply = v_success (alloc_abi f) ->
  handle_after devPtr reply = Some h -> h <> 0 ->
  query_result qreply = v_success (query_abi q) ->
  exists o1 o2,
    call_alloc f env st devPtr sz reply = Some o1 /\
    ret o1 = v_success (alloc_abi f) /\
    call_query q env (post o1) free total qreply = Some o2 /\
    ret o2 = v_success (query_abi q) /\
    outputs o2
    = (quota_limit (g_ctx st1) - quota_used (g_ctx st1) - sz, quota_limit (g_ctx st1)).
Proof.
  intros Hinit Hra Hrq Hused Hsz Hfit Hlim Hok Hh Hnz Hqok.
  assert (Hover : over_quota (g_ctx st1) sz = false).
  { rewrite over_quota_exact by lia. apply Z.ltb_ge. lia. }
  destruct (alloc_committed f env st st1 devPtr sz reply h Hinit Hra Hover Hok Hh Hnz)
    as (o1 & Ho1 & Hret1 & _ & _ & Hctx1 & Hinit1 & Hres1).
  destruct (commit_allocation_spec (g_ctx st1) h sz) as (Hl & Hu & _).
  rewrite wrap64_small in Hu by lia. rewrite <- Hctx1 in Hl, Hu.
  exists o1. eexists. split; [exact Ho1|]. split; [exact Hret1|].
  rewrite call_query_unfold. unfold intercept_query. rewrite Hinit1. cbv zeta.
  rewrite lazy_load_real, Hres1, Hrq. cbn [negb].
  apply Z.eqb_eq in Hqok. rewrite Hqok. cbn [negb].
  split; [reflexivity|]. cbn [ret outputs]. split; [reflexivity|].
  rewrite lazy_load_ctx, Hl, Hu.
  destruct (quota_used (g_ctx st1) + sz <? quota_limit (g_ctx st1)) eqn:E;
    [apply Z.ltb_lt in E | apply Z.ltb_ge in E]; f_equal; lia.
Qed.

(** An instance: [aclrtMalloc] of 200 bytes, then [hipMemGetInfo]. *)
Lemma allocation_lowers_reported_free_witness :
  exists o1 o2,
    call_alloc (fn_aclrtMalloc ACL_MEM_MALLOC_HUGE_FIRST) env_default
      program_tracking (Some 0) 200
      {| alloc_result := 0; alloc_stored := Some 8192 |} = Some o1 /\
    call_query fn_hipMemGetInfo env_default (post o1) 0 0
      {| query_result := 0; query_free := 1; query_total := 2 |} = Some o2 /\
    outputs o2 = (500, 1000).
Proof.
  destruct (allocation_lowers_reported_free
              (fn_aclrtMalloc ACL_MEM_MALLOC_HUGE_FIRST) fn_hipMemGetInfo env_default
              program_tracking program_tracking (Some 0) 200
              {| alloc_result := 0; alloc_stored := Some 8192 |} 8192 0 0
              {| query_result := 0; query_free := 1; query_total := 2 |}
              eq_refl eq_refl eq_refl)
    as (o1 & o2 & Ho1 & _ & Ho2 & _ & Hout); try (cbn; unfold SIZE_MAX; lia);
    try reflexivity; try discriminate.
  exists o1, o2. auto.
Defined.
